(** * Shallow embedding of aiweb3news: RSS polling, dedup, AI analysis,
    MySQL persistence, webhook notification and the /items query.

    Sources embedded:
    - internal/rss/fetcher.go      : [pickGUID], [Fetch]
    - internal/storage/mysql.go    : [Exists], [SaveAnalysis], [ListRelevant]
    - internal/service/service.go   : [pollOnce] (revision without webhook)
    - unnamed/part_000 (service.go) : [pollOnce] (revision with [notifyWebhook]),
                                      [itemsHandler]
    - internal/analysis (inside the two service files) : [trimText],
                                      [cleanupResponse]

    Go strings are byte strings; they are modelled as Rocq [string]
    (a list of 8-bit [ascii]). Timestamps are [Z] (Unix seconds). *)

From Stdlib Require Import ZArith Ascii String List Bool Lia.
From Stdlib Require Import Sorted Permutation.
Import ListNotations.
Open Scope Z_scope.

(* ------------------------------------------------------------------ *)
(** ** Generic Go [strings] package helpers on byte strings *)

Module GoStrings.

Local Open Scope string_scope.

(** [strings.HasPrefix s prefix] *)
Definition HasPrefix (s pre : string) : bool := String.prefix pre s.

(** [s[n:]] *)
Definition drop (n : nat) (s : string) : string :=
  substring n (String.length s - n) s.

(** [s[:n]] *)
Definition take (n : nat) (s : string) : string := substring 0 n s.

(** [strings.HasSuffix s suffix] *)
Definition HasSuffix (s suf : string) : bool :=
  (String.length suf <=? String.length s)%nat &&
  String.eqb (drop (String.length s - String.length suf) s) suf.

(** [strings.TrimPrefix s prefix] *)
Definition TrimPrefix (s pre : string) : string :=
  if HasPrefix s pre then drop (String.length pre) s else s.

(** [strings.TrimSuffix s suffix] *)
Definition TrimSuffix (s suf : string) : string :=
  if HasSuffix s suf then take (String.length s - String.length suf) s else s.

(** [strings.Contains s substr]: some suffix of [s] starts with [substr]. *)
Fixpoint Contains (s sub : string) : bool :=
  String.prefix sub s ||
  match s with
  | EmptyString => false
  | String _ rest => Contains rest sub
  end.

(** [strings.IndexByte s c] (what [strings.Index] does for a one-byte
    pattern): position of the first [c], or [None] for Go's -1. *)
Fixpoint IndexByte (s : string) (c : ascii) : option nat :=
  match s with
  | EmptyString => None
  | String d rest =>
      if Ascii.eqb c d then Some O
      else option_map S (IndexByte rest c)
  end.

(** [strings.ReplaceAll s old new] for a non-empty [old]: leftmost,
    non-overlapping replacement. [fuel] bounds the scan by the length. *)
Fixpoint replace_all_fuel (fuel : nat) (s old new : string) : string :=
  match fuel with
  | O => s
  | S fuel' =>
      match s with
      | EmptyString => EmptyString
      | String c rest =>
          if String.prefix old s
          then new ++ replace_all_fuel fuel' (drop (String.length old) s) old new
          else String c (replace_all_fuel fuel' rest old new)
      end
  end.

Definition ReplaceAll (s old new : string) : string :=
  replace_all_fuel (S (String.length s)) s old new.

End GoStrings.

(* ------------------------------------------------------------------ *)
(** ** internal/rss/fetcher.go *)

Module Rss.

Local Open Scope string_scope.

(** The fields of a [gofeed.Item] that [Fetch] reads; [PublishedParsed]
    is a nullable pointer. *)
Record FeedEntry := mkFeedEntry {
  e_GUID : string;
  e_Title : string;
  e_Link : string;
  e_PublishedParsed : option Z;
  e_Description : string
}.

(** [rss.Item] *)
Record Item := mkItem {
  GUID : string;
  Title : string;
  Link : string;
  PublishedAt : Z;
  Description : string
}.

(** [pickGUID] *)
Definition pickGUID (entry : FeedEntry) : string :=
  if negb (String.eqb (e_GUID entry) "") then e_GUID entry
  else if negb (String.eqb (e_Link entry) "") then e_Link entry
  else e_Title entry.

Definition newsletter_marker : string := "/newsletter/".

(** Body of the loop of [Fetch] for one entry; [now] is [time.Now()]. *)
Definition fetch_entry (now : Z) (entry : FeedEntry) : list Item :=
  let pubTime := match e_PublishedParsed entry with
                 | Some t => t
                 | None => now
                 end in
  let guid := pickGUID entry in
  if negb (GoStrings.Contains guid newsletter_marker) &&
     negb (GoStrings.Contains (e_Link entry) newsletter_marker)
  then []
  else [mkItem guid (e_Title entry) (e_Link entry) pubTime (e_Description entry)].

(** [Fetch]: [parsed] is the outcome of [ParseURLWithContext]
    ([None] for its error). The result is [None] for the error. *)
Definition Fetch (now : Z) (parsed : option (list FeedEntry)) : option (list Item) :=
  match parsed with
  | None => None
  | Some entries => Some (flat_map (fetch_entry now) entries)
  end.

End Rss.

(* ------------------------------------------------------------------ *)
(** ** internal/analysis: [Result] and [ItemContext] *)

Module Analysis.

(** [analysis.Result] *)
Record Result := mkResult {
  Relevant : bool;
  Category : string;
  Reason : string;
  Tags : list string
}.

(** [analysis.ItemContext] *)
Record ItemContext := mkItemContext {
  ctx_Title : string;
  ctx_Link : string;
  ctx_PublishedAt : Z;
  ctx_Summary : string
}.

End Analysis.

(* ------------------------------------------------------------------ *)
(** ** internal/storage/mysql.go: the [news_analysis] table *)

Module Storage.

Import Rss Analysis.

(** One row of [news_analysis]: [id] is the AUTO_INCREMENT key, [guid]
    the UNIQUE key, [created_at] the first-seen time (DEFAULT
    CURRENT_TIMESTAMP, never named by an UPDATE) and [updated_at] the
    last-updated time. [tags] holds the list [json.Marshal] wrote. *)
Record Row := mkRow {
  id : Z;
  guid : string;
  title : string;
  link : string;
  published_at : Z;
  summary : string;
  relevant : bool;
  category : string;
  reason : string;
  tags : list string;
  created_at : Z;
  updated_at : Z
}.

(** The table, rows in insertion order, the next AUTO_INCREMENT value,
    and the collation of the [guid] column ([utf8mb4_unicode_ci], from
    the table's [COLLATE]): two guids are equal under it exactly when
    their sort keys [guid_key] are equal (the collation ignores case,
    accents and trailing spaces). *)
Record Store := mkStore {
  rows : list Row;
  next_id : Z;
  guid_key : string -> string
}.

(** The table [ensureSchema] creates, under a collation given by its
    sort key. *)
Definition empty_store (key : string -> string) : Store := mkStore [] 1 key.

(** The comparison [guid = ?] under the column's collation. *)
Definition has_guid (key : string -> string) (g : string) (r : Row) : bool :=
  String.eqb (key (guid r)) (key g).

(** [SELECT 1 FROM news_analysis WHERE guid = ? LIMIT 1] *)
Definition row_exists (st : Store) (g : string) : bool :=
  existsb (has_guid (guid_key st) g) (rows st).

(** [Exists]: [err] is whether the query itself fails; [None] is the
    returned error. *)
Definition Exists (err : bool) (st : Store) (g : string) : option bool :=
  if err then None else Some (row_exists st g).

(** The [ON DUPLICATE KEY UPDATE] branch: every listed column is
    replaced, [updated_at=CURRENT_TIMESTAMP]; [id] and [created_at] keep
    their values. *)
Definition update_row (now : Z) (item : Item) (result : Result) (r : Row) : Row :=
  mkRow (id r) (guid r) (Title item) (Link item) (PublishedAt item)
        (Description item) (Relevant result) (Category result)
        (Reason result) (Tags result) (created_at r) now.

(** The plain [INSERT] branch. *)
Definition new_row (now : Z) (i : Z) (item : Item) (result : Result) : Row :=
  mkRow i (GUID item) (Title item) (Link item) (PublishedAt item)
        (Description item) (Relevant result) (Category result)
        (Reason result) (Tags result) now now.

(** [INSERT ... ON DUPLICATE KEY UPDATE ...] executed at time [now]. The
    UNIQUE key on [guid] detects the duplicate under the column's
    collation, and the row it finds is updated. InnoDB allocates the
    AUTO_INCREMENT value before it detects the duplicate, so the value is
    consumed on both paths. *)
Definition upsert (now : Z) (item : Item) (result : Result) (st : Store) : Store :=
  if row_exists st (GUID item)
  then mkStore (map (fun r => if has_guid (guid_key st) (GUID item) r
                              then update_row now item result r else r)
                    (rows st))
               (next_id st + 1) (guid_key st)
  else mkStore (rows st ++ [new_row now (next_id st) item result])
               (next_id st + 1) (guid_key st).

(** [SaveAnalysis]: [err] is whether [ExecContext] fails; a failed
    statement leaves the table unchanged. *)
Definition SaveAnalysis (err : bool) (now : Z) (item : Item) (result : Result)
    (st : Store) : option Store :=
  if err then None else Some (upsert now item result st).

(** [ORDER BY published_at DESC, id DESC]: [a] comes before [b]. *)
Definition row_before (a b : Row) : bool :=
  (published_at b <? published_at a) ||
  ((published_at a =? published_at b) && (id b <? id a)).

Fixpoint insert_row (r : Row) (l : list Row) : list Row :=
  match l with
  | [] => [r]
  | x :: l' => if row_before r x then r :: l else x :: insert_row r l'
  end.

Definition sort_rows (l : list Row) : list Row := fold_right insert_row [] l.

(** The query of [ListRelevant]:
    [SELECT ... WHERE relevant = 1 ORDER BY published_at DESC, id DESC LIMIT ?]. *)
Definition list_relevant_rows (limit : nat) (st : Store) : list Row :=
  firstn limit (sort_rows (filter relevant (rows st))).

(** [storage.StoredItem] *)
Record StoredItem := mkStoredItem {
  si_GUID : string;
  si_Title : string;
  si_Link : string;
  si_PublishedAt : Z;
  si_Category : string;
  si_Reason : string;
  si_Tags : list string;
  si_Relevant : bool
}.

(** The scan loop of [ListRelevant], one [StoredItem] per row. *)
Definition stored_of_row (r : Row) : StoredItem :=
  mkStoredItem (guid r) (title r) (link r) (published_at r) (category r)
               (reason r) (tags r) (relevant r).

(** [ListRelevant] ([err] is whether the query fails). *)
Definition ListRelevant (err : bool) (limit : nat) (st : Store) : option (list StoredItem) :=
  if err then None else Some (map stored_of_row (list_relevant_rows limit st)).

End Storage.

(* ------------------------------------------------------------------ *)
(** ** internal/service/service.go: [pollOnce], [Run], [itemsHandler] *)

Module Service.

Import Rss Analysis Storage.

(** What the collaborators do during one [pollOnce]:
    - [feed]: the outcome of parsing the feed (error = [None]);
    - [exists_err g]: whether [store.Exists] fails for [g];
    - [evaluate]: [analyzer.Evaluate] (error = [None]);
    - [save_err]: whether [store.SaveAnalysis] fails;
    - [now]: wall-clock time ([time.Now()] and [CURRENT_TIMESTAMP]). *)
Record Env := mkEnv {
  feed : option (list FeedEntry);
  exists_err : string -> bool;
  evaluate : ItemContext -> option Result;
  save_err : Item -> Result -> bool;
  now : Z
}.

(** The externally visible calls of a cycle, each tagged with the GUID of
    the item being processed. *)
Inductive Event :=
| EvExists (g : string) (out : option bool)
| EvEvaluate (g : string) (ctx : ItemContext) (out : option Result)
| EvSave (g : string) (res : Result) (ok : bool)
| EvNotify (g : string) (res : Result).

(** The [analysis.ItemContext] literal built in [pollOnce]. *)
Definition item_context (item : Item) : ItemContext :=
  mkItemContext (Title item) (Link item) (PublishedAt item) (Description item).

(** Body of the [for _, item := range items] loop of [pollOnce].
    [webhook] selects the revision: [true] for unnamed/part_000, which
    calls [notifyWebhook] after a successful save of a relevant result,
    [false] for internal/service/service.go, which has no such call.
    [notifyWebhook] only logs its failures, so the call is one event. *)
Definition process_item (webhook : bool) (env : Env) (st : Store) (item : Item)
    : Store * list Event :=
  let g := GUID item in
  match Exists (exists_err env g) st g with
  | None => (st, [EvExists g None])
  | Some true => (st, [EvExists g (Some true)])
  | Some false =>
      let ctx := item_context item in
      match evaluate env ctx with
      | None => (st, [EvExists g (Some false); EvEvaluate g ctx None])
      | Some result =>
          match SaveAnalysis (save_err env item result) (now env) item result st with
          | None =>
              (st, [EvExists g (Some false); EvEvaluate g ctx (Some result);
                    EvSave g result false])
          | Some st' =>
              (st', [EvExists g (Some false); EvEvaluate g ctx (Some result);
                     EvSave g result true] ++
                    (if webhook && Relevant result then [EvNotify g result] else []))
          end
      end
  end.

(** The loop over the fetched items, in the order returned. *)
Fixpoint process_items (webhook : bool) (env : Env) (st : Store) (items : list Item)
    : Store * list Event :=
  match items with
  | [] => (st, [])
  | item :: rest =>
      let (st1, ev1) := process_item webhook env st item in
      let (st2, ev2) := process_items webhook env st1 rest in
      (st2, ev1 ++ ev2)
  end.

(** [pollOnce]: a failed fetch is logged and the function returns. *)
Definition pollOnce (webhook : bool) (env : Env) (st : Store) : Store * list Event :=
  match Fetch (now env) (feed env) with
  | None => (st, [])
  | Some items => process_items webhook env st items
  end.

(** The polling part of [Run]: the initial [pollOnce], then one per tick;
    [ticks] lists the collaborators' behaviour at each of these calls. *)
Fixpoint run (webhook : bool) (st : Store) (ticks : list Env) : Store * list Event :=
  match ticks with
  | [] => (st, [])
  | env :: rest =>
      let (st1, ev1) := pollOnce webhook env st in
      let (st2, ev2) := run webhook st1 rest in
      (st2, ev1 ++ ev2)
  end.

(** [itemsHandler]: the JSON body [{"count": len(items), "items": items}]
    with [s.cfg.MaxItems] as the limit, or the 500 error. *)
Definition itemsHandler (list_err : bool) (maxItems : nat) (st : Store)
    : option (nat * list StoredItem) :=
  match ListRelevant list_err maxItems st with
  | None => None
  | Some items => Some (List.length items, items)
  end.

End Service.

(* ------------------------------------------------------------------ *)
(** ** Go's [unicode/utf8] on byte strings: [[]rune(s)] and [string(runes)] *)

Module Utf8.

(** A byte of a Go string as an integer, and back ([byte(x)]). *)
Definition byte_val (a : ascii) : Z := Z.of_nat (nat_of_ascii a).
Definition byte_of (z : Z) : ascii := ascii_of_nat (Z.to_nat z).

Definition string_of_bytes (l : list Z) : string :=
  fold_right (fun b s => String (byte_of b) s) EmptyString l.

Definition RuneError : Z := 65533.   (* U+FFFD *)
Definition MaxRune : Z := 1114111.   (* U+10FFFF *)
Definition surrogateMin : Z := 55296. (* 0xD800 *)
Definition surrogateMax : Z := 57343. (* 0xDFFF *)

(** The [first] table and [acceptRanges] of the utf8 package: how a
    leading byte is classified, with the size of the sequence it starts
    and the accepted range of the second byte. *)
Inductive Lead :=
| LAscii
| LInvalid
| LMulti (sz : nat) (lo hi : Z).

Definition first_class (b : Z) : Lead :=
  if b <? 128 then LAscii
  else if b <? 194 then LInvalid                 (* 0x80..0xC1 *)
  else if b <? 224 then LMulti 2 128 191         (* 0xC2..0xDF *)
  else if b =? 224 then LMulti 3 160 191         (* 0xE0 *)
  else if b <? 237 then LMulti 3 128 191         (* 0xE1..0xEC *)
  else if b =? 237 then LMulti 3 128 159         (* 0xED *)
  else if b <? 240 then LMulti 3 128 191         (* 0xEE..0xEF *)
  else if b =? 240 then LMulti 4 144 191         (* 0xF0 *)
  else if b <? 244 then LMulti 4 128 191         (* 0xF1..0xF3 *)
  else if b =? 244 then LMulti 4 128 143         (* 0xF4 *)
  else LInvalid.                                 (* 0xF5..0xFF *)

Definition is_cont (b : Z) : bool := (128 <=? b) && (b <=? 191).

(** [utf8.DecodeRuneInString]: the first rune and its width in bytes. *)
Definition decode_rune (s : string) : Z * nat :=
  match s with
  | EmptyString => (RuneError, O)
  | String c0 rest =>
      let s0 := byte_val c0 in
      match first_class s0 with
      | LAscii => (s0, 1%nat)
      | LInvalid => (RuneError, 1%nat)
      | LMulti sz lo hi =>
          if (String.length s <? sz)%nat then (RuneError, 1%nat) else
          match rest with
          | EmptyString => (RuneError, 1%nat)
          | String c1 rest1 =>
              let s1 := byte_val c1 in
              if (s1 <? lo) || (hi <? s1) then (RuneError, 1%nat)
              else if (sz <=? 2)%nat
              then (Z.lor (Z.shiftl (Z.land s0 31) 6) (Z.land s1 63), 2%nat)
              else
              match rest1 with
              | EmptyString => (RuneError, 1%nat)
              | String c2 rest2 =>
                  let s2 := byte_val c2 in
                  if negb (is_cont s2) then (RuneError, 1%nat)
                  else if (sz <=? 3)%nat
                  then (Z.lor (Z.lor (Z.shiftl (Z.land s0 15) 12)
                                     (Z.shiftl (Z.land s1 63) 6))
                              (Z.land s2 63), 3%nat)
                  else
                  match rest2 with
                  | EmptyString => (RuneError, 1%nat)
                  | String c3 _ =>
                      let s3 := byte_val c3 in
                      if negb (is_cont s3) then (RuneError, 1%nat)
                      else (Z.lor (Z.lor (Z.lor (Z.shiftl (Z.land s0 7) 18)
                                                (Z.shiftl (Z.land s1 63) 12))
                                         (Z.shiftl (Z.land s2 63) 6))
                                  (Z.land s3 63), 4%nat)
                  end
              end
          end
      end
  end.

Fixpoint runes_fuel (fuel : nat) (s : string) : list Z :=
  match fuel with
  | O => []
  | S fuel' =>
      match s with
      | EmptyString => []
      | String _ _ =>
          let (r, n) := decode_rune s in
          r :: runes_fuel fuel' (GoStrings.drop n s)
      end
  end.

(** [[]rune(s)] *)
Definition runes (s : string) : list Z := runes_fuel (String.length s) s.

(** [byte(x)] *)
Definition byte (x : Z) : Z := Z.land x 255.

Definition enc3 (r : Z) : list Z :=
  [Z.lor 224 (byte (Z.shiftr r 12));
   Z.lor 128 (Z.land (byte (Z.shiftr r 6)) 63);
   Z.lor 128 (Z.land (byte r) 63)].

(** [utf8.EncodeRune] (the runtime's [encoderune]); [u] is [uint32(r)]. *)
Definition encode_rune (r : Z) : list Z :=
  let u := if r <? 0 then r + 4294967296 else r in
  if u <=? 127 then [byte r]
  else if u <=? 2047 then
    [Z.lor 192 (byte (Z.shiftr r 6)); Z.lor 128 (Z.land (byte r) 63)]
  else if (MaxRune <? u) || ((surrogateMin <=? u) && (u <=? surrogateMax))
  then enc3 RuneError
  else if u <=? 65535 then enc3 r
  else
    [Z.lor 240 (byte (Z.shiftr r 18));
     Z.lor 128 (Z.land (byte (Z.shiftr r 12)) 63);
     Z.lor 128 (Z.land (byte (Z.shiftr r 6)) 63);
     Z.lor 128 (Z.land (byte r) 63)].

(** [string(runes)] *)
Definition string_of_runes (rs : list Z) : string :=
  string_of_bytes (flat_map encode_rune rs).

(** A Unicode scalar value: what [DecodeRuneInString] can return. *)
Definition valid_rune (r : Z) : Prop :=
  0 <= r <= MaxRune /\ ~ (surrogateMin <= r <= surrogateMax).

End Utf8.

(* ------------------------------------------------------------------ *)
(** ** [strings.TrimSpace], [trimText] and [cleanupResponse] *)

Module AnalysisText.

Import GoStrings Utf8.

(** UTF-8 encodings of the runes for which [unicode.IsSpace] holds:
    '\t' '\n' '\v' '\f' '\r' ' ', U+0085, U+00A0, U+1680, U+2000..U+200A,
    U+2028, U+2029, U+202F, U+205F, U+3000. A rune decoded at either end
    of a string is a space exactly when the string starts (ends) with one
    of these byte sequences, so [strings.TrimSpace] (= [TrimFunc(s,
    unicode.IsSpace)]) strips them. *)
Definition space_encodings : list string :=
  map string_of_bytes
    ([[9]; [10]; [11]; [12]; [13]; [32]; [194; 133]; [194; 160];
      [225; 154; 128]] ++
     map (fun k => [226; 128; 128 + k]) [0; 1; 2; 3; 4; 5; 6; 7; 8; 9; 10] ++
     [[226; 128; 168]; [226; 128; 169]; [226; 128; 175]; [226; 129; 159];
      [227; 128; 128]]).

Fixpoint rev_str (s : string) : string :=
  match s with
  | EmptyString => EmptyString
  | String c rest => rev_str rest ++ String c EmptyString
  end.

Definition first_match (encs : list string) (s : string) : option string :=
  find (fun e => String.prefix e s) encs.

Fixpoint trim_left_fuel (encs : list string) (fuel : nat) (s : string) : string :=
  match fuel with
  | O => s
  | S fuel' =>
      match first_match encs s with
      | Some e => trim_left_fuel encs fuel' (drop (String.length e) s)
      | None => s
      end
  end.

(** [strings.TrimLeftFunc(s, unicode.IsSpace)] *)
Definition TrimLeftSpace (s : string) : string :=
  trim_left_fuel space_encodings (String.length s) s.

(** [strings.TrimRightFunc(s, unicode.IsSpace)] *)
Definition TrimRightSpace (s : string) : string :=
  rev_str (trim_left_fuel (map rev_str space_encodings) (String.length s) (rev_str s)).

(** [strings.TrimSpace] *)
Definition TrimSpace (s : string) : string := TrimRightSpace (TrimLeftSpace s).

(** [trimText] *)
Definition trimText (s : string) (max : nat) : string :=
  if (List.length (runes s) <=? max)%nat then s
  else
    let rs := runes (TrimSpace s) in
    if (List.length rs <=? max)%nat then string_of_runes rs
    else string_of_runes (firstn max rs).

(** The summary placed in the user prompt by [Evaluate]:
    [trimText(item.Summary, 800)]. *)
Definition prompt_summary (ctx : Analysis.ItemContext) : string :=
  trimText (Analysis.ctx_Summary ctx) 800.

Definition dq : string := String "034"%char EmptyString.
Definition nl : ascii := "010"%char.
Definition fence : string := "```".
Definition fence_json : string := "```json".

(** The Go literals ["\"category\": null"] and ["\"category\": \"\""]. *)
Definition category_null : string := dq ++ "category" ++ dq ++ ": null".
Definition category_empty : string := dq ++ "category" ++ dq ++ ": " ++ dq ++ dq.

(** [cleanupResponse] *)
Definition cleanupResponse (s : string) : string :=
  let c := TrimSpace s in
  let c :=
    if HasPrefix c fence then
      let c := match IndexByte c nl with
               | Some idx => drop (S idx) c
               | None => c
               end in
      let c := TrimPrefix c fence_json in
      let c := TrimPrefix c fence in
      let c := TrimSuffix c fence in
      TrimSpace c
    else c in
  ReplaceAll c category_null category_empty.

End AnalysisText.

(* ------------------------------------------------------------------ *)
(** ** internal/analysis (inside the two service files): [NewClient],
       [Ready], [Evaluate] *)

Module AnalysisClient.

Import Analysis AnalysisText.

(** [openai.DefaultConfig(apiKey).BaseURL] of go-openai. *)
Definition openaiAPIURLv1 : string := "https://api.openai.com/v1".

(** The [*openai.Client]: its API key and base URL. *)
Record OpenAIClient := mkOpenAIClient {
  oc_key : string;
  oc_base : string
}.

(** [analysis.Client]; [client = None] is the nil pointer. *)
Record Client := mkClient {
  client : option OpenAIClient;
  model : string;
  activated : bool
}.

(** [NewClient] (the logger is not modelled). *)
Definition NewClient (apiKey model baseURL : string) : Client :=
  let activated := negb (String.eqb apiKey "") in
  let cli := if activated
             then Some (mkOpenAIClient apiKey
                          (if negb (String.eqb baseURL "") then baseURL
                           else openaiAPIURLv1))
             else None in
  mkClient cli model activated.

(** [Ready] *)
Definition Ready (c : Client) : bool :=
  activated c && match client c with Some _ => true | None => false end.

(** [openai.ChatCompletionMessage] *)
Record Message := mkMessage { role : string; content : string }.

(** [openai.ChatCompletionRequest]; [Temperature: 0.2] is kept as
    thousandths. *)
Record ChatRequest := mkChatRequest {
  req_client : OpenAIClient;
  req_model : string;
  req_messages : list Message;
  req_temperature_milli : Z
}.

(** The errors [Evaluate] returns. *)
Inductive EvalError :=
| ErrDisabled          (* errDisabled *)
| ErrChat              (* the error of CreateChatCompletion *)
| ErrNoChoices         (* "no choices returned by OpenAI" *)
| ErrParse.            (* "parse openai response: ..." *)

Section Evaluate.

(** The system prompt of the revision; [time.Time.Format(time.RFC3339)]
    in the local zone; and [json.Unmarshal] into a [Result]. *)
Variable systemPrompt : string.
Variable formatRFC3339 : Z -> string.
Variable unmarshalResult : string -> option Result.

Local Open Scope string_scope.

(** The [fmt.Sprintf] of the user prompt. *)
Definition userPrompt (item : ItemContext) : string :=
  "标题: " ++ ctx_Title item ++ String nl
  ("链接: " ++ ctx_Link item ++ String nl
  ("发布时间: " ++ formatRFC3339 (ctx_PublishedAt item) ++ String nl
  ("摘要: " ++ trimText (ctx_Summary item) 800 ++ String nl
  "请输出JSON。"))).

(** [Evaluate]: the chat requests sent, and the result or the error.
    [chat] is [CreateChatCompletion]: the contents of the returned
    choices, or [None] for its error. *)
Definition Evaluate (chat : ChatRequest -> option (list string)) (c : Client)
    (item : ItemContext) : list ChatRequest * (Result + EvalError) :=
  if negb (Ready c) then ([], inr ErrDisabled)
  else
    match client c with
    | None => ([], inr ErrDisabled)
    | Some cli =>
        let req := mkChatRequest cli (model c)
                     [mkMessage "system" systemPrompt; mkMessage "user" (userPrompt item)]
                     200 in
        match chat req with
        | None => ([req], inr ErrChat)
        | Some [] => ([req], inr ErrNoChoices)
        | Some (first :: _) =>
            match unmarshalResult (cleanupResponse first) with
            | None => ([req], inr ErrParse)
            | Some out => ([req], inl out)
            end
        end
    end.

End Evaluate.

(** The analyzer as [pollOnce] sees it: [Evaluate]'s result or error. *)
Definition evaluator (systemPrompt : string) (formatRFC3339 : Z -> string)
    (unmarshalResult : string -> option Result)
    (chat : ChatRequest -> option (list string)) (c : Client)
    (item : ItemContext) : option Result :=
  match snd (Evaluate systemPrompt formatRFC3339 unmarshalResult chat c item) with
  | inl r => Some r
  | inr _ => None
  end.

End AnalysisClient.

(* ------------------------------------------------------------------ *)
(** ** internal/config (inside internal/service/service.go): [Load] *)

Module Config.

Local Open Scope string_scope.

(** Go's [int] is 64 bits wide on the amd64 target of the Dockerfile. *)
Definition two63 : Z := 2 ^ 63.
Definition maxUint64 : Z := 2 ^ 64 - 1.

(** Two's-complement wrap-around of an [int64] result. *)
Definition wrap64 (z : Z) : Z := (z + two63) mod (2 ^ 64) - two63.

Definition byte_at (c : ascii) : Z := Z.of_nat (nat_of_ascii c).

(** The loop of the fast path of [strconv.Atoi]:
    [ch -= '0'; if ch > 9 {error}; n = n*10 + int(ch)], where [ch] is a
    [byte], so the subtraction wraps modulo 256. *)
Fixpoint atoi_fast_loop (n : Z) (s : string) : option Z :=
  match s with
  | EmptyString => Some n
  | String c rest =>
      let ch := (byte_at c - 48) mod 256 in
      if (9 <? ch)%Z then None else atoi_fast_loop (n * 10 + ch) rest
  end.

(** The loop of [strconv.ParseUint(s, 10, 64)]: a byte outside ['0'..'9']
    is a syntax error (underscores are only accepted with base 0), and
    [cutoff = maxUint64/10 + 1] guards the multiplication. *)
Fixpoint parse_uint_loop (n : Z) (s : string) : option Z :=
  match s with
  | EmptyString => Some n
  | String c rest =>
      let b := byte_at c in
      if (48 <=? b)%Z && (b <=? 57)%Z then
        let d := b - 48 in
        if (maxUint64 / 10 + 1 <=? n)%Z then None
        else
          let n1 := n * 10 + d in
          if (maxUint64 <? n1)%Z then None else parse_uint_loop n1 rest
      else None
  end.

(** [strconv.ParseUint(s, 10, 64)] *)
Definition ParseUint (s : string) : option Z :=
  match s with
  | EmptyString => None
  | _ => parse_uint_loop 0 s
  end.

(** [strconv.ParseInt(s, 10, 0)] with [IntSize = 64]. *)
Definition ParseInt (s : string) : option Z :=
  match s with
  | EmptyString => None
  | String c rest =>
      let '(neg, u) :=
        if Ascii.eqb c "+" then (false, rest)
        else if Ascii.eqb c "-" then (true, rest)
        else (false, s) in
      match ParseUint u with
      | None => None
      | Some un =>
          if negb neg && (two63 <=? un)%Z then None
          else if neg && (two63 <? un)%Z then None
          else Some (if neg then - un else un)
      end
  end.

(** [strconv.Atoi]: the fast path for [0 < len(s) < 19], else [ParseInt]. *)
Definition Atoi (s : string) : option Z :=
  let sLen := String.length s in
  if (0 <? sLen)%nat && (sLen <? 19)%nat then
    match s with
    | EmptyString => None
    | String c0 rest =>
        let body := if Ascii.eqb c0 "-" || Ascii.eqb c0 "+" then rest else s in
        if (String.length body <? 1)%nat then None
        else
          match atoi_fast_loop 0 body with
          | None => None
          | Some n => Some (if Ascii.eqb c0 "-" then - n else n)
          end
    end
  else ParseInt s.

(** The process environment as [os.Getenv] sees it: an unset variable
    reads as the empty string. *)
Definition Environ := string -> string.

(** [time.Minute] in nanoseconds. *)
Definition Minute : Z := 60000000000.

Definition stringWithDefault (getenv : Environ) (key fallback : string) : string :=
  let v := getenv key in
  if negb (String.eqb v "") then v else fallback.

(** [durationFromMinutes]: the log line is not modelled. *)
Definition durationFromMinutes (getenv : Environ) (key : string) (fallback : Z) : Z :=
  let v := getenv key in
  let dflt := wrap64 (fallback * Minute) in
  if negb (String.eqb v "") then
    match Atoi v with
    | Some minutes => if (0 <? minutes)%Z then wrap64 (minutes * Minute) else dflt
    | None => dflt
    end
  else dflt.

Definition intWithDefault (getenv : Environ) (key : string) (fallback : Z) : Z :=
  let v := getenv key in
  if negb (String.eqb v "") then
    match Atoi v with
    | Some parsed => if (0 <? parsed)%Z then parsed else fallback
    | None => fallback
    end
  else fallback.

Definition defaultFeedURL := "https://www.techflowpost.com/rss.aspx".
Definition defaultPollMinutes : Z := 15.
Definition defaultBindAddr := ":8082".
Definition defaultOpenAIModel := "gpt-4o".
Definition defaultOpenAIBase := "https://aigateway.hrlyit.com/v1".
Definition defaultMaxItemStore : Z := 50.
Definition defaultDBHost := "mysql01.dev.lls.com".
Definition defaultDBPort : Z := 4120.
Definition defaultDBUser := "root".
Definition defaultDBPass := "123456".
Definition defaultDBName := "aiweb3news".

(** [config.Config]; [PollInterval] is a [time.Duration] in nanoseconds. *)
Record Config := mkConfig {
  FeedURL : string;
  PollInterval : Z;
  BindAddr : string;
  OpenAIKey : string;
  OpenAIModel : string;
  OpenAIBase : string;
  MaxItems : Z;
  DBHost : string;
  DBPort : Z;
  DBUser : string;
  DBPass : string;
  DBName : string
}.

(** [config.Load] *)
Definition Load (getenv : Environ) : Config :=
  mkConfig
    (stringWithDefault getenv "FEED_URL" defaultFeedURL)
    (durationFromMinutes getenv "POLL_INTERVAL_MINUTES" defaultPollMinutes)
    (stringWithDefault getenv "BIND_ADDR" defaultBindAddr)
    (getenv "OPENAI_API_KEY")
    (stringWithDefault getenv "OPENAI_MODEL" defaultOpenAIModel)
    (stringWithDefault getenv "OPENAI_BASE_URL" defaultOpenAIBase)
    (intWithDefault getenv "MAX_ITEMS" defaultMaxItemStore)
    (stringWithDefault getenv "DB_HOST" defaultDBHost)
    (intWithDefault getenv "DB_PORT" defaultDBPort)
    (stringWithDefault getenv "DB_USER" defaultDBUser)
    (stringWithDefault getenv "DB_PASSWORD" defaultDBPass)
    (stringWithDefault getenv "DB_NAME" defaultDBName).

(** The decimal digits of a non-negative [n], as [strconv.Itoa] writes
    them ([fuel] bounds the number of digits). *)
Fixpoint itoa_fuel (fuel : nat) (n : Z) (acc : string) : string :=
  match fuel with
  | O => acc
  | S f =>
      let acc' := String (ascii_of_nat (Z.to_nat (48 + n mod 10))) acc in
      if (n <? 10)%Z then acc' else itoa_fuel f (n / 10) acc'
  end.

(** [log2 n + 1] steps suffice: [n < 2^(log2 n + 1) <= 10^(log2 n + 1)]. *)
Definition itoa (n : Z) : string := itoa_fuel (S (Z.to_nat (Z.log2 n))) n "".

End Config.

(* ------------------------------------------------------------------ *)
(** ** encoding/json on the [tags] column (Go 1.23): [json.Marshal] of a
    [[]string] in [SaveAnalysis], [json.Unmarshal] into a [[]string] in
    [ListRelevant] *)

Module Json.

Import GoStrings Utf8.
Local Open Scope string_scope.

Definition bslash : ascii := "092"%char.
Definition dqc : ascii := "034"%char.

(** [hex = "0123456789abcdef"] of encode.go. *)
Definition hex : string := "0123456789abcdef".

Definition hex_digit (z : Z) : ascii :=
  match String.get (Z.to_nat z) hex with
  | Some c => c
  | None => "0"%char
  end.

(** [htmlSafeSet[b]] for an ASCII byte [b]: printable, and neither the
    double quote, the backslash, [<], [>] nor [&]. *)
Definition htmlSafe (b : Z) : bool :=
  (32 <=? b)%Z &&
  negb ((b =? 34)%Z || (b =? 92)%Z || (b =? 60)%Z || (b =? 62)%Z || (b =? 38)%Z).

(** The [switch b] of [appendString] for an ASCII byte that is not
    HTML-safe. *)
Definition escape_ascii (b : Z) (c : ascii) : string :=
  if (b =? 92)%Z || (b =? 34)%Z then String bslash (String c "")
  else if (b =? 8)%Z then String bslash "b"
  else if (b =? 12)%Z then String bslash "f"
  else if (b =? 10)%Z then String bslash "n"
  else if (b =? 13)%Z then String bslash "r"
  else if (b =? 9)%Z then String bslash "t"
  else String bslash
         ("u00" ++ String (hex_digit (Z.shiftr b 4))
                     (String (hex_digit (Z.land b 15)) "")).

(** The loop of [appendString(dst, src, escapeHTML = true)], emitting
    the pending run [src[start:i]] byte by byte; [fuel] bounds the loop
    by the length. A non-ASCII byte starts the rune decoded from at most
    [utf8.UTFMax] bytes. *)
Fixpoint quote_fuel (fuel : nat) (s : string) : string :=
  match fuel with
  | O => ""
  | S f =>
      match s with
      | EmptyString => ""
      | String c rest =>
          let b := byte_val c in
          if (b <? 128)%Z then
            (if htmlSafe b then String c "" else escape_ascii b c) ++ quote_fuel f rest
          else
            let (r, size) := decode_rune (take 4 s) in
            if (r =? RuneError)%Z && (size =? 1)%nat then
              String bslash "ufffd" ++ quote_fuel f (drop 1 s)
            else if (r =? 8232)%Z || (r =? 8233)%Z then
              String bslash ("u202" ++ String (hex_digit (Z.land r 15)) "")
                ++ quote_fuel f (drop size s)
            else take size s ++ quote_fuel f (drop size s)
      end
  end.

(** [appendString]: a JSON string literal. *)
Definition quote_string (s : string) : string :=
  String dqc (quote_fuel (String.length s) s ++ String dqc "").

(** [json.Marshal] of a [[]string]; [None] is the nil slice, which the
    slice encoder writes as [null]. *)
Definition marshal_strings (tags : option (list string)) : string :=
  match tags with
  | None => "null"
  | Some l => "[" ++ String.concat "," (map quote_string l) ++ "]"
  end.

(** JSON white space ([isSpace] of scanner.go). *)
Definition is_ws (c : ascii) : bool :=
  Ascii.eqb c " " || Ascii.eqb c "009"%char || Ascii.eqb c "010"%char ||
  Ascii.eqb c "013"%char.

Fixpoint skip_ws (s : string) : string :=
  match s with
  | String c rest => if is_ws c then skip_ws rest else s
  | EmptyString => EmptyString
  end.

Definition is_hex (c : ascii) : bool :=
  let b := byte_val c in
  ((48 <=? b) && (b <=? 57))%Z || ((97 <=? b) && (b <=? 102))%Z ||
  ((65 <=? b) && (b <=? 70))%Z.

Definition hex_val (c : ascii) : Z :=
  let b := byte_val c in
  if (b <=? 57)%Z then b - 48
  else if (b <=? 70)%Z then b - 65 + 10
  else b - 97 + 10.

(** The escapes [stateInStringEsc] accepts besides [u]. *)
Definition is_simple_esc (e : ascii) : bool :=
  Ascii.eqb e "b" || Ascii.eqb e "f" || Ascii.eqb e "n" || Ascii.eqb e "r" ||
  Ascii.eqb e "t" || Ascii.eqb e bslash || Ascii.eqb e "/" || Ascii.eqb e dqc.

(** The scanner inside a string literal ([stateInString],
    [stateInStringEsc], [stateInStringEscU]), after the opening quote:
    the literal's body and the input after its closing quote, or [None]
    for a syntax error. *)
Fixpoint scan_string (s : string) : option (string * string) :=
  match s with
  | EmptyString => None
  | String c rest =>
      if Ascii.eqb c dqc then Some ("", rest)
      else if Ascii.eqb c bslash then
        match rest with
        | EmptyString => None
        | String e rest1 =>
            if is_simple_esc e then
              option_map (fun '(b, t) => (String c (String e b), t)) (scan_string rest1)
            else if Ascii.eqb e "u" then
              match rest1 with
              | String h1 (String h2 (String h3 (String h4 rest2))) =>
                  if is_hex h1 && is_hex h2 && is_hex h3 && is_hex h4 then
                    option_map
                      (fun '(b, t) =>
                         (String c (String e (String h1 (String h2 (String h3 (String h4 b))))), t))
                      (scan_string rest2)
                  else None
              | _ => None
              end
            else None
        end
      else if (byte_val c <? 32)%Z then None
      else option_map (fun '(b, t) => (String c b, t)) (scan_string rest)
  end.

(** [getu4]: the value of a [\uXXXX] escape at the front of [s], or -1. *)
Definition getu4 (s : string) : Z :=
  match s with
  | String a (String u (String h1 (String h2 (String h3 (String h4 _))))) =>
      if Ascii.eqb a bslash && Ascii.eqb u "u" &&
         is_hex h1 && is_hex h2 && is_hex h3 && is_hex h4
      then ((hex_val h1 * 16 + hex_val h2) * 16 + hex_val h3) * 16 + hex_val h4
      else -1
  | _ => -1
  end.

(** [utf16.IsSurrogate] and [utf16.DecodeRune]. *)
Definition is_surrogate (r : Z) : bool := (55296 <=? r)%Z && (r <? 57344)%Z.

Definition decode_utf16 (r1 r2 : Z) : Z :=
  if (55296 <=? r1)%Z && (r1 <? 56320)%Z && (56320 <=? r2)%Z && (r2 <? 57344)%Z
  then Z.lor (Z.shiftl (r1 - 55296) 10) (r2 - 56320) + 65536
  else RuneError.

(** One turn of the rewriting loop of [unquoteBytes]: the bytes it
    writes and the input left, or [None] where it returns [ok = false]. *)
Definition unquote_step (s : string) : option (string * string) :=
  match s with
  | EmptyString => None
  | String c rest =>
      if Ascii.eqb c bslash then
        match rest with
        | EmptyString => None
        | String e rest1 =>
            if Ascii.eqb e dqc || Ascii.eqb e bslash || Ascii.eqb e "/" ||
               Ascii.eqb e "'" then Some (String e "", rest1)
            else if Ascii.eqb e "b" then Some (String "008"%char "", rest1)
            else if Ascii.eqb e "f" then Some (String "012"%char "", rest1)
            else if Ascii.eqb e "n" then Some (String "010"%char "", rest1)
            else if Ascii.eqb e "r" then Some (String "013"%char "", rest1)
            else if Ascii.eqb e "t" then Some (String "009"%char "", rest1)
            else if Ascii.eqb e "u" then
              let rr := getu4 s in
              if (rr <? 0)%Z then None
              else
                let after := drop 6 s in
                if is_surrogate rr then
                  let dec := decode_utf16 rr (getu4 after) in
                  if negb (dec =? RuneError)%Z
                  then Some (string_of_bytes (encode_rune dec), drop 6 after)
                  else Some (string_of_bytes (encode_rune RuneError), after)
                else Some (string_of_bytes (encode_rune rr), after)
            else None
        end
      else if Ascii.eqb c dqc || (byte_val c <? 32)%Z then None
      else if (byte_val c <? 128)%Z then Some (String c "", rest)
      else
        let (rr, size) := decode_rune s in
        Some (string_of_bytes (encode_rune rr), drop size s)
  end.

Fixpoint unquote_slow (fuel : nat) (s : string) : option string :=
  match fuel with
  | O => None
  | S f =>
      match s with
      | EmptyString => Some ""
      | String _ _ =>
          match unquote_step s with
          | None => None
          | Some (out, rest) => option_map (fun t => out ++ t) (unquote_slow f rest)
          end
      end
  end.

(** The first loop of [unquoteBytes]: the length of the prefix that
    needs no rewriting. *)
Fixpoint fast_len (fuel : nat) (s : string) : nat :=
  match fuel with
  | O => O
  | S f =>
      match s with
      | EmptyString => O
      | String c rest =>
          if Ascii.eqb c bslash || Ascii.eqb c dqc || (byte_val c <? 32)%Z then O
          else if (byte_val c <? 128)%Z then S (fast_len f rest)
          else
            let (rr, size) := decode_rune s in
            if (rr =? RuneError)%Z && (size =? 1)%nat then O
            else (size + fast_len f (drop size s))%nat
      end
  end.

(** [unquoteBytes] on the body of a string literal: the body itself when
    nothing needs rewriting, otherwise its clean prefix followed by the
    rewritten rest. *)
Definition unquote_body (s : string) : option string :=
  let r := fast_len (String.length s) s in
  if (r =? String.length s)%nat then Some s
  else option_map (fun t => take r s ++ t)
                  (unquote_slow (S (String.length s)) (drop r s)).

(** A JSON value decoded into a [string] element: a string literal, or
    [null], which leaves the element's zero value [""]; any other value is
    a syntax or type error. *)
Definition decode_elem (s : string) : option (string * string) :=
  match s with
  | EmptyString => None
  | String c rest =>
      if Ascii.eqb c dqc then
        match scan_string rest with
        | Some (body, after) =>
            match unquote_body body with
            | Some t => Some (t, after)
            | None => None
            end
        | None => None
        end
      else if String.prefix "null" s then Some ("", drop 4 s)
      else None
  end.

(** The elements of a non-empty array, up to and including its [']']. *)
Fixpoint decode_elems (fuel : nat) (s : string) : option (list string * string) :=
  match fuel with
  | O => None
  | S f =>
      match decode_elem (skip_ws s) with
      | None => None
      | Some (x, after) =>
          match skip_ws after with
          | String c rest =>
              if Ascii.eqb c "," then
                option_map (fun '(xs, t) => (x :: xs, t)) (decode_elems f rest)
              else if Ascii.eqb c "]" then Some ([x], rest)
              else None
          | EmptyString => None
          end
      end
  end.

(** [d.array] into a slice, after the ['[']; an empty array gives an
    empty, non-nil slice. *)
Definition decode_array (s : string) : option (list string * string) :=
  match skip_ws s with
  | String c rest =>
      if Ascii.eqb c "]" then Some ([], rest)
      else decode_elems (String.length s) s
  | EmptyString => None
  end.

(** [json.Unmarshal(data, &parsed)] with [parsed] a nil [[]string]:
    [Some p] is [parsed] after a successful call ([None] for the nil
    slice left by [null]), [None] the returned error. Only white space
    may follow the value ([stateEndTop]). *)
Definition unmarshal_strings (data : string) : option (option (list string)) :=
  match skip_ws data with
  | String c rest =>
      if Ascii.eqb c "[" then
        match decode_array rest with
        | Some (l, after) =>
            if String.eqb (skip_ws after) "" then Some (Some l) else None
        | None => None
        end
      else if String.prefix "null" (String c rest) then
        if String.eqb (skip_ws (drop 4 (String c rest))) "" then Some None else None
      else None
  | EmptyString => None
  end.

(** The [tags] column as [ListRelevant] reads it into [item.Tags]:
    [col] is the [sql.NullString] ([None] for SQL NULL); [item.Tags]
    keeps its zero value, nil, unless the column holds a non-empty text
    that [json.Unmarshal] accepts. *)
Definition read_tags (col : option string) : option (list string) :=
  match col with
  | Some s =>
      if String.eqb s "" then None
      else match unmarshal_strings s with
           | Some parsed => parsed
           | None => None
           end
  | None => None
  end.

(** [utf8.ValidString]: converting to runes and back changes nothing
    (an invalid byte would come back as the three bytes of U+FFFD). *)
Definition utf8_valid (s : string) : Prop := string_of_runes (runes s) = s.

(** ** [json.Unmarshal] into an [analysis.Result] *)

(** A JSON value as the decoder sees it after [checkValid]: numbers
    carry nothing (no field of [Result] accepts one), a string carries
    its text after [unquoteBytes]. *)
#[warnings="-register-all"]
Inductive JValue :=
| JNull
| JBool (b : bool)
| JNumber
| JString (t : string)
| JArray (vs : list JValue)
| JObject (ms : list (string * JValue)).

(** [maxNestingDepth] of scanner.go. *)
#[warnings="-abstract-large-number"]
Definition maxNestingDepth : nat := 10000.

Definition is_digit (c : ascii) : bool :=
  let b := byte_val c in ((48 <=? b) && (b <=? 57))%Z.

Fixpoint skip_digits (s : string) : string :=
  match s with
  | String c rest => if is_digit c then skip_digits rest else s
  | EmptyString => EmptyString
  end.

(** [state0] and [state1]: the integer part of a number, after its
    optional minus sign ([stateNeg]). *)
Definition scan_int (s : string) : option string :=
  match s with
  | String c rest =>
      if Ascii.eqb c "0" then Some rest
      else if is_digit c then Some (skip_digits rest)
      else None
  | EmptyString => None
  end.

(** [stateDot] and [stateDot0]: an optional fraction. *)
Definition scan_frac (s : string) : option string :=
  match s with
  | String c rest =>
      if Ascii.eqb c "." then
        match rest with
        | String d rest' => if is_digit d then Some (skip_digits rest') else None
        | EmptyString => None
        end
      else Some s
  | EmptyString => Some EmptyString
  end.

(** [stateE], [stateESign] and [stateE0]: an optional exponent. *)
Definition scan_exp (s : string) : option string :=
  match s with
  | String c rest =>
      if Ascii.eqb c "e" || Ascii.eqb c "E" then
        let rest := match rest with
                    | String d rest' =>
                        if Ascii.eqb d "+" || Ascii.eqb d "-" then rest' else rest
                    | EmptyString => rest
                    end in
        match rest with
        | String d rest' => if is_digit d then Some (skip_digits rest') else None
        | EmptyString => None
        end
      else Some s
  | EmptyString => Some EmptyString
  end.

(** A number literal: the input after it, or [None] for a syntax error. *)
Definition scan_number (s : string) : option string :=
  let s := match s with
           | String c rest => if Ascii.eqb c "-" then rest else s
           | EmptyString => s
           end in
  match scan_int s with
  | Some r => match scan_frac r with
              | Some r' => scan_exp r'
              | None => None
              end
  | None => None
  end.

(** A string literal after its opening quote: the scanner finds its end,
    [unquoteBytes] its text. *)
Definition scan_literal (s : string) : option (string * string) :=
  match scan_string s with
  | Some (body, after) =>
      match unquote_body body with
      | Some t => Some (t, after)
      | None => None
      end
  | None => None
  end.

(** The scanner of [checkValid] together with the tree the decoder walks:
    the value at the front of the input (after white space) and the input
    after it, or [None] for a syntax error. [depth] is the number of
    arrays and objects open around the value; opening one more than
    [maxNestingDepth] is the scanner's "exceeded max depth" error. After
    ['{'] a key or ['}'] may come, after a [','] inside an object only a
    key; after ['['] a value or [']'], after a [','] only a value. Each
    call takes one unit of [fuel]; [unmarshal_result] gives more than the
    calls the input can lead to, and a parse that succeeds with some fuel
    gives the same result with any larger fuel. *)
Fixpoint parse_value (fuel depth : nat) (s : string) {struct fuel}
  : option (JValue * string) :=
  match fuel with
  | O => None
  | S f =>
      match skip_ws s with
      | EmptyString => None
      | String c rest =>
          if Ascii.eqb c "{" then
            if (maxNestingDepth <? S depth)%nat then None
            else parse_object f (S depth) rest
          else if Ascii.eqb c "[" then
            if (maxNestingDepth <? S depth)%nat then None
            else parse_array f (S depth) rest
          else if Ascii.eqb c dqc then
            match scan_literal rest with
            | Some (t, after) => Some (JString t, after)
            | None => None
            end
          else if String.prefix "true" (String c rest) then
            Some (JBool true, drop 4 (String c rest))
          else if String.prefix "false" (String c rest) then
            Some (JBool false, drop 5 (String c rest))
          else if String.prefix "null" (String c rest) then
            Some (JNull, drop 4 (String c rest))
          else
            match scan_number (String c rest) with
            | Some after => Some (JNumber, after)
            | None => None
            end
      end
  end
with parse_array (fuel depth : nat) (s : string) {struct fuel}
  : option (JValue * string) :=
  match fuel with
  | O => None
  | S f =>
      match skip_ws s with
      | String c rest =>
          if Ascii.eqb c "]" then Some (JArray [], rest)
          else match parse_elems f depth s with
               | Some (vs, after) => Some (JArray vs, after)
               | None => None
               end
      | EmptyString => None
      end
  end
with parse_elems (fuel depth : nat) (s : string) {struct fuel}
  : option (list JValue * string) :=
  match fuel with
  | O => None
  | S f =>
      match parse_value f depth s with
      | None => None
      | Some (v, after) =>
          match skip_ws after with
          | String c rest =>
              if Ascii.eqb c "," then
                match parse_elems f depth rest with
                | Some (vs, t) => Some (v :: vs, t)
                | None => None
                end
              else if Ascii.eqb c "]" then Some ([v], rest)
              else None
          | EmptyString => None
          end
      end
  end
with parse_object (fuel depth : nat) (s : string) {struct fuel}
  : option (JValue * string) :=
  match fuel with
  | O => None
  | S f =>
      match skip_ws s with
      | String c rest =>
          if Ascii.eqb c "}" then Some (JObject [], rest)
          else match parse_members f depth s with
               | Some (ms, after) => Some (JObject ms, after)
               | None => None
               end
      | EmptyString => None
      end
  end
with parse_members (fuel depth : nat) (s : string) {struct fuel}
  : option (list (string * JValue) * string) :=
  match fuel with
  | O => None
  | S f =>
      match skip_ws s with
      | String c rest =>
          if Ascii.eqb c dqc then
            match scan_literal rest with
            | None => None
            | Some (k, after) =>
                match skip_ws after with
                | String c1 rest1 =>
                    if Ascii.eqb c1 ":" then
                      match parse_value f depth rest1 with
                      | None => None
                      | Some (v, after1) =>
                          match skip_ws after1 with
                          | String c2 rest2 =>
                              if Ascii.eqb c2 "," then
                                match parse_members f depth rest2 with
                                | Some (ms, t) => Some ((k, v) :: ms, t)
                                | None => None
                                end
                              else if Ascii.eqb c2 "}" then Some ([(k, v)], rest2)
                              else None
                          | EmptyString => None
                          end
                      end
                    else None
                | EmptyString => None
                end
            end
          else None
      | EmptyString => None
      end
  end.

(** The fields of [analysis.Result] with their JSON names. *)
Inductive Field := FRelevant | FCategory | FReason | FTags.

(** [unicode.ToUpper(unicode.ToLower(r))] as [foldName] applies it, on
    the runes for which the result is ASCII: the ASCII letters, U+017F
    (long s, to S), U+212A (Kelvin sign, to K), U+0130 and U+0131 (dotted
    and dotless I, to I). Every other rune is kept: its fold is not ASCII
    either, so it matches none of the (ASCII) folded field names, which
    is the only use of the fold here. *)
Definition fold_rune (r : Z) : Z :=
  if (97 <=? r)%Z && (r <=? 122)%Z then (r - 32)%Z
  else if (r =? 383)%Z then 83%Z
  else if (r =? 8490)%Z then 75%Z
  else if (r =? 304)%Z || (r =? 305)%Z then 73%Z
  else r.

(** [foldName], as the runes of its result. *)
Definition fold_name (key : string) : list Z := map fold_rune (runes key).

(** The field a key selects in [d.object]: the exact name first
    ([byExactName]), then the folded one ([byFoldedName]); [None]
    for an unknown key, whose value is skipped. *)
Definition field_of (key : string) : option Field :=
  if String.eqb key "relevant" then Some FRelevant
  else if String.eqb key "category" then Some FCategory
  else if String.eqb key "reason" then Some FReason
  else if String.eqb key "tags" then Some FTags
  else
    let k := fold_name key in
    if list_eq_dec Z.eq_dec k (runes "RELEVANT") then Some FRelevant
    else if list_eq_dec Z.eq_dec k (runes "CATEGORY") then Some FCategory
    else if list_eq_dec Z.eq_dec k (runes "REASON") then Some FReason
    else if list_eq_dec Z.eq_dec k (runes "TAGS") then Some FTags
    else None.

(** [out] while it is decoded. [Tags] is a slice: its length and its
    backing array ([tags_back]; cells past its end are zero, [""]). *)
Record DState := mkDState {
  d_relevant : bool;
  d_category : string;
  d_reason : string;
  d_tags_len : nat;
  d_tags_back : list string
}.

(** [var out Result]. *)
Definition zero_state : DState := mkDState false "" "" 0 [].

Definition cell (i : nat) (back : list string) : string := nth i back "".

(** The backing array with cell [i] set to [v]. *)
Definition set_cell (i : nat) (v : string) (back : list string) : list string :=
  firstn i (back ++ repeat "" i) ++ v :: skipn (S i) back.

(** The loop of [d.array] over a non-empty array into [[]string]:
    element [i] is decoded into cell [i] of the slice, which [SetLen]
    (and [Grow] when the capacity is reached, with zeroed new cells)
    makes part of the slice; a string literal sets the cell, [null]
    leaves it as it is (a [string] ignores [null]), any other value is
    a type error. *)
Fixpoint decode_tag_elems (i : nat) (vs : list JValue) (back : list string)
  : option (list string) :=
  match vs with
  | [] => Some back
  | JString t :: vs' => decode_tag_elems (S i) vs' (set_cell i t back)
  | JNull :: vs' => decode_tag_elems (S i) vs' (set_cell i (cell i back) back)
  | _ :: _ => None
  end.

(** A value decoded into [Tags]: [null] sets the nil slice, [[]] a new
    empty slice, a non-empty array of [n] elements leaves a slice of
    length [n] over the same backing array; anything else is a type
    error. *)
Definition decode_tags (v : JValue) (back : list string)
  : option (nat * list string) :=
  match v with
  | JNull => Some (O, [])
  | JArray [] => Some (O, [])
  | JArray vs =>
      match decode_tag_elems 0 vs back with
      | Some back' => Some (List.length vs, back')
      | None => None
      end
  | _ => None
  end.

(** [d.value] into one field of [out]. [null] leaves a [bool] or a
    [string] as it is ([literalStore] ignores it for them); a value of
    another JSON type is an [UnmarshalTypeError], which makes
    [json.Unmarshal] fail. *)
Definition decode_field (st : DState) (f : Field) (v : JValue) : option DState :=
  match f, v with
  | FRelevant, JBool b =>
      Some (mkDState b (d_category st) (d_reason st) (d_tags_len st) (d_tags_back st))
  | FCategory, JString t =>
      Some (mkDState (d_relevant st) t (d_reason st) (d_tags_len st) (d_tags_back st))
  | FReason, JString t =>
      Some (mkDState (d_relevant st) (d_category st) t (d_tags_len st) (d_tags_back st))
  | FTags, _ =>
      match decode_tags v (d_tags_back st) with
      | Some (n, back) =>
          Some (mkDState (d_relevant st) (d_category st) (d_reason st) n back)
      | None => None
      end
  | (FRelevant | FCategory | FReason), JNull => Some st
  | _, _ => None
  end.

(** The members of the object, in order: a later duplicate key decodes
    into the same field again. *)
Fixpoint decode_members (st : DState) (ms : list (string * JValue)) : option DState :=
  match ms with
  | [] => Some st
  | (k, v) :: ms' =>
      match field_of k with
      | None => decode_members st ms'
      | Some f =>
          match decode_field st f v with
          | Some st' => decode_members st' ms'
          | None => None
          end
      end
  end.

Definition result_of (st : DState) : Analysis.Result :=
  Analysis.mkResult (d_relevant st) (d_category st) (d_reason st)
    (firstn (d_tags_len st) (d_tags_back st ++ repeat "" (d_tags_len st))).

(** [d.value] into [out]: [null] leaves it zero, an object sets its
    fields, any other value is a type error. *)
Definition decode_result (v : JValue) : option Analysis.Result :=
  match v with
  | JNull => Some (result_of zero_state)
  | JObject ms =>
      match decode_members zero_state ms with
      | Some st => Some (result_of st)
      | None => None
      end
  | _ => None
  end.

(** [var out Result; json.Unmarshal([]byte(content), &out)]: [Some out]
    when it returns nil, [None] for its error. [checkValid] accepts one
    value followed by white space only; then the value is decoded. *)
Definition unmarshal_result (data : string) : option Analysis.Result :=
  match parse_value (S (3 * String.length data)) 0 data with
  | Some (v, rest) =>
      if String.eqb (skip_ws rest) "" then decode_result v else None
  | None => None
  end.

End Json.

(* ------------------------------------------------------------------ *)
(** ** Concrete feeds, collaborators and tables used as examples *)

Module Examples.

Import Rss Analysis Storage Service.
Local Open Scope string_scope.

Definition entry_a : FeedEntry :=
  mkFeedEntry "https://example.org/newsletter/a" "A"
              "https://example.org/newsletter/a" (Some 100%Z) "first".

(** No GUID: [pickGUID] falls back to the link. *)
Definition entry_b : FeedEntry :=
  mkFeedEntry "" "B" "https://example.org/newsletter/b" None "second".

(** Not a newsletter: dropped by [Fetch]. *)
Definition entry_c : FeedEntry :=
  mkFeedEntry "c-guid" "C" "https://example.org/blog/c" None "third".

Definition verdict : Result := mkResult true "defi" "on topic" ["eth"].

Definition env_with (evaluate : ItemContext -> option Result)
    (save_err : Item -> Result -> bool) : Env :=
  mkEnv (Some [entry_a; entry_b; entry_c]) (fun _ => false) evaluate save_err 1000.

(** Every call succeeds. *)
Definition env_ok : Env := env_with (fun _ => Some verdict) (fun _ _ => false).

(** Every [SaveAnalysis] fails. *)
Definition env_save_fails : Env := env_with (fun _ => Some verdict) (fun _ _ => true).

(** [Evaluate] fails for the item titled [B]. *)
Definition env_flaky : Env :=
  env_with (fun ctx => if String.eqb (ctx_Title ctx) "B" then None else Some verdict)
           (fun _ _ => false).

(** The feed cannot be fetched. *)
Definition env_down : Env :=
  mkEnv None (fun _ => false) (fun _ => Some verdict) (fun _ _ => false) 1000.

Definition item_a : Item :=
  mkItem "https://example.org/newsletter/a" "A" "https://example.org/newsletter/a" 100 "first".
Definition item_b : Item :=
  mkItem "https://example.org/newsletter/b" "B" "https://example.org/newsletter/b" 1000 "second".
Definition item_d : Item :=
  mkItem "https://example.org/newsletter/d" "D" "https://example.org/newsletter/d" 500 "fourth".

(** A sort key for the examples' printable-ASCII guids, as
    [utf8mb4_unicode_ci] compares them: letters without case, trailing
    spaces ignored (PAD SPACE). *)
Definition lower_ascii (c : ascii) : ascii :=
  let n := Ascii.nat_of_ascii c in
  if (65 <=? n)%nat && (n <=? 90)%nat then Ascii.ascii_of_nat (n + 32) else c.

Fixpoint ci_key (s : string) : string :=
  match s with
  | EmptyString => EmptyString
  | String c rest =>
      let k := ci_key rest in
      if Ascii.eqb c " " && String.eqb k "" then "" else String (lower_ascii c) k
  end.

(** The empty table of the examples. *)
Definition table0 : Store := empty_store ci_key.

(** The table after [item_a] was saved, then after [item_b] was saved. *)
Definition store_a : Store := upsert 1000 item_a verdict table0.
Definition store_ab : Store := upsert 2000 item_b verdict store_a.

(** Every byte of [s] satisfies [p]. *)
Fixpoint str_forallb (p : ascii -> bool) (s : string) : bool :=
  match s with
  | EmptyString => true
  | String c rest => p c && str_forallb p rest
  end.

(** A verdict written by the model as the system prompt asks: the
    members [relevant], [category], [reason] and [tags] in this order,
    the white space [w] before each key, [sp] after the colons of the
    other members, [w'] before the closing brace. [cat] is the whole
    category member, for instance ["category": null]. *)
Definition verdict_json (w sp w' cat : string) (b : bool) (reason : string)
    (tags : list string) : string :=
  "{" ++ w ++ AnalysisText.dq ++ "relevant" ++ AnalysisText.dq ++ ":" ++ sp ++
  (if b then "true" else "false") ++ "," ++
  w ++ cat ++ "," ++
  w ++ AnalysisText.dq ++ "reason" ++ AnalysisText.dq ++ ":" ++ sp ++
  Json.quote_string reason ++ "," ++
  w ++ AnalysisText.dq ++ "tags" ++ AnalysisText.dq ++ ":" ++ sp ++
  Json.marshal_strings (Some tags) ++ w' ++ "}".

End Examples.

(* ------------------------------------------------------------------ *)
(** ** Observations on runs *)

Module Observe.

Import Rss Analysis Storage Service.

(** The GUID an event is about. *)
Definition event_guid (ev : Event) : string :=
  match ev with
  | EvExists g _ | EvEvaluate g _ _ | EvSave g _ _ | EvNotify g _ => g
  end.

Definition is_notify_of (g : string) (ev : Event) : bool :=
  match ev with
  | EvNotify g' _ => String.eqb g g'
  | _ => false
  end.

Definition is_relevant_save_of (g : string) (ev : Event) : bool :=
  match ev with
  | EvSave g' r true => String.eqb g g' && Relevant r
  | _ => false
  end.

(** Number of [notifyWebhook] calls for [g]. *)
Definition count_notify (g : string) (evs : list Event) : nat :=
  List.length (filter (is_notify_of g) evs).

(** Number of successful [SaveAnalysis] calls for [g] with [Relevant = true]. *)
Definition count_relevant_saves (g : string) (evs : list Event) : nat :=
  List.length (filter (is_relevant_save_of g) evs).

(** A step of an item's processing that returned an error. *)
Definition is_failure (ev : Event) : bool :=
  match ev with
  | EvExists _ None | EvEvaluate _ _ None | EvSave _ _ false => true
  | _ => false
  end.

Definition failed (evs : list Event) : bool := existsb is_failure evs.

(** Tables the program can produce: the empty table after [ensureSchema],
    then any sequence of successful [SaveAnalysis] statements. *)
Inductive reachable : Store -> Prop :=
| reach_empty : forall key, reachable (empty_store key)
| reach_upsert : forall now item result st,
    reachable st -> reachable (upsert now item result st).

(** Row [a] was inserted after row [b]: it sits later in the table. *)
Definition inserted_after (st : Store) (a b : Row) : Prop :=
  exists i j, nth_error (rows st) i = Some b /\ nth_error (rows st) j = Some a /\
              (i < j)%nat.

(** The order [ListRelevant] promises: newer [published_at] first, and
    among equal ones the later inserted first. *)
Definition listed_before (st : Store) (a b : Row) : Prop :=
  published_at b < published_at a \/
  (published_at a = published_at b /\ inserted_after st a b).

End Observe.

(* ================================================================== *)
(** * Proofs: the polling pipeline *)

Module PipelineProofs.

Import Rss Analysis Storage Service Observe.

Lemma process_items_app : forall webhook env st l1 l2,
  process_items webhook env st (l1 ++ l2) =
  let (s1, e1) := process_items webhook env st l1 in
  let (s2, e2) := process_items webhook env s1 l2 in
  (s2, e1 ++ e2).
Proof.
  intros webhook env st l1; revert st.
  induction l1 as [|x l1 IH]; intros st l2; simpl.
  - destruct (process_items webhook env st l2); reflexivity.
  - destruct (process_item webhook env st x) as [s1 e1].
    rewrite IH.
    destruct (process_items webhook env s1 l1) as [s2 e2].
    destruct (process_items webhook env s2 l2) as [s3 e3].
    rewrite app_assoc; reflexivity.
Qed.

Lemma process_item_existing : forall webhook env st item,
  row_exists st (GUID item) = true ->
  exists out, process_item webhook env st item = (st, [EvExists (GUID item) out]).
Proof.
  intros webhook env st item H.
  unfold process_item, Exists. rewrite H.
  destruct (exists_err env (GUID item)); eauto.
Qed.

Lemma process_item_failed_store : forall webhook env st item,
  failed (snd (process_item webhook env st item)) = true ->
  fst (process_item webhook env st item) = st.
Proof.
  intros webhook env st item.
  unfold process_item, Exists, SaveAnalysis.
  destruct (exists_err env (GUID item)); [reflexivity|].
  destruct (row_exists st (GUID item)); [reflexivity|].
  destruct (evaluate env (item_context item)) as [r|]; [|reflexivity].
  destruct (save_err env item r); [reflexivity|].
  destruct (webhook && Relevant r); simpl; discriminate.
Qed.

(** An item whose processing records a failure stops at that step: the
    failed call is its last one. *)
Lemma process_item_failed_stops : forall webhook env st item,
  let g := GUID item in
  let ctx := item_context item in
  let ek := snd (process_item webhook env st item) in
  failed ek = true ->
  ek = [EvExists g None] \/
  ek = [EvExists g (Some false); EvEvaluate g ctx None] \/
  (exists r, ek = [EvExists g (Some false); EvEvaluate g ctx (Some r); EvSave g r false]).
Proof.
  intros webhook env st item g ctx ek. unfold ek, g, ctx.
  unfold process_item, Exists, SaveAnalysis.
  destruct (exists_err env (GUID item)); [left; reflexivity|].
  destruct (row_exists st (GUID item)); [discriminate|].
  destruct (evaluate env (item_context item)) as [r|]; [|right; left; reflexivity].
  destruct (save_err env item r); [right; right; exists r; reflexivity|].
  destruct (webhook && Relevant r); simpl; discriminate.
Qed.

Lemma process_item_notify : forall webhook env st item g,
  (forall r, In (EvNotify g r) (snd (process_item webhook env st item)) ->
             Relevant r = true) /\
  (count_notify g (snd (process_item webhook env st item)) <=
   count_relevant_saves g (snd (process_item webhook env st item)))%nat.
Proof.
  intros webhook env st item g.
  unfold process_item, Exists, SaveAnalysis, count_notify, count_relevant_saves.
  destruct (exists_err env (GUID item)).
  { simpl; split; [intros r [H|[]]; discriminate | lia]. }
  destruct (row_exists st (GUID item)).
  { simpl; split; [intros r [H|[]]; discriminate | lia]. }
  destruct (evaluate env (item_context item)) as [r|].
  2:{ simpl; split; [intros r [H|[H|[]]]; discriminate | lia]. }
  destruct (save_err env item r).
  { simpl; split; [intros r' [H|[H|[H|[]]]]; discriminate | lia]. }
  destruct webhook, (Relevant r) eqn:Hr; simpl;
    (split; [intros r' Hin; repeat destruct Hin as [Hin|Hin];
             try discriminate; try contradiction;
             inversion Hin; subst; exact Hr | ]);
    simpl; rewrite ?Hr, ?andb_true_r, ?andb_false_r;
    destruct (String.eqb g (GUID item)); simpl; lia.
Qed.

Lemma notify_props_app : forall g e1 e2,
  ((forall r, In (EvNotify g r) e1 -> Relevant r = true) /\
   (count_notify g e1 <= count_relevant_saves g e1)%nat) ->
  ((forall r, In (EvNotify g r) e2 -> Relevant r = true) /\
   (count_notify g e2 <= count_relevant_saves g e2)%nat) ->
  (forall r, In (EvNotify g r) (e1 ++ e2) -> Relevant r = true) /\
  (count_notify g (e1 ++ e2) <= count_relevant_saves g (e1 ++ e2))%nat.
Proof.
  intros g e1 e2 [H1 C1] [H2 C2]; split.
  - intros r Hin; apply in_app_or in Hin as [Hin|Hin]; eauto.
  - unfold count_notify, count_relevant_saves in *.
    rewrite !filter_app, !length_app; lia.
Qed.

Lemma process_items_notify : forall webhook env st items g,
  (forall r, In (EvNotify g r) (snd (process_items webhook env st items)) ->
             Relevant r = true) /\
  (count_notify g (snd (process_items webhook env st items)) <=
   count_relevant_saves g (snd (process_items webhook env st items)))%nat.
Proof.
  intros webhook env st items; revert st.
  induction items as [|x items IH]; intros st g; simpl.
  - split; [intros r []| unfold count_notify; simpl; lia].
  - pose proof (process_item_notify webhook env st x g) as Hx.
    destruct (process_item webhook env st x) as [s1 e1].
    specialize (IH s1 g).
    destruct (process_items webhook env s1 items) as [s2 e2].
    apply notify_props_app; assumption.
Qed.

Lemma pollOnce_notify : forall webhook env st g,
  (forall r, In (EvNotify g r) (snd (pollOnce webhook env st)) -> Relevant r = true) /\
  (count_notify g (snd (pollOnce webhook env st)) <=
   count_relevant_saves g (snd (pollOnce webhook env st)))%nat.
Proof.
  intros webhook env st g; unfold pollOnce.
  destruct (Fetch (now env) (feed env)) as [items|].
  - apply process_items_notify.
  - simpl; split; [intros r []| unfold count_notify; simpl; lia].
Qed.

(** C1. An item whose GUID is already in the table when its turn in the
    cycle comes is only looked up: the cycle makes no [Evaluate],
    [SaveAnalysis] or webhook call for it, and the table (hence that row
    and its [created_at]) is the same before and after it. *)
Theorem pollOnce_skips_existing : forall webhook env st pre item post st1 e1 st2 e2,
  Fetch (now env) (feed env) = Some (pre ++ item :: post) ->
  process_items webhook env st pre = (st1, e1) ->
  row_exists st1 (GUID item) = true ->
  process_items webhook env st1 post = (st2, e2) ->
  exists out,
    process_item webhook env st1 item = (st1, [EvExists (GUID item) out]) /\
    pollOnce webhook env st = (st2, e1 ++ EvExists (GUID item) out :: e2).
Proof.
  intros webhook env st pre item post st1 e1 st2 e2 Hf Hpre Hex Hpost.
  destruct (process_item_existing webhook env st1 item Hex) as [out Hout].
  exists out; split; [exact Hout|].
  unfold pollOnce; rewrite Hf, process_items_app, Hpre; simpl.
  rewrite Hout, Hpost; reflexivity.
Qed.

(** C2. Over any sequence of cycles, in either revision of [pollOnce],
    every webhook call carries a result with [Relevant = true], and for
    every GUID the webhook calls are no more than the successful saves of
    that GUID with [Relevant = true]. *)
Theorem run_notify_at_most_once_per_relevant_save : forall webhook st ticks g,
  (forall r, In (EvNotify g r) (snd (run webhook st ticks)) -> Relevant r = true) /\
  (count_notify g (snd (run webhook st ticks)) <=
   count_relevant_saves g (snd (run webhook st ticks)))%nat.
Proof.
  intros webhook st ticks; revert st.
  induction ticks as [|env ticks IH]; intros st g; simpl.
  - split; [intros r []| unfold count_notify; simpl; lia].
  - pose proof (pollOnce_notify webhook env st g) as Hp.
    destruct (pollOnce webhook env st) as [s1 e1].
    specialize (IH s1 g).
    destruct (run webhook s1 ticks) as [s2 e2].
    apply notify_props_app; assumption.
Qed.

(** C3. When [SaveAnalysis] fails for an item, the processing of that
    item makes no webhook call. *)
Theorem save_failure_blocks_notify : forall webhook env st item r,
  In (EvSave (GUID item) r false) (snd (process_item webhook env st item)) ->
  forall g r', ~ In (EvNotify g r') (snd (process_item webhook env st item)).
Proof.
  intros webhook env st item r.
  unfold process_item, Exists, SaveAnalysis.
  destruct (exists_err env (GUID item)).
  { simpl; intros [H|[]]; discriminate. }
  destruct (row_exists st (GUID item)).
  { simpl; intros [H|[]]; discriminate. }
  destruct (evaluate env (item_context item)) as [res|].
  2:{ simpl; intros [H|[H|[]]]; discriminate. }
  destruct (save_err env item res).
  - simpl; intros _ g r' [H|[H|[H|[]]]]; discriminate.
  - intros Hin; exfalso.
    destruct (webhook && Relevant res); simpl in Hin;
      repeat destruct Hin as [Hin|Hin]; discriminate || contradiction.
Qed.

(** C4. Failures are isolated: when the existence check, the evaluation
    or the save of item [k] fails, [k]'s processing stops at the failing
    step (a failed [Exists] is its only call; a failed [Evaluate] is
    followed by no save; a failed [SaveAnalysis] is followed by no
    notification), [k] leaves the table as it was, and the cycle is
    exactly the cycle over the batch without [k] with [k]'s own calls
    inserted: every other item goes through all its steps as if [k] were
    absent. *)
Theorem failure_isolated : forall webhook env st pre k post st1 e1 stk ek st2 e2,
  process_items webhook env st pre = (st1, e1) ->
  process_item webhook env st1 k = (stk, ek) ->
  failed ek = true ->
  process_items webhook env st1 post = (st2, e2) ->
  stk = st1 /\
  (ek = [EvExists (GUID k) None] \/
   ek = [EvExists (GUID k) (Some false); EvEvaluate (GUID k) (item_context k) None] \/
   (exists r, ek = [EvExists (GUID k) (Some false);
                    EvEvaluate (GUID k) (item_context k) (Some r);
                    EvSave (GUID k) r false])) /\
  process_items webhook env st (pre ++ k :: post) = (st2, e1 ++ ek ++ e2) /\
  process_items webhook env st (pre ++ post) = (st2, e1 ++ e2).
Proof.
  intros webhook env st pre k post st1 e1 stk ek st2 e2 Hpre Hk Hf Hpost.
  assert (Hs : stk = st1).
  { pose proof (process_item_failed_store webhook env st1 k) as H.
    rewrite Hk in H; simpl in H; exact (H Hf). }
  assert (Hstop := process_item_failed_stops webhook env st1 k).
  rewrite Hk in Hstop; cbn [snd] in Hstop.
  subst stk.
  split; [reflexivity|]. split; [exact (Hstop Hf)|split].
  - rewrite process_items_app, Hpre; simpl. rewrite Hk, Hpost; reflexivity.
  - rewrite process_items_app, Hpre, Hpost; reflexivity.
Qed.

(** C5. A failed feed fetch makes a cycle with no call and no change to
    the table; the following tick runs a full cycle from the same table. *)
Theorem fetch_failure_no_effect : forall webhook env st rest,
  feed env = None ->
  pollOnce webhook env st = (st, []) /\
  run webhook st (env :: rest) = run webhook st rest.
Proof.
  intros webhook env st rest H.
  assert (Hp : pollOnce webhook env st = (st, [])).
  { unfold pollOnce, Fetch; rewrite H; reflexivity. }
  split; [exact Hp|].
  simpl; rewrite Hp; destruct (run webhook st rest); reflexivity.
Qed.

End PipelineProofs.

(* ================================================================== *)
(** * Proofs: [Fetch] and [pickGUID] *)

Module FetchProofs.

Import Rss Analysis Storage Service Observe.
Local Open Scope string_scope.

Lemma Contains_empty_marker : GoStrings.Contains "" newsletter_marker = false.
Proof. reflexivity. Qed.

Lemma fetch_entry_spec : forall now e it,
  In it (fetch_entry now e) ->
  GUID it = pickGUID e /\ Link it = e_Link e /\
  (GoStrings.Contains (GUID it) newsletter_marker = true \/
   GoStrings.Contains (Link it) newsletter_marker = true).
Proof.
  intros now e it. unfold fetch_entry.
  destruct (GoStrings.Contains (pickGUID e) newsletter_marker) eqn:H1;
  destruct (GoStrings.Contains (e_Link e) newsletter_marker) eqn:H2;
  simpl; intros Hin; try contradiction;
  destruct Hin as [Hin|[]]; subst it; simpl; auto.
Qed.

Lemma process_item_event_guid : forall webhook env st item ev,
  In ev (snd (process_item webhook env st item)) -> event_guid ev = GUID item.
Proof.
  intros webhook env st item ev.
  unfold process_item, Exists, SaveAnalysis.
  destruct (exists_err env (GUID item)).
  { simpl; intros [H|[]]; subst; reflexivity. }
  destruct (row_exists st (GUID item)).
  { simpl; intros [H|[]]; subst; reflexivity. }
  destruct (evaluate env (item_context item)) as [r|].
  2:{ simpl; intros Hin; repeat destruct Hin as [Hin|Hin]; subst; try reflexivity; contradiction. }
  destruct (save_err env item r).
  { simpl; intros Hin; repeat destruct Hin as [Hin|Hin]; subst; try reflexivity; contradiction. }
  destruct (webhook && Relevant r); simpl;
    intros Hin; repeat destruct Hin as [Hin|Hin]; subst; try reflexivity; contradiction.
Qed.

Lemma process_items_event_guid : forall webhook env st items ev,
  In ev (snd (process_items webhook env st items)) ->
  exists it, In it items /\ event_guid ev = GUID it.
Proof.
  intros webhook env st items; revert st.
  induction items as [|x items IH]; intros st ev; simpl.
  - intros [].
  - pose proof (process_item_event_guid webhook env st x) as Hx.
    destruct (process_item webhook env st x) as [s1 e1].
    specialize (IH s1).
    destruct (process_items webhook env s1 items) as [s2 e2].
    simpl; intros Hin; apply in_app_or in Hin as [Hin|Hin].
    + exists x; split; [left; reflexivity| exact (Hx ev Hin)].
    + destruct (IH ev Hin) as [it [Hi He]]; exists it; auto.
Qed.

(** C9. The GUID of an entry is its own GUID when non-empty, else its
    link when non-empty, else its title; an entry whose three fields are
    empty gives no item, and every item [Fetch] returns has the picked
    GUID, which is non-empty. *)
Theorem pickGUID_policy : forall now e,
  (e_GUID e <> "" -> pickGUID e = e_GUID e) /\
  (e_GUID e = "" -> e_Link e <> "" -> pickGUID e = e_Link e) /\
  (e_GUID e = "" -> e_Link e = "" -> pickGUID e = e_Title e) /\
  (e_GUID e = "" -> e_Link e = "" -> e_Title e = "" -> fetch_entry now e = []) /\
  (forall it, In it (fetch_entry now e) -> GUID it = pickGUID e /\ GUID it <> "").
Proof.
  intros now e.
  assert (Hpick : (e_GUID e <> "" -> pickGUID e = e_GUID e) /\
                  (e_GUID e = "" -> e_Link e <> "" -> pickGUID e = e_Link e) /\
                  (e_GUID e = "" -> e_Link e = "" -> pickGUID e = e_Title e)).
  { unfold pickGUID.
    destruct (String.eqb_spec (e_GUID e) "") as [Hg|Hg];
    destruct (String.eqb_spec (e_Link e) "") as [Hl|Hl]; simpl;
    repeat split; intros; congruence. }
  destruct Hpick as [P1 [P2 P3]].
  split; [exact P1|]. split; [exact P2|]. split; [exact P3|]. split.
  - intros Hg Hl Ht. unfold fetch_entry.
    rewrite (P3 Hg Hl), Ht, Hl. reflexivity.
  - intros it Hin; split; [apply fetch_entry_spec in Hin; tauto|].
    intros Hempty.
    destruct (fetch_entry_spec now e it Hin) as [Hg [Hl Hc]].
    rewrite Hempty in Hg.
    assert (HG : e_GUID e = "").
    { destruct (String.eqb_spec (e_GUID e) "") as [E|E]; [exact E|].
      rewrite (P1 E) in Hg; congruence. }
    assert (HL : e_Link e = "").
    { destruct (String.eqb_spec (e_Link e) "") as [E|E]; [exact E|].
      rewrite (P2 HG E) in Hg; congruence. }
    rewrite Hempty, Hl, HL in Hc. destruct Hc; discriminate.
Qed.

(** C10. Every item [Fetch] returns contains "/newsletter/" in its GUID
    or its link; an entry without it in both is dropped, and every call a
    cycle makes is about one of the returned items. *)
Theorem fetch_only_newsletter : forall env entries,
  feed env = Some entries ->
  Fetch (now env) (feed env) = Some (flat_map (fetch_entry (now env)) entries) /\
  (forall it, In it (flat_map (fetch_entry (now env)) entries) ->
     GoStrings.Contains (GUID it) newsletter_marker = true \/
     GoStrings.Contains (Link it) newsletter_marker = true) /\
  (forall e, GoStrings.Contains (pickGUID e) newsletter_marker = false ->
     GoStrings.Contains (e_Link e) newsletter_marker = false ->
     fetch_entry (now env) e = []) /\
  (forall webhook st ev, In ev (snd (pollOnce webhook env st)) ->
     exists it, In it (flat_map (fetch_entry (now env)) entries) /\
                event_guid ev = GUID it).
Proof.
  intros env entries Hfeed.
  assert (HF : Fetch (now env) (feed env) = Some (flat_map (fetch_entry (now env)) entries)).
  { unfold Fetch; rewrite Hfeed; reflexivity. }
  split; [exact HF|]. split; [|split].
  - intros it Hin. apply in_flat_map in Hin as [e [_ He]].
    apply fetch_entry_spec in He; tauto.
  - intros e H1 H2. unfold fetch_entry. rewrite H1, H2. reflexivity.
  - intros webhook st ev Hin. unfold pollOnce in Hin; rewrite HF in Hin.
    exact (process_items_event_guid _ _ _ _ _ Hin).
Qed.

End FetchProofs.

(* ================================================================== *)
(** * Proofs: [ListRelevant] and [/items] *)

Module StorageProofs.

Import Rss Analysis Storage Service Observe.

(** Ids grow along the table and stay below the next AUTO_INCREMENT value. *)
Definition ids_ok (st : Store) : Prop :=
  StronglySorted Z.lt (map id (rows st)) /\
  Forall (fun r => id r < next_id st) (rows st).

Lemma map_update_ids : forall key now item result l,
  map id (map (fun r => if has_guid key (GUID item) r
                        then update_row now item result r else r) l) = map id l.
Proof.
  intros key now item result l; induction l as [|x l IH]; simpl; [reflexivity|].
  rewrite IH; destruct (has_guid key (GUID item) x); reflexivity.
Qed.

Lemma Forall_map_update : forall key now item result (P : Z -> Prop) l,
  Forall (fun r => P (id r)) l ->
  Forall (fun r => P (id r))
    (map (fun r => if has_guid key (GUID item) r
                   then update_row now item result r else r) l).
Proof.
  intros key now item result P l H; induction H; simpl; constructor; auto.
  destruct (has_guid key (GUID item) x); assumption.
Qed.

Lemma StronglySorted_app_last : forall (l : list Z) z,
  StronglySorted Z.lt l -> Forall (fun x => x < z) l ->
  StronglySorted Z.lt (l ++ [z]).
Proof.
  induction l as [|x l IH]; intros z Hs Hf; simpl.
  - repeat constructor.
  - inversion Hs; subst; inversion Hf; subst.
    constructor; [apply IH; assumption|].
    apply Forall_app; split; [assumption| repeat constructor; assumption].
Qed.

Lemma upsert_ids_ok : forall now item result st,
  ids_ok st -> ids_ok (upsert now item result st).
Proof.
  intros now item result st [Hs Hf]. unfold upsert.
  destruct (row_exists st (GUID item)); unfold ids_ok; simpl.
  - rewrite map_update_ids; split; [assumption|].
    apply (Forall_map_update (guid_key st) now item result (fun i => i < next_id st + 1)).
    eapply Forall_impl; [|exact Hf]; simpl; intros; lia.
  - rewrite map_app; simpl; split.
    + apply StronglySorted_app_last; [assumption|].
      apply Forall_map; assumption.
    + apply Forall_app; split.
      * eapply Forall_impl; [|exact Hf]; simpl; intros; lia.
      * repeat constructor; simpl; lia.
Qed.

Lemma reachable_ids_ok : forall st, reachable st -> ids_ok st.
Proof.
  induction 1.
  - split; constructor.
  - apply upsert_ids_ok; assumption.
Qed.

(** Every table a sequence of cycles builds is reachable. *)
Lemma process_item_reachable : forall webhook env st item,
  reachable st -> reachable (fst (process_item webhook env st item)).
Proof.
  intros webhook env st item H.
  unfold process_item, Exists, SaveAnalysis.
  destruct (exists_err env (GUID item)); [exact H|].
  destruct (row_exists st (GUID item)); [exact H|].
  destruct (evaluate env (item_context item)) as [r|]; [|exact H].
  destruct (save_err env item r); [exact H|].
  apply reach_upsert; exact H.
Qed.

Lemma run_reachable : forall webhook st ticks,
  reachable st -> reachable (fst (run webhook st ticks)).
Proof.
  intros webhook st ticks; revert st.
  induction ticks as [|env ticks IH]; intros st H; simpl; [exact H|].
  assert (H1 : reachable (fst (pollOnce webhook env st))).
  { unfold pollOnce. destruct (Fetch (now env) (feed env)) as [items|]; [|exact H].
    clear IH. revert st H. induction items as [|x items IHi]; intros st H; simpl; [exact H|].
    pose proof (process_item_reachable webhook env st x H) as Hx.
    destruct (process_item webhook env st x) as [s1 e1].
    specialize (IHi s1 Hx).
    destruct (process_items webhook env s1 items) as [s2 e2]; exact IHi. }
  destruct (pollOnce webhook env st) as [s1 e1].
  specialize (IH s1 H1).
  destruct (run webhook s1 ticks) as [s2 e2]; exact IH.
Qed.

(** Sorting. *)
Definition before (a b : Row) : Prop := row_before a b = true.

Lemma row_before_total : forall a b,
  id a <> id b -> row_before a b = false -> row_before b a = true.
Proof.
  intros a b Hne. unfold row_before.
  destruct (Z.ltb_spec (published_at b) (published_at a));
  destruct (Z.ltb_spec (published_at a) (published_at b));
  destruct (Z.eqb_spec (published_at a) (published_at b));
  destruct (Z.eqb_spec (published_at b) (published_at a));
  destruct (Z.ltb_spec (id b) (id a));
  destruct (Z.ltb_spec (id a) (id b)); simpl; intros; try reflexivity; try discriminate; lia.
Qed.

Lemma insert_row_perm : forall r l, Permutation (insert_row r l) (r :: l).
Proof.
  intros r l; induction l as [|x l IH]; simpl; [reflexivity|].
  destruct (row_before r x); [reflexivity|].
  rewrite IH. apply perm_swap.
Qed.

Lemma sort_rows_perm : forall l, Permutation (sort_rows l) l.
Proof.
  induction l as [|x l IH]; simpl; [reflexivity|].
  rewrite insert_row_perm, IH; reflexivity.
Qed.

Lemma insert_row_hd : forall x r l,
  HdRel before x l -> before x r -> HdRel before x (insert_row r l).
Proof.
  intros x r l H Hr; destruct l as [|y l]; simpl.
  - constructor; assumption.
  - destruct (row_before r y); constructor; [assumption|inversion H; assumption].
Qed.

Lemma insert_row_sorted : forall r l,
  Sorted before l -> (forall y, In y l -> id y <> id r) ->
  Sorted before (insert_row r l).
Proof.
  intros r l; induction l as [|x l IH]; intros Hs Hne; simpl.
  - repeat constructor.
  - destruct (row_before r x) eqn:E.
    + constructor; [assumption| constructor; exact E].
    + inversion Hs; subst. constructor.
      * apply IH; [assumption| intros y Hy; apply Hne; right; exact Hy].
      * apply insert_row_hd; [assumption|].
        apply row_before_total; [|exact E].
        intro Heq; apply (Hne x); [left; reflexivity| symmetry; exact Heq].
Qed.

Lemma sort_rows_sorted : forall l, NoDup (map id l) -> Sorted before (sort_rows l).
Proof.
  induction l as [|x l IH]; intros Hnd; simpl; [constructor|].
  inversion Hnd; subst.
  apply insert_row_sorted; [apply IH; assumption|].
  intros y Hy Heq. apply H1. rewrite <- Heq.
  apply in_map. apply (Permutation_in _ (sort_rows_perm l)); exact Hy.
Qed.

Lemma firstn_sorted : forall (R : Row -> Row -> Prop) n l,
  Sorted R l -> Sorted R (firstn n l).
Proof.
  intros R n l; revert n; induction l as [|x l IH]; intros n Hs;
    destruct n; simpl; try solve [constructor].
  inversion Hs; subst. constructor; [apply IH; assumption|].
  destruct l as [|y l]; destruct n; simpl; constructor.
  inversion H2; assumption.
Qed.

Lemma In_firstn_in : forall (A : Type) n (l : list A) x, In x (firstn n l) -> In x l.
Proof.
  intros A n l x H. rewrite <- (firstn_skipn n l). apply in_or_app; left; exact H.
Qed.

Lemma StronglySorted_NoDup : forall l : list Z, StronglySorted Z.lt l -> NoDup l.
Proof.
  induction 1 as [|a l Hs IH Hf]; constructor; [|exact IH].
  intro Hin. rewrite Forall_forall in Hf. specialize (Hf a Hin). lia.
Qed.

Lemma StronglySorted_map_filter : forall (f : Row -> bool) l,
  StronglySorted Z.lt (map id l) -> StronglySorted Z.lt (map id (filter f l)).
Proof.
  intros f l; induction l as [|x l IH]; intros H; simpl; [constructor|].
  inversion H; subst.
  destruct (f x); simpl; [constructor|]; try (apply IH; assumption).
  rewrite Forall_forall in *. intros z Hz.
  apply in_map_iff in Hz as [y [Hy Hin]]; subst.
  apply H3. apply in_map. apply filter_In in Hin; tauto.
Qed.

(** Position in the table follows the id order. *)
Lemma ids_position : forall l i j a b,
  StronglySorted Z.lt (map id l) ->
  nth_error l i = Some b -> nth_error l j = Some a -> id b < id a -> (i < j)%nat.
Proof.
  induction l as [|x l IH]; intros i j a b Hs Hi Hj Hlt.
  - destruct i; discriminate.
  - inversion Hs as [|? ? Hs' Hf]; subst.
    rewrite Forall_forall in Hf.
    destruct i as [|i]; destruct j as [|j]; simpl in Hi, Hj.
    + inversion Hi; inversion Hj; subst; lia.
    + lia.
    + inversion Hj; subst.
      assert (Hb : In b l) by (eapply nth_error_In; exact Hi).
      specialize (Hf (id b) (in_map id l b Hb)). lia.
    + specialize (IH i j a b Hs' Hi Hj Hlt). lia.
Qed.

Lemma Sorted_weaken_in : forall (A : Type) (R R' : A -> A -> Prop) l,
  (forall a b, In a l -> In b l -> R a b -> R' a b) -> Sorted R l -> Sorted R' l.
Proof.
  intros A R R' l Himp Hs; induction Hs as [|a l Hs IH Hd]; constructor.
  - apply IH; intros x y Hx Hy; apply Himp; right; assumption.
  - destruct Hd as [|b l' Hab]; constructor.
    apply Himp; [left; reflexivity| right; left; reflexivity| exact Hab].
Qed.

(** C8. On any table the program can build, [ListRelevant] returns only
    rows with [relevant = 1], newest [published_at] first, rows with
    equal [published_at] the later inserted first, at most [limit] of
    them; [/items] returns exactly this list, in this order, with its
    length as [count]. *)
Theorem list_relevant_ordered : forall st limit,
  reachable st ->
  let l := list_relevant_rows limit st in
  (forall r, In r l -> relevant r = true /\ In r (rows st)) /\
  Sorted (listed_before st) l /\
  (List.length l <= limit)%nat /\
  itemsHandler false limit st = Some (List.length l, map stored_of_row l).
Proof.
  intros st limit Hr l.
  destruct (reachable_ids_ok st Hr) as [Hs _].
  assert (Hin : forall r, In r l -> relevant r = true /\ In r (rows st)).
  { intros r H. unfold l, list_relevant_rows in H.
    apply In_firstn_in in H.
    apply (Permutation_in _ (sort_rows_perm _)) in H.
    apply filter_In in H; tauto. }
  split; [exact Hin|]. split; [|split].
  - apply (Sorted_weaken_in _ before).
    + intros a b Ha Hb Hab.
      destruct (Hin a Ha) as [_ Ha'], (Hin b Hb) as [_ Hb'].
      unfold before, row_before in Hab. unfold listed_before.
      destruct (Z.ltb_spec (published_at b) (published_at a)); [left; assumption|].
      simpl in Hab. apply andb_prop in Hab as [He Hl].
      apply Z.eqb_eq in He; apply Z.ltb_lt in Hl.
      right; split; [exact He|].
      destruct (In_nth_error _ _ Ha') as [j Hj].
      destruct (In_nth_error _ _ Hb') as [i Hi].
      exists i, j; repeat split; try assumption.
      eapply ids_position; eassumption.
    + unfold l, list_relevant_rows. apply firstn_sorted, sort_rows_sorted.
      apply StronglySorted_NoDup, StronglySorted_map_filter; exact Hs.
  - unfold l, list_relevant_rows. apply firstn_le_length.
  - unfold itemsHandler, ListRelevant. rewrite length_map. reflexivity.
Qed.

End StorageProofs.

(* ================================================================== *)
(** * Proofs: UTF-8 decoding and encoding *)

Module Utf8Proofs.

Import Utf8.

(** Bit operations on small non-negative integers, as arithmetic. *)

Lemma land_low : forall x k, 0 <= k -> Z.land x (Z.ones k) = x mod 2 ^ k.
Proof. intros x k Hk; apply Z.land_ones; exact Hk. Qed.

Lemma land_255 : forall x, Z.land x 255 = x mod 256.
Proof. intros x; exact (land_low x 8 ltac:(lia)). Qed.
Lemma land_63 : forall x, Z.land x 63 = x mod 64.
Proof. intros x; exact (land_low x 6 ltac:(lia)). Qed.
Lemma land_31 : forall x, Z.land x 31 = x mod 32.
Proof. intros x; exact (land_low x 5 ltac:(lia)). Qed.
Lemma land_15 : forall x, Z.land x 15 = x mod 16.
Proof. intros x; exact (land_low x 4 ltac:(lia)). Qed.
Lemma land_7 : forall x, Z.land x 7 = x mod 8.
Proof. intros x; exact (land_low x 3 ltac:(lia)). Qed.

Lemma shiftr_6 : forall x, Z.shiftr x 6 = x / 64.
Proof. intros x; rewrite Z.shiftr_div_pow2 by lia; reflexivity. Qed.
Lemma shiftr_12 : forall x, Z.shiftr x 12 = x / 4096.
Proof. intros x; rewrite Z.shiftr_div_pow2 by lia; reflexivity. Qed.
Lemma shiftr_18 : forall x, Z.shiftr x 18 = x / 262144.
Proof. intros x; rewrite Z.shiftr_div_pow2 by lia; reflexivity. Qed.
Lemma shiftl_6 : forall x, Z.shiftl x 6 = x * 64.
Proof. intros x; rewrite Z.shiftl_mul_pow2 by lia; reflexivity. Qed.
Lemma shiftl_12 : forall x, Z.shiftl x 12 = x * 4096.
Proof. intros x; rewrite Z.shiftl_mul_pow2 by lia; reflexivity. Qed.
Lemma shiftl_18 : forall x, Z.shiftl x 18 = x * 262144.
Proof. intros x; rewrite Z.shiftl_mul_pow2 by lia; reflexivity. Qed.

(** [x | y] is [x + y] when the bits of [y] lie below those of [x]. *)
Lemma lor_add_low : forall x y k,
  0 <= k -> 0 <= x -> x mod 2 ^ k = 0 -> 0 <= y < 2 ^ k -> Z.lor x y = x + y.
Proof.
  intros x y k Hk Hx Hm Hy.
  assert (Hp : 0 < 2 ^ k) by (apply Z.pow_pos_nonneg; lia).
  assert (Ex : x = (x / 2 ^ k) * 2 ^ k).
  { rewrite (Z.div_mod x (2 ^ k)) at 1 by lia. rewrite Hm. ring. }
  set (a := x / 2 ^ k) in *. rewrite Ex. clear Ex Hm.
  apply Z.bits_inj'; intros n Hn. rewrite Z.lor_spec.
  destruct (Z.lt_ge_cases n k) as [Hlt|Hge].
  - rewrite Z.mul_pow2_bits_low by lia.
    rewrite <- (Z.mod_pow2_bits_low (a * 2 ^ k + y) k n) by lia.
    rewrite Z.add_comm, Z.mod_add by lia.
    rewrite Z.mod_small by lia. reflexivity.
  - rewrite Z.mul_pow2_bits by lia.
    assert (Hyb : Z.testbit y n = false).
    { rewrite <- (Z.mod_small y (2 ^ k)) by lia.
      apply Z.mod_pow2_bits_high; lia. }
    rewrite Hyb, orb_false_r.
    assert (Hd : Z.testbit (a * 2 ^ k + y) n =
                 Z.testbit ((a * 2 ^ k + y) / 2 ^ k) (n - k)).
    { rewrite Z.div_pow2_bits by lia. f_equal; lia. }
    rewrite Hd. f_equal. rewrite Z.add_comm, Z.div_add by lia.
    rewrite Z.div_small by lia. ring.
Qed.

Lemma byte_val_range : forall a, 0 <= byte_val a < 256.
Proof.
  intros a; unfold byte_val.
  pose proof (Ascii.nat_ascii_bounded a). lia.
Qed.

Lemma byte_val_of : forall z, 0 <= z < 256 -> byte_val (byte_of z) = z.
Proof.
  intros z Hz; unfold byte_val, byte_of.
  rewrite Ascii.nat_ascii_embedding by lia. lia.
Qed.

Lemma land_255_63 : forall x, Z.land (Z.land x 255) 63 = Z.land x 63.
Proof. intros x; rewrite <- Z.land_assoc; reflexivity. Qed.

(** Settle every integer comparison in the goal, dropping the branches
    the hypotheses exclude. *)
Ltac cmp_cases :=
  repeat (match goal with
          | |- context [?a <? ?b] => destruct (Z.ltb_spec a b); try lia
          | |- context [?a <=? ?b] => destruct (Z.leb_spec a b); try lia
          | |- context [?a =? ?b] => destruct (Z.eqb_spec a b); try lia
          end; cbn beta iota delta [orb andb negb Nat.ltb Nat.leb]).

Lemma first_class_ascii : forall b, b < 128 -> first_class b = LAscii.
Proof. intros b H; unfold first_class; cmp_cases; reflexivity. Qed.

Lemma first_class_2 : forall b, 194 <= b <= 223 -> first_class b = LMulti 2 128 191.
Proof. intros b H; unfold first_class; cmp_cases; reflexivity. Qed.

Definition lo3 (b : Z) : Z := if b =? 224 then 160 else 128.
Definition hi3 (b : Z) : Z := if b =? 237 then 159 else 191.
Definition lo4 (b : Z) : Z := if b =? 240 then 144 else 128.
Definition hi4 (b : Z) : Z := if b =? 244 then 143 else 191.

Lemma first_class_3 : forall b, 224 <= b <= 239 -> first_class b = LMulti 3 (lo3 b) (hi3 b).
Proof. intros b H; unfold first_class, lo3, hi3; cmp_cases; reflexivity. Qed.

Lemma first_class_4 : forall b, 240 <= b <= 244 -> first_class b = LMulti 4 (lo4 b) (hi4 b).
Proof. intros b H; unfold first_class, lo4, hi4; cmp_cases; reflexivity. Qed.

Lemma first_class_cases : forall b, 0 <= b < 256 ->
  (b < 128 /\ first_class b = LAscii) \/ first_class b = LInvalid \/
  (194 <= b <= 223 /\ first_class b = LMulti 2 128 191) \/
  (224 <= b <= 239 /\ first_class b = LMulti 3 (lo3 b) (hi3 b)) \/
  (240 <= b <= 244 /\ first_class b = LMulti 4 (lo4 b) (hi4 b)).
Proof.
  intros b Hb.
  destruct (Z.ltb_spec b 128); [left; split; [lia| apply first_class_ascii; lia]|].
  destruct (Z.ltb_spec b 194).
  { right; left; unfold first_class; cmp_cases; reflexivity. }
  destruct (Z.leb_spec b 223); [do 2 right; left; split; [lia| apply first_class_2; lia]|].
  destruct (Z.leb_spec b 239); [do 3 right; left; split; [lia| apply first_class_3; lia]|].
  destruct (Z.leb_spec b 244); [do 4 right; split; [lia| apply first_class_4; lia]|].
  right; left; unfold first_class; cmp_cases; reflexivity.
Qed.

Ltac bits_to_arith :=
  rewrite ?land_255_63, ?land_255, ?land_63, ?land_31, ?land_15, ?land_7,
          ?shiftr_6, ?shiftr_12, ?shiftr_18, ?shiftl_6, ?shiftl_12, ?shiftl_18.

Lemma decode_ascii : forall b rest, 0 <= b < 128 ->
  decode_rune (String (byte_of b) rest) = (b, 1%nat).
Proof.
  intros b rest H. unfold decode_rune; cbv zeta.
  rewrite byte_val_of by lia. rewrite first_class_ascii by lia. reflexivity.
Qed.

Lemma decode_two : forall b0 b1 rest,
  194 <= b0 <= 223 -> 128 <= b1 <= 191 ->
  decode_rune (String (byte_of b0) (String (byte_of b1) rest)) =
  ((b0 mod 32) * 64 + b1 mod 64, 2%nat).
Proof.
  intros b0 b1 rest H0 H1. unfold decode_rune; cbv zeta.
  rewrite !byte_val_of by lia. rewrite first_class_2 by lia.
  simpl String.length. cmp_cases.
  bits_to_arith.
  rewrite (lor_add_low _ _ 6) by (simpl; Z.div_mod_to_equations; lia).
  reflexivity.
Qed.

Lemma decode_three : forall b0 b1 b2 rest,
  224 <= b0 <= 239 -> lo3 b0 <= b1 <= hi3 b0 -> 128 <= b2 <= 191 ->
  decode_rune (String (byte_of b0) (String (byte_of b1) (String (byte_of b2) rest))) =
  ((b0 mod 16) * 4096 + (b1 mod 64) * 64 + b2 mod 64, 3%nat).
Proof.
  intros b0 b1 b2 rest H0 H1 H2.
  assert (128 <= lo3 b0 /\ hi3 b0 <= 191) by (unfold lo3, hi3; cmp_cases; lia).
  unfold decode_rune; cbv zeta.
  rewrite !byte_val_of by lia. rewrite first_class_3 by lia.
  simpl String.length. unfold is_cont. cmp_cases.
  bits_to_arith.
  rewrite (lor_add_low ((b0 mod 16) * 4096) _ 12) by (simpl; Z.div_mod_to_equations; lia).
  rewrite (lor_add_low _ _ 6) by (simpl; Z.div_mod_to_equations; lia).
  reflexivity.
Qed.

Lemma decode_four : forall b0 b1 b2 b3 rest,
  240 <= b0 <= 244 -> lo4 b0 <= b1 <= hi4 b0 -> 128 <= b2 <= 191 -> 128 <= b3 <= 191 ->
  decode_rune (String (byte_of b0) (String (byte_of b1)
                 (String (byte_of b2) (String (byte_of b3) rest)))) =
  ((b0 mod 8) * 262144 + (b1 mod 64) * 4096 + (b2 mod 64) * 64 + b3 mod 64, 4%nat).
Proof.
  intros b0 b1 b2 b3 rest H0 H1 H2 H3.
  assert (128 <= lo4 b0 /\ hi4 b0 <= 191) by (unfold lo4, hi4; cmp_cases; lia).
  unfold decode_rune; cbv zeta.
  rewrite !byte_val_of by lia. rewrite first_class_4 by lia.
  simpl String.length. unfold is_cont. cmp_cases.
  bits_to_arith.
  rewrite (lor_add_low ((b0 mod 8) * 262144) _ 18) by (simpl; Z.div_mod_to_equations; lia).
  rewrite (lor_add_low ((b0 mod 8) * 262144 + (b1 mod 64) * 4096) _ 12)
    by (simpl; Z.div_mod_to_equations; lia).
  rewrite (lor_add_low _ _ 6) by (simpl; Z.div_mod_to_equations; lia).
  reflexivity.
Qed.


Lemma encode_one : forall r, 0 <= r <= 127 -> encode_rune r = [r].
Proof.
  intros r H. unfold encode_rune; cbv zeta.
  unfold MaxRune, surrogateMin, surrogateMax, valid_rune in *.
  destruct (Z.ltb_spec r 0); [lia|]; cbn iota. cmp_cases.
  unfold byte; bits_to_arith. rewrite Z.mod_small by lia. reflexivity.
Qed.

Lemma encode_two : forall r, 128 <= r <= 2047 ->
  encode_rune r = [192 + r / 64; 128 + r mod 64].
Proof.
  intros r H. unfold encode_rune; cbv zeta.
  unfold MaxRune, surrogateMin, surrogateMax, valid_rune in *.
  destruct (Z.ltb_spec r 0); [lia|]; cbn iota. cmp_cases.
  unfold byte; bits_to_arith.
  rewrite (Z.mod_small (r / 64)) by (Z.div_mod_to_equations; lia).
  rewrite (lor_add_low 192 _ 5) by (simpl; Z.div_mod_to_equations; lia).
  rewrite (lor_add_low 128 _ 6) by (simpl; Z.div_mod_to_equations; lia).
  reflexivity.
Qed.

Lemma enc3_eq : forall r, 0 <= r <= 65535 ->
  enc3 r = [224 + r / 4096; 128 + (r / 64) mod 64; 128 + r mod 64].
Proof.
  intros r H. unfold enc3, byte; bits_to_arith.
  rewrite (Z.mod_small (r / 4096)) by (Z.div_mod_to_equations; lia).
  rewrite (lor_add_low 224 _ 4) by (simpl; Z.div_mod_to_equations; lia).
  rewrite (lor_add_low 128 ((r / 64) mod 64) 6) by (simpl; Z.div_mod_to_equations; lia).
  rewrite (lor_add_low 128 (r mod 64) 6) by (simpl; Z.div_mod_to_equations; lia).
  reflexivity.
Qed.

Lemma encode_three : forall r, 2048 <= r <= 65535 -> valid_rune r ->
  encode_rune r = [224 + r / 4096; 128 + (r / 64) mod 64; 128 + r mod 64].
Proof.
  intros r H [Hv Hs]. unfold surrogateMin, surrogateMax in Hs.
  unfold encode_rune; cbv zeta.
  unfold MaxRune, surrogateMin, surrogateMax, valid_rune in *.
  destruct (Z.ltb_spec r 0); [lia|]; cbn iota. unfold MaxRune, surrogateMin, surrogateMax.
  cmp_cases; apply enc3_eq; lia.
Qed.

Lemma encode_four : forall r, 65536 <= r <= MaxRune ->
  encode_rune r = [240 + r / 262144; 128 + (r / 4096) mod 64;
                   128 + (r / 64) mod 64; 128 + r mod 64].
Proof.
  intros r H. unfold MaxRune in H.
  unfold encode_rune; cbv zeta.
  unfold MaxRune, surrogateMin, surrogateMax, valid_rune in *.
  destruct (Z.ltb_spec r 0); [lia|]; cbn iota. unfold MaxRune, surrogateMin, surrogateMax.
  cmp_cases.
  unfold byte; bits_to_arith.
  rewrite (Z.mod_small (r / 262144)) by (Z.div_mod_to_equations; lia).
  rewrite (lor_add_low 240 _ 3) by (simpl; Z.div_mod_to_equations; lia).
  rewrite (lor_add_low 128 ((r / 4096) mod 64) 6) by (simpl; Z.div_mod_to_equations; lia).
  rewrite (lor_add_low 128 ((r / 64) mod 64) 6) by (simpl; Z.div_mod_to_equations; lia).
  rewrite (lor_add_low 128 (r mod 64) 6) by (simpl; Z.div_mod_to_equations; lia).
  reflexivity.
Qed.


Ltac zdiv := Z.div_mod_to_equations; lia.

Ltac red_bool := cbn beta iota delta [orb andb negb fst snd Nat.ltb Nat.leb].

(** Decoding the encoding of a scalar value gives it back, with the
    encoding's width. *)
Lemma decode_encode : forall r rest, valid_rune r ->
  decode_rune (string_of_bytes (encode_rune r) ++ rest) =
  (r, List.length (encode_rune r)).
Proof.
  intros r rest Hv.
  pose proof Hv as [Hr Hs]. unfold MaxRune, surrogateMin, surrogateMax in Hr, Hs.
  destruct (Z.leb_spec r 127).
  { rewrite encode_one by lia. unfold string_of_bytes; cbn [fold_right String.append]. apply decode_ascii; lia. }
  destruct (Z.leb_spec r 2047).
  { rewrite encode_two by lia. unfold string_of_bytes; cbn [fold_right String.append].
    rewrite decode_two by zdiv. f_equal. zdiv. }
  destruct (Z.leb_spec r 65535).
  { rewrite encode_three by (auto; lia). unfold string_of_bytes; cbn [fold_right String.append].
    rewrite decode_three.
    - f_equal. zdiv.
    - zdiv.
    - unfold lo3, hi3.
      destruct (Z.eqb_spec (224 + r / 4096) 224);
      destruct (Z.eqb_spec (224 + r / 4096) 237); zdiv.
    - zdiv. }
  rewrite encode_four by (unfold MaxRune; lia). unfold string_of_bytes; cbn [fold_right String.append].
  rewrite decode_four.
  - f_equal. zdiv.
  - zdiv.
  - unfold lo4, hi4.
    destruct (Z.eqb_spec (240 + r / 262144) 240);
    destruct (Z.eqb_spec (240 + r / 262144) 244); zdiv.
  - zdiv.
  - zdiv.
Qed.


Lemma valid_RuneError : valid_rune RuneError.
Proof. unfold valid_rune, RuneError, MaxRune, surrogateMin, surrogateMax; lia. Qed.

(** Every rune [DecodeRuneInString] returns is a scalar value. *)
Lemma decode_valid : forall s, valid_rune (fst (decode_rune s)).
Proof.
  intros [|c0 rest]; [exact valid_RuneError|].
  unfold decode_rune; cbv zeta.
  pose proof (byte_val_range c0) as H0.
  destruct (first_class_cases (byte_val c0) H0)
    as [[Ha E]|[E|[[Hb E]|[[Hb E]|[Hb E]]]]]; rewrite E; cbn iota;
    try exact valid_RuneError.
  - unfold valid_rune, MaxRune, surrogateMin, surrogateMax; cbn; lia.
  - destruct (_ <? _)%nat; [exact valid_RuneError|].
    destruct rest as [|c1 rest1]; [exact valid_RuneError|].
    pose proof (byte_val_range c1).
    destruct (Z.ltb_spec (byte_val c1) 128); [exact valid_RuneError|].
    destruct (Z.ltb_spec 191 (byte_val c1)); [exact valid_RuneError|].
    red_bool. bits_to_arith.
    rewrite (lor_add_low _ _ 6) by (simpl; zdiv).
    unfold valid_rune, MaxRune, surrogateMin, surrogateMax; zdiv.
  - destruct (_ <? _)%nat; [exact valid_RuneError|].
    destruct rest as [|c1 rest1]; [exact valid_RuneError|].
    pose proof (byte_val_range c1).
    destruct (Z.ltb_spec (byte_val c1) (lo3 (byte_val c0))); [exact valid_RuneError|].
    destruct (Z.ltb_spec (hi3 (byte_val c0)) (byte_val c1)); [exact valid_RuneError|].
    red_bool.
    destruct rest1 as [|c2 rest2]; [exact valid_RuneError|].
    pose proof (byte_val_range c2). unfold is_cont.
    destruct (Z.leb_spec 128 (byte_val c2)); [|exact valid_RuneError].
    destruct (Z.leb_spec (byte_val c2) 191); [|exact valid_RuneError].
    red_bool. bits_to_arith.
    rewrite (lor_add_low ((byte_val c0 mod 16) * 4096) _ 12) by (simpl; zdiv).
    rewrite (lor_add_low _ _ 6) by (simpl; zdiv).
    unfold lo3, hi3 in *.
    destruct (Z.eqb_spec (byte_val c0) 224); destruct (Z.eqb_spec (byte_val c0) 237);
    unfold valid_rune, MaxRune, surrogateMin, surrogateMax; zdiv.
  - destruct (_ <? _)%nat; [exact valid_RuneError|].
    destruct rest as [|c1 rest1]; [exact valid_RuneError|].
    pose proof (byte_val_range c1).
    destruct (Z.ltb_spec (byte_val c1) (lo4 (byte_val c0))); [exact valid_RuneError|].
    destruct (Z.ltb_spec (hi4 (byte_val c0)) (byte_val c1)); [exact valid_RuneError|].
    red_bool.
    destruct rest1 as [|c2 rest2]; [exact valid_RuneError|].
    pose proof (byte_val_range c2). unfold is_cont.
    destruct (Z.leb_spec 128 (byte_val c2)); [|exact valid_RuneError].
    destruct (Z.leb_spec (byte_val c2) 191); [|exact valid_RuneError].
    red_bool.
    destruct rest2 as [|c3 rest3]; [exact valid_RuneError|].
    pose proof (byte_val_range c3).
    destruct (Z.leb_spec 128 (byte_val c3)); [|exact valid_RuneError].
    destruct (Z.leb_spec (byte_val c3) 191); [|exact valid_RuneError].
    red_bool. bits_to_arith.
    rewrite (lor_add_low ((byte_val c0 mod 8) * 262144) _ 18) by (simpl; zdiv).
    rewrite (lor_add_low ((byte_val c0 mod 8) * 262144 + (byte_val c1 mod 64) * 4096) _ 12)
      by (simpl; zdiv).
    rewrite (lor_add_low _ _ 6) by (simpl; zdiv).
    unfold lo4, hi4 in *.
    destruct (Z.eqb_spec (byte_val c0) 240); destruct (Z.eqb_spec (byte_val c0) 244);
    unfold valid_rune, MaxRune, surrogateMin, surrogateMax; zdiv.
Qed.


Lemma string_of_bytes_app : forall a b,
  string_of_bytes (a ++ b) = (string_of_bytes a ++ string_of_bytes b)%string.
Proof. induction a as [|x a IH]; intros b; simpl; [reflexivity| rewrite IH; reflexivity]. Qed.

Lemma length_string_of_bytes : forall bs,
  String.length (string_of_bytes bs) = List.length bs.
Proof. induction bs as [|x bs IH]; simpl; [reflexivity| rewrite IH; reflexivity]. Qed.

Lemma length_str_app : forall p s,
  String.length (p ++ s) = (String.length p + String.length s)%nat.
Proof. induction p as [|c p IH]; intros s; simpl; [reflexivity| rewrite IH; reflexivity]. Qed.

Lemma substring_all : forall s, substring 0 (String.length s) s = s.
Proof. induction s as [|c s IH]; simpl; [reflexivity| rewrite IH; reflexivity]. Qed.

Lemma drop_app : forall p s, GoStrings.drop (String.length p) (p ++ s) = s.
Proof.
  intros p s. unfold GoStrings.drop. rewrite length_str_app.
  replace (String.length p + String.length s - String.length p)%nat
    with (String.length s) by lia.
  induction p as [|c p IH]; simpl; [apply substring_all| exact IH].
Qed.

Lemma encode_rune_length : forall r, (1 <= List.length (encode_rune r))%nat.
Proof.
  intros r. unfold encode_rune, enc3; cbv zeta.
  repeat match goal with |- context [if ?c then _ else _] => destruct c end;
  simpl; lia.
Qed.

Lemma string_of_runes_cons : forall r rs,
  string_of_runes (r :: rs) =
  (string_of_bytes (encode_rune r) ++ string_of_runes rs)%string.
Proof. intros r rs. unfold string_of_runes. simpl. apply string_of_bytes_app. Qed.

Lemma runes_fuel_step : forall f s, s <> EmptyString ->
  runes_fuel (S f) s = let (r, n) := decode_rune s in r :: runes_fuel f (GoStrings.drop n s).
Proof. intros f [|c s] H; [congruence| reflexivity]. Qed.

Lemma runes_fuel_string_of_runes : forall rs f,
  Forall valid_rune rs ->
  (String.length (string_of_runes rs) <= f)%nat ->
  runes_fuel f (string_of_runes rs) = rs.
Proof.
  induction rs as [|r rs IH]; intros f Hv Hf.
  - destruct f; reflexivity.
  - inversion Hv as [|? ? Hr Hrs]; subst.
    rewrite string_of_runes_cons in *.
    rewrite length_str_app, length_string_of_bytes in Hf.
    pose proof (encode_rune_length r) as Hl.
    destruct f as [|f]; [lia|].
    rewrite runes_fuel_step.
    2:{ destruct (encode_rune r) as [|b bs]; [simpl in Hl; lia| discriminate]. }
    rewrite (decode_encode r _ Hr).
    rewrite <- (length_string_of_bytes (encode_rune r)), drop_app.
    f_equal. apply IH; [exact Hrs| lia].
Qed.

(** [[]rune(string(rs))] is [rs] for scalar values. *)
Lemma runes_string_of_runes : forall rs,
  Forall valid_rune rs -> runes (string_of_runes rs) = rs.
Proof. intros rs Hv. apply runes_fuel_string_of_runes; [exact Hv| lia]. Qed.

(** [[]rune(s)] holds scalar values only. *)
Lemma runes_valid : forall s, Forall valid_rune (runes s).
Proof.
  intros s; unfold runes. generalize (String.length s) as f.
  intros f; revert s; induction f as [|f IH]; intros s; simpl; [constructor|].
  destruct s as [|c s']; [constructor|].
  pose proof (decode_valid (String c s')) as Hv.
  destruct (decode_rune (String c s')) as [r n]; simpl in Hv.
  constructor; [exact Hv| apply IH].
Qed.

End Utf8Proofs.

(* ================================================================== *)
(** * Proofs: [trimText] *)

Module TrimTextProofs.

Import Utf8 Utf8Proofs AnalysisText.

Lemma trimText_spec : forall s max,
  let out := trimText s max in
  (List.length (runes out) <= max)%nat /\
  ((List.length (runes s) <= max)%nat -> out = s) /\
  (out = s \/
   exists rs tl, out = string_of_runes rs /\ Forall valid_rune rs /\
                 runes out = rs /\ runes (TrimSpace s) = rs ++ tl).
Proof.
  intros s max out. unfold out, trimText.
  destruct (Nat.leb_spec (List.length (runes s)) max) as [H|H].
  { split; [exact H|]. split; [reflexivity| left; reflexivity]. }
  pose proof (runes_valid (TrimSpace s)) as Hv.
  set (rs := runes (TrimSpace s)) in *.
  destruct (Nat.leb_spec (List.length rs) max) as [H'|H'].
  - rewrite runes_string_of_runes by exact Hv.
    split; [exact H'|]. split; [intros; lia|].
    right; exists rs, []; rewrite app_nil_r.
    split; [reflexivity| split; [exact Hv| split; reflexivity]].
  - assert (Hf : Forall valid_rune (firstn max rs)).
    { rewrite <- (firstn_skipn max rs) in Hv. apply Forall_app in Hv; tauto. }
    rewrite runes_string_of_runes by exact Hf.
    split; [apply firstn_le_length|]. split; [intros; lia|].
    right; exists (firstn max rs), (skipn max rs).
    split; [reflexivity| split; [exact Hf| split; [reflexivity|]]].
    symmetry; apply firstn_skipn.
Qed.

(** C7. The summary [Evaluate] puts in the prompt holds at most 800
    runes (counted as [[]rune] counts them, not bytes); a summary of at
    most 800 runes is passed unchanged; otherwise the text sent is the
    UTF-8 encoding of whole scalar values, a prefix of the runes of the
    trimmed summary, so no multi-byte sequence is cut. *)
Theorem prompt_summary_bounded : forall ctx,
  let s := Analysis.ctx_Summary ctx in
  let out := prompt_summary ctx in
  (List.length (runes out) <= 800)%nat /\
  ((List.length (runes s) <= 800)%nat -> out = s) /\
  (out = s \/
   exists rs tl, out = string_of_runes rs /\ Forall valid_rune rs /\
                 runes out = rs /\ runes (TrimSpace s) = rs ++ tl).
Proof. intros ctx s out. exact (trimText_spec s 800). Qed.

End TrimTextProofs.

(* ================================================================== *)
(** * Proofs: [cleanupResponse] *)

Module CleanupProofs.

Import GoStrings Utf8 Utf8Proofs AnalysisText.
Local Open Scope string_scope.

Lemma prefix_empty : forall b, String.prefix "" b = true.
Proof. intros [|c b]; reflexivity. Qed.

Lemma prefix_app_self : forall a b, String.prefix a (a ++ b) = true.
Proof.
  induction a as [|c a IH]; intros b; simpl; [apply prefix_empty|].
  destruct (ascii_dec c c); [apply IH| congruence].
Qed.

(** A pattern that fits inside [b] is found at the front of [b ++ c]
    only if it is at the front of [b]. *)
Lemma prefix_app_long : forall a b c,
  (String.length a <= String.length b)%nat ->
  String.prefix a (b ++ c) = String.prefix a b.
Proof.
  induction a as [|x a IH]; intros b c H; [rewrite !prefix_empty; reflexivity|].
  destruct b as [|y b]; simpl in H; [lia|]. simpl.
  destruct (ascii_dec x y); [apply IH; lia| reflexivity].
Qed.

Lemma drop_zero : forall s, drop 0 s = s.
Proof. intros s. unfold drop. rewrite Nat.sub_0_r. apply substring_all. Qed.

Lemma drop_cons : forall n c s, drop (S n) (String c s) = drop n s.
Proof. reflexivity. Qed.

Lemma length_drop : forall n s,
  String.length (drop n s) = (String.length s - n)%nat.
Proof.
  induction n as [|n IH]; intros s.
  - rewrite drop_zero. lia.
  - destruct s as [|c s]; [reflexivity|]. rewrite drop_cons, IH. reflexivity.
Qed.

(** A pattern longer than [q] found at the front of [q ++ x]: its tail is
    at the front of [x]. *)
Lemma prefix_app_short : forall a q x,
  String.prefix a (q ++ x) = true ->
  (String.length q <= String.length a)%nat ->
  String.prefix (drop (String.length q) a) x = true.
Proof.
  intros a q; revert a.
  induction q as [|y q IH]; intros a x H Hl.
  - rewrite drop_zero. exact H.
  - destruct a as [|z a]; simpl in Hl; [lia|].
    simpl in H. destruct (ascii_dec z y) as [E|E]; [|discriminate].
    simpl String.length. rewrite drop_cons. apply IH; [exact H| lia].
Qed.

Lemma take_app : forall p s, take (String.length p) (p ++ s) = p.
Proof.
  unfold take. induction p as [|c p IH]; intros s; [destruct s; reflexivity|].
  simpl. rewrite IH. reflexivity.
Qed.

Lemma str_app_nil_r : forall a, (a ++ "")%string = a.
Proof. induction a as [|c a IH]; simpl; [reflexivity| rewrite IH; reflexivity]. Qed.

Lemma str_app_assoc : forall a b c, ((a ++ b) ++ c = a ++ (b ++ c))%string.
Proof. induction a as [|x a IH]; intros b c; simpl; [reflexivity| rewrite IH; reflexivity]. Qed.

Lemma rev_str_app : forall a b, rev_str (a ++ b) = (rev_str b ++ rev_str a)%string.
Proof.
  induction a as [|c a IH]; intros b; simpl.
  - rewrite str_app_nil_r. reflexivity.
  - rewrite IH, str_app_assoc. reflexivity.
Qed.

Lemma rev_str_involutive : forall s, rev_str (rev_str s) = s.
Proof.
  induction s as [|c s IH]; simpl; [reflexivity|].
  rewrite rev_str_app, IH. reflexivity.
Qed.

Lemma length_rev_str : forall s, String.length (rev_str s) = String.length s.
Proof.
  induction s as [|c s IH]; simpl; [reflexivity|].
  rewrite length_str_app, IH. simpl. lia.
Qed.

Lemma fm_brace : forall x, first_match space_encodings (String "{" x) = None.
Proof. intros x. reflexivity. Qed.
Lemma fm_tick : forall x, first_match space_encodings (String "`" x) = None.
Proof. intros x. reflexivity. Qed.
Lemma fm_rev_brace : forall x, first_match (map rev_str space_encodings) (String "}" x) = None.
Proof. intros x. reflexivity. Qed.
Lemma fm_rev_tick : forall x, first_match (map rev_str space_encodings) (String "`" x) = None.
Proof. intros x. reflexivity. Qed.
Lemma fm_rev_nl : forall x,
  first_match (map rev_str space_encodings) (String nl (String "}" x)) = Some (String nl "").
Proof. intros x. reflexivity. Qed.

Lemma trim_left_none : forall encs f s,
  first_match encs s = None -> trim_left_fuel encs f s = s.
Proof. intros encs [|f] s H; cbn [trim_left_fuel]; [reflexivity| rewrite H; reflexivity]. Qed.

(** [TrimSpace] leaves a string that neither starts nor ends with a space. *)
Lemma TrimSpace_id : forall s,
  first_match space_encodings s = None ->
  first_match (map rev_str space_encodings) (rev_str s) = None ->
  TrimSpace s = s.
Proof.
  intros s H1 H2. unfold TrimSpace, TrimLeftSpace, TrimRightSpace.
  rewrite (trim_left_none _ _ _ H1), (trim_left_none _ _ _ H2).
  apply rev_str_involutive.
Qed.

(** The newline left in front of the closing fence is trimmed. *)
Lemma TrimSpace_body_nl : forall mid,
  TrimSpace (String "{" (mid ++ "}") ++ String nl "") = String "{" (mid ++ "}").
Proof.
  intros mid. set (body := String "{" (mid ++ "}")).
  assert (Hb : rev_str body = String "}" (rev_str mid ++ "{")).
  { unfold body. cbn [rev_str]. rewrite rev_str_app. reflexivity. }
  assert (Hr : rev_str (body ++ String nl "") = String nl (String "}" (rev_str mid ++ "{"))).
  { rewrite rev_str_app, Hb. reflexivity. }
  assert (Hl : String.length (body ++ String nl "") = S (S (String.length (mid ++ "}")))).
  { rewrite length_str_app. unfold body. cbn [String.length]. lia. }
  unfold TrimSpace, TrimLeftSpace.
  rewrite trim_left_none by (unfold body; apply fm_brace).
  unfold TrimRightSpace. rewrite Hr, Hl. cbn [trim_left_fuel].
  rewrite fm_rev_nl. change (String.length (String nl "")) with 1%nat.
  rewrite drop_cons, drop_zero. cbn [trim_left_fuel]. rewrite fm_rev_brace.
  rewrite <- Hb. apply rev_str_involutive.
Qed.

Lemma TrimSuffix_app : forall x suf, TrimSuffix (x ++ suf) suf = x.
Proof.
  intros x suf. unfold TrimSuffix, HasSuffix. rewrite length_str_app.
  replace (String.length x + String.length suf - String.length suf)%nat
    with (String.length x) by lia.
  rewrite drop_app, String.eqb_refl, take_app.
  replace (String.length suf <=? String.length x + String.length suf)%nat with true
    by (symmetry; apply Nat.leb_le; lia).
  reflexivity.
Qed.

(** A fenced JSON object, opened by three backquotes (optionally followed by
    [json]) and a newline, and closed by a newline and three backquotes:
    [cleanupResponse] removes the fences and then applies the
    [category] replacement to the object. *)
Lemma cleanupResponse_fenced : forall opener mid,
  opener = fence \/ opener = fence_json ->
  cleanupResponse (opener ++ String nl (String "{" (mid ++ "}") ++ String nl fence))
  = ReplaceAll (String "{" (mid ++ "}")) category_null category_empty.
Proof.
  intros opener mid Hop.
  set (body := String "{" (mid ++ "}")).
  assert (HS : TrimSuffix (body ++ String nl fence) fence = body ++ String nl "").
  { rewrite <- TrimSuffix_app with (suf := fence). f_equal.
    rewrite str_app_assoc. reflexivity. }
  assert (HP1 : TrimPrefix (body ++ String nl fence) fence_json = body ++ String nl fence)
    by reflexivity.
  assert (HP2 : TrimPrefix (body ++ String nl fence) fence = body ++ String nl fence)
    by reflexivity.
  assert (HT : TrimSpace (opener ++ String nl (body ++ String nl fence))
               = opener ++ String nl (body ++ String nl fence)).
  { assert (Heq : opener ++ String nl (body ++ String nl fence)
                  = ((opener ++ String nl body) ++ String nl "``") ++ "`").
    { rewrite !str_app_assoc. reflexivity. }
    apply TrimSpace_id.
    - destruct Hop as [-> | ->]; apply fm_tick.
    - rewrite Heq, rev_str_app. apply fm_rev_tick. }
  unfold cleanupResponse. cbv zeta. rewrite HT.
  destruct Hop as [-> | ->].
  - change (HasPrefix (fence ++ String nl (body ++ String nl fence)) fence) with true.
    change (IndexByte (fence ++ String nl (body ++ String nl fence)) nl) with (Some 3%nat).
    cbv iota beta.
    replace (drop (S 3) (fence ++ String nl (body ++ String nl fence)))
      with (body ++ String nl fence)
      by (first [exact (drop_app (fence ++ String nl "") _)
                | symmetry; exact (drop_app (fence ++ String nl "") _)]).
    rewrite HP1, HP2, HS. unfold body. rewrite TrimSpace_body_nl. reflexivity.
  - change (HasPrefix (fence_json ++ String nl (body ++ String nl fence)) fence) with true.
    change (IndexByte (fence_json ++ String nl (body ++ String nl fence)) nl) with (Some 7%nat).
    cbv iota beta.
    replace (drop (S 7) (fence_json ++ String nl (body ++ String nl fence)))
      with (body ++ String nl fence)
      by (first [exact (drop_app (fence_json ++ String nl "") _)
                | symmetry; exact (drop_app (fence_json ++ String nl "") _)]).
    rewrite HP1, HP2, HS. unfold body. rewrite TrimSpace_body_nl. reflexivity.
Qed.

Lemma replace_all_fuel_irrel : forall old new f1 f2 s,
  old <> ""%string ->
  (String.length s < f1)%nat -> (String.length s < f2)%nat ->
  replace_all_fuel f1 s old new = replace_all_fuel f2 s old new.
Proof.
  intros old new f1. induction f1 as [|f1 IH]; intros f2 s Hold H1 H2; [lia|].
  destruct f2 as [|f2]; [lia|].
  destruct s as [|c rest]; [reflexivity|]. cbn [replace_all_fuel].
  assert (Hlo : (1 <= String.length old)%nat)
    by (destruct old; [congruence| simpl; lia]).
  simpl String.length in H1, H2.
  destruct (String.prefix old (String c rest)).
  - f_equal. apply IH; [exact Hold| |];
      rewrite length_drop; simpl String.length; lia.
  - f_equal. apply IH; [exact Hold| lia| lia].
Qed.

Lemma replace_all_fuel_S : forall f c r old new,
  replace_all_fuel (S f) (String c r) old new
  = if String.prefix old (String c r)
    then (new ++ replace_all_fuel f (drop (String.length old) (String c r)) old new)%string
    else String c (replace_all_fuel f r old new).
Proof. reflexivity. Qed.

Lemma ReplaceAll_cons : forall c r old new,
  old <> ""%string ->
  ReplaceAll (String c r) old new
  = if String.prefix old (String c r)
    then (new ++ ReplaceAll (drop (String.length old) (String c r)) old new)%string
    else String c (ReplaceAll r old new).
Proof.
  intros c r old new Hold. unfold ReplaceAll at 1. rewrite replace_all_fuel_S.
  assert (Hlo : (1 <= String.length old)%nat)
    by (destruct old; [congruence| simpl; lia]).
  destruct (String.prefix old (String c r)).
  - f_equal. apply replace_all_fuel_irrel; [exact Hold| |];
      rewrite length_drop; simpl String.length; lia.
  - reflexivity.
Qed.

Lemma ReplaceAll_prefix : forall old new rest,
  old <> ""%string ->
  ReplaceAll (old ++ rest) old new = (new ++ ReplaceAll rest old new)%string.
Proof.
  intros old new rest Hold. destruct old as [|c o]; [congruence|].
  change (String c o ++ rest)%string with (String c (o ++ rest)).
  rewrite ReplaceAll_cons by exact Hold.
  change (String c (o ++ rest)) with (String c o ++ rest)%string.
  rewrite prefix_app_self, drop_app. reflexivity.
Qed.

Lemma Contains_cons : forall c r sub,
  Contains (String c r) sub = (String.prefix sub (String c r) || Contains r sub)%bool.
Proof. reflexivity. Qed.

(** No proper suffix of ["category": null] is a prefix of it. *)
Lemma category_null_border : forall k,
  (1 <= k < String.length category_null)%nat ->
  String.prefix (drop k category_null) category_null = false.
Proof.
  intros k Hk. change (String.length category_null) with 16%nat in Hk.
  destruct k as [|k]; [lia|].
  do 15 (destruct k as [|k]; [reflexivity|]). lia.
Qed.

Lemma category_null_nonempty : category_null <> ""%string.
Proof. discriminate. Qed.

(** An occurrence that starts inside [p] cannot overlap the literal that
    follows [p]: it would be an occurrence inside [p] or a border. *)
Lemma no_match_before : forall q rest,
  q <> ""%string ->
  Contains q category_null = false ->
  String.prefix category_null (q ++ category_null ++ rest) = false.
Proof.
  intros q rest Hq Hc.
  destruct (String.prefix category_null (q ++ category_null ++ rest)) eqn:E;
    [|reflexivity].
  exfalso.
  assert (Hcq : String.prefix category_null q = false).
  { destruct q as [|c r]; [congruence|].
    rewrite Contains_cons in Hc. apply orb_false_iff in Hc. apply Hc. }
  destruct (Nat.le_gt_cases (String.length category_null) (String.length q)) as [Hl|Hl].
  - rewrite prefix_app_long in E by exact Hl. congruence.
  - apply prefix_app_short in E; [|lia].
    rewrite prefix_app_long in E by (rewrite length_drop; lia).
    rewrite category_null_border in E; [discriminate|].
    split; [destruct q; [congruence| simpl; lia]| exact Hl].
Qed.

Lemma ReplaceAll_skip : forall p rest,
  Contains p category_null = false ->
  ReplaceAll (p ++ category_null ++ rest) category_null category_empty
  = (p ++ category_empty ++ ReplaceAll rest category_null category_empty)%string.
Proof.
  induction p as [|c p IH]; intros rest Hc.
  - exact (ReplaceAll_prefix _ _ rest category_null_nonempty).
  - change (String c p ++ category_null ++ rest)%string
      with (String c (p ++ category_null ++ rest)).
    rewrite ReplaceAll_cons by apply category_null_nonempty.
    change (String c (p ++ category_null ++ rest))
      with (String c p ++ category_null ++ rest)%string.
    rewrite no_match_before by (discriminate || exact Hc).
    rewrite Contains_cons in Hc. apply orb_false_iff in Hc.
    cbv iota beta. rewrite IH by apply Hc. reflexivity.
Qed.

End CleanupProofs.

(* ================================================================== *)
(** * Proofs: configuration loading *)

Module ConfigProofs.

Import Config.

Lemma byte_at_digit : forall d, 0 <= d < 10 ->
  byte_at (ascii_of_nat (Z.to_nat (48 + d))) = 48 + d.
Proof.
  intros d Hd. unfold byte_at.
  assert (H : (Z.to_nat (48 + d) < 256)%nat).
  { apply Nat2Z.inj_lt. rewrite Z2Nat.id by lia. change (Z.of_nat 256) with 256. lia. }
  rewrite nat_ascii_embedding by exact H. rewrite Z2Nat.id by lia. reflexivity.
Qed.

Lemma byte_at_range : forall c, 0 <= byte_at c < 256.
Proof.
  intros c. unfold byte_at. pose proof (nat_ascii_bounded c). lia.
Qed.

Lemma fast_loop_mono : forall s a v,
  0 <= a -> atoi_fast_loop a s = Some v -> a <= v.
Proof.
  induction s as [|c r IH]; intros a v Ha H; simpl in H.
  - injection H; lia.
  - pose proof (byte_at_range c).
    set (ch := (byte_at c - 48) mod 256) in H.
    assert (0 <= ch < 256) by (unfold ch; apply Z.mod_pos_bound; lia).
    destruct (9 <? ch)%Z; [discriminate|].
    apply IH in H; nia.
Qed.

(** The checked loop of [ParseUint] agrees with the unchecked loop of the
    fast path, up to the [maxUint64] bound. *)
Lemma parse_uint_fast : forall s acc,
  0 <= acc <= maxUint64 ->
  parse_uint_loop acc s =
  match atoi_fast_loop acc s with
  | Some v => if (v <=? maxUint64)%Z then Some v else None
  | None => None
  end.
Proof.
  induction s as [|c r IH]; intros acc Hacc; cbn [parse_uint_loop atoi_fast_loop].
  - destruct (Z.leb_spec acc maxUint64); [reflexivity| lia].
  - pose proof (byte_at_range c) as Hb.
    destruct ((48 <=? byte_at c)%Z && (byte_at c <=? 57)%Z) eqn:Hd.
    + apply andb_true_iff in Hd. destruct Hd as [Hd1 Hd2].
      apply Z.leb_le in Hd1. apply Z.leb_le in Hd2.
      replace ((byte_at c - 48) mod 256) with (byte_at c - 48)
        by (rewrite Z.mod_small; lia).
      destruct (Z.ltb_spec 9 (byte_at c - 48)); [lia|].
      destruct (Z.leb_spec (maxUint64 / 10 + 1) acc).
      * destruct (atoi_fast_loop (acc * 10 + (byte_at c - 48)) r) eqn:E; [|reflexivity].
        apply fast_loop_mono in E; [|lia].
        destruct (Z.leb_spec z maxUint64); [|reflexivity].
        assert (maxUint64 / 10 + 1 = 1844674407370955162) by reflexivity.
        assert (maxUint64 = 18446744073709551615) by reflexivity. lia.
      * destruct (Z.ltb_spec maxUint64 (acc * 10 + (byte_at c - 48))).
        -- destruct (atoi_fast_loop (acc * 10 + (byte_at c - 48)) r) eqn:E; [|reflexivity].
           apply fast_loop_mono in E; [|lia].
           destruct (Z.leb_spec z maxUint64); [lia|reflexivity].
        -- apply IH. lia.
    + assert (Hn : 9 < (byte_at c - 48) mod 256).
      { apply andb_false_iff in Hd.
        destruct Hd as [Hd|Hd]; [apply Z.leb_gt in Hd| apply Z.leb_gt in Hd].
        - replace ((byte_at c - 48) mod 256) with (byte_at c - 48 + 256)
            by (rewrite <- (Z.mod_small (byte_at c - 48 + 256) 256) by lia;
                rewrite <- Z.add_mod_idemp_r by lia; rewrite Z.mod_same by lia;
                rewrite Z.add_0_r; reflexivity).
          lia.
        - rewrite Z.mod_small by lia. lia. }
      destruct (Z.ltb_spec 9 ((byte_at c - 48) mod 256)); [reflexivity| lia].
Qed.

Lemma itoa_fast : forall f n s acc,
  0 <= n < 10 ^ Z.of_nat f ->
  exists k, 0 <= k /\
    atoi_fast_loop acc (itoa_fuel f n s) = atoi_fast_loop (acc * 10 ^ k + n) s.
Proof.
  induction f as [|f IH]; intros n s acc Hn.
  - simpl in Hn. exists 0. split; [lia|].
    replace n with 0 by lia. simpl. f_equal; ring.
  - rewrite Nat2Z.inj_succ, Z.pow_succ_r in Hn by lia.
    pose proof (Z.mod_pos_bound n 10 ltac:(lia)) as Hm.
    cbn [itoa_fuel].
    destruct (Z.ltb_spec n 10).
    + exists 1. split; [lia|]. cbn [atoi_fast_loop].
      rewrite byte_at_digit by lia.
      replace ((48 + n mod 10 - 48) mod 256) with n
        by (rewrite Z.mod_small with (a := n) by lia; rewrite Z.mod_small; lia).
      destruct (Z.ltb_spec 9 n); [lia|]. f_equal; ring.
    + destruct (IH (n / 10) (String (ascii_of_nat (Z.to_nat (48 + n mod 10))) s) acc)
        as [k [Hk E]].
      { split; [apply Z.div_pos; lia| apply Z.div_lt_upper_bound; lia]. }
      exists (k + 1). split; [lia|]. rewrite E. cbn [atoi_fast_loop].
      rewrite byte_at_digit by lia.
      replace ((48 + n mod 10 - 48) mod 256) with (n mod 10)
        by (rewrite (Z.mod_small (48 + n mod 10 - 48) 256) by lia; lia).
      destruct (Z.ltb_spec 9 (n mod 10)); [lia|].
      f_equal. rewrite Z.pow_add_r by lia.
      pose proof (Z.div_mod n 10 ltac:(lia)). lia.
Qed.

Lemma itoa_len_ge : forall f n s,
  (String.length s <= String.length (itoa_fuel f n s))%nat.
Proof.
  induction f as [|f IH]; intros n s; [simpl; lia|]. cbn [itoa_fuel].
  destruct (n <? 10)%Z; [simpl; lia|].
  etransitivity; [|apply IH]. simpl. lia.
Qed.

Lemma itoa_length : forall f (j : nat) n s,
  0 <= n < 10 ^ Z.of_nat f -> 10 ^ Z.of_nat j <= n ->
  (j + 1 + String.length s <= String.length (itoa_fuel f n s))%nat.
Proof.
  induction f as [|f IH]; intros j n s Hn Hj.
  - simpl in Hn. pose proof (Z.pow_pos_nonneg 10 (Z.of_nat j)). lia.
  - rewrite Nat2Z.inj_succ, Z.pow_succ_r in Hn by lia.
    cbn [itoa_fuel]. destruct (Z.ltb_spec n 10).
    + destruct j as [|j]; [simpl; lia|].
      rewrite Nat2Z.inj_succ, Z.pow_succ_r in Hj by lia.
      pose proof (Z.pow_pos_nonneg 10 (Z.of_nat j)). lia.
    + destruct j as [|j].
      * etransitivity; [|apply itoa_len_ge]. simpl. lia.
      * rewrite Nat2Z.inj_succ, Z.pow_succ_r in Hj by lia.
        etransitivity; [|apply IH with (j := j)].
        -- simpl. lia.
        -- split; [apply Z.div_pos; lia| apply Z.div_lt_upper_bound; lia].
        -- apply Z.div_le_lower_bound; lia.
Qed.

Lemma itoa_fuel_enough : forall n, 0 <= n ->
  n < 10 ^ Z.of_nat (S (Z.to_nat (Z.log2 n))).
Proof.
  intros n Hn.
  rewrite Nat2Z.inj_succ, Z2Nat.id by (apply Z.log2_nonneg).
  destruct (Z.eq_dec n 0) as [->|Hn0]; [simpl; lia|].
  destruct (Z.log2_spec n) as [_ H]; [lia|].
  eapply Z.lt_le_trans; [exact H|].
  apply Z.pow_le_mono_l. split; [lia|lia].
Qed.

Lemma itoa_loop : forall n, 0 <= n -> atoi_fast_loop 0 (itoa n) = Some n.
Proof.
  intros n Hn. unfold itoa.
  destruct (itoa_fast (S (Z.to_nat (Z.log2 n))) n "" 0) as [k [_ E]].
  { split; [exact Hn| apply itoa_fuel_enough; exact Hn]. }
  rewrite E. reflexivity.
Qed.

Lemma itoa_cons : forall n, exists c rest, itoa n = String c rest.
Proof.
  intros n. unfold itoa. cbn [itoa_fuel].
  destruct (n <? 10)%Z; [eauto|].
  pose proof (itoa_len_ge (Z.to_nat (Z.log2 n)) (n / 10)
               (String (ascii_of_nat (Z.to_nat (48 + n mod 10))) "")) as H.
  destruct (itoa_fuel _ _ _); [simpl in H; lia| eauto].
Qed.

Lemma itoa_long : forall n, 10 ^ 18 <= n ->
  (19 <= String.length (itoa n))%nat.
Proof.
  intros n Hn. unfold itoa.
  pose proof (itoa_length (S (Z.to_nat (Z.log2 n))) 18 n "") as H.
  simpl String.length in H. rewrite Nat.add_0_r in H.
  apply H; [split; [lia| apply itoa_fuel_enough; lia]| exact Hn].
Qed.

Lemma two63_big : 10 ^ 18 <= two63.
Proof. unfold two63. lia. Qed.

Lemma not_sign_digit : forall c rest n,
  atoi_fast_loop 0 (String c rest) = Some n ->
  Ascii.eqb c "-" = false /\ Ascii.eqb c "+" = false.
Proof.
  intros c rest n H.
  destruct (Ascii.eqb_spec c "-") as [->|]; [discriminate|].
  destruct (Ascii.eqb_spec c "+") as [->|]; [discriminate|]. auto.
Qed.

Lemma parse_uint_itoa : forall n, 0 <= n ->
  ParseUint (itoa n) = if (n <=? maxUint64)%Z then Some n else None.
Proof.
  intros n Hn. destruct (itoa_cons n) as [c [rest E]].
  pose proof (itoa_loop n Hn) as Hl.
  unfold ParseUint. rewrite E. rewrite <- E.
  rewrite parse_uint_fast by (unfold maxUint64; lia). rewrite Hl. reflexivity.
Qed.

(** [strconv.Atoi] reads back the decimal form of every [n] in the [int]
    range, positive or negative, and rejects it out of range. *)
Theorem Atoi_itoa : forall n, 0 <= n ->
  Atoi (itoa n) = (if (n <? two63)%Z then Some n else None) /\
  Atoi (String "-" (itoa n)) = (if (n <=? two63)%Z then Some (- n) else None).
Proof.
  intros n Hn.
  pose proof (itoa_loop n Hn) as Hl. pose proof (parse_uint_itoa n Hn) as Hp.
  pose proof (itoa_long n) as Hlong. pose proof two63_big as Hbig.
  assert (Hmax : two63 <= maxUint64) by (unfold two63, maxUint64; lia).
  destruct (itoa_cons n) as [c [rest E]].
  pose proof Hl as Hs. rewrite E in Hs. apply not_sign_digit in Hs. destruct Hs as [Hm Hp'].
  split.
  - unfold Atoi. rewrite E. cbv zeta.
    destruct ((0 <? String.length (String c rest))%nat &&
              (String.length (String c rest) <? 19)%nat) eqn:Hf.
    + rewrite Hm, Hp'. cbn [orb]. rewrite <- E, Hl.
      destruct (String.length (itoa n) <? 1)%nat eqn:H1.
      { rewrite E in H1. discriminate. }
      destruct (Z.ltb_spec n two63); [reflexivity|].
      rewrite <- E in Hf. apply andb_true_iff in Hf. destruct Hf as [_ Hf].
      apply Nat.ltb_lt in Hf. specialize (Hlong ltac:(lia)). lia.
    + unfold ParseInt. rewrite Hp', Hm. rewrite <- E, Hp.
      destruct (Z.ltb_spec n two63).
      * destruct (Z.leb_spec n maxUint64); [|lia].
        destruct (Z.leb_spec two63 n); [lia|]. reflexivity.
      * destruct (Z.leb_spec n maxUint64); [|reflexivity].
        destruct (Z.leb_spec two63 n); [reflexivity|lia].
  - unfold Atoi. cbv zeta.
    destruct ((0 <? String.length (String "-" (itoa n)))%nat &&
              (String.length (String "-" (itoa n)) <? 19)%nat) eqn:Hf.
    + assert (Hdash : Ascii.eqb "-" "-" = true) by reflexivity.
      cbv iota beta. rewrite Hdash. cbn [orb]. cbv iota beta.
      rewrite E. change ((String.length (String c rest) <? 1)%nat) with false.
      cbv iota beta. rewrite <- E, Hl.
      destruct (Z.leb_spec n two63); [reflexivity|].
      apply andb_true_iff in Hf. destruct Hf as [_ Hf].
      apply Nat.ltb_lt in Hf. simpl in Hf. specialize (Hlong ltac:(lia)). lia.
    + unfold ParseInt. simpl (Ascii.eqb "-" "+"). simpl (Ascii.eqb "-" "-").
      cbv iota beta. rewrite Hp.
      destruct (Z.leb_spec n two63).
      * destruct (Z.leb_spec n maxUint64); [|lia].
        destruct (Z.ltb_spec two63 n); [lia|]. reflexivity.
      * destruct (Z.leb_spec n maxUint64); [|reflexivity].
        destruct (Z.ltb_spec two63 n); [reflexivity|lia].
Qed.

Lemma itoa_nonempty : forall n, String.eqb (itoa n) "" = false.
Proof. intros n. destruct (itoa_cons n) as [c [rest ->]]. reflexivity. Qed.

Lemma wrap64_small : forall z, - two63 <= z < two63 -> wrap64 z = z.
Proof.
  intros z Hz. unfold wrap64.
  rewrite Z.mod_small by (unfold two63 in *; lia). lia.
Qed.

Lemma wrap64_range : forall z, - two63 <= wrap64 z < two63.
Proof.
  intros z. unfold wrap64.
  pose proof (Z.mod_pos_bound (z + two63) (2 ^ 64) ltac:(lia)).
  unfold two63 in *. lia.
Qed.

Lemma stringWithDefault_nonempty : forall getenv key fallback,
  fallback <> ""%string -> stringWithDefault getenv key fallback <> ""%string.
Proof.
  intros getenv key fallback H. unfold stringWithDefault.
  destruct (String.eqb_spec (getenv key) ""); simpl; assumption.
Qed.

Lemma intWithDefault_pos : forall getenv key fallback,
  0 < fallback -> 0 < intWithDefault getenv key fallback.
Proof.
  intros getenv key fallback H. unfold intWithDefault.
  destruct (negb (String.eqb (getenv key) "")); [|exact H].
  destruct (Atoi (getenv key)) as [p|]; [|exact H].
  destruct (Z.ltb_spec 0 p); lia.
Qed.

Lemma intWithDefault_itoa : forall getenv key fallback n,
  0 < n < two63 -> getenv key = itoa n -> intWithDefault getenv key fallback = n.
Proof.
  intros getenv key fallback n Hn E. unfold intWithDefault.
  rewrite E, itoa_nonempty. cbn [negb].
  destruct (Atoi_itoa n ltac:(lia)) as [-> _].
  destruct (Z.ltb_spec n two63); [|lia].
  destruct (Z.ltb_spec 0 n); [reflexivity|lia].
Qed.

(** [POLL_INTERVAL_MINUTES] set to [m] minutes, [0 < m] in the [int] range:
    the interval is [m * time.Minute] computed in [int64]. Up to
    153722867 minutes this is [m] minutes, a positive duration; above, the
    multiplication wraps around and the interval is not [m] minutes. *)
Theorem durationFromMinutes_wraps : forall getenv key fallback m,
  getenv key = itoa m -> 0 < m < two63 ->
  durationFromMinutes getenv key fallback = wrap64 (m * Minute) /\
  (m <= 153722867 ->
   durationFromMinutes getenv key fallback = m * Minute /\ 0 < m * Minute) /\
  (153722867 < m -> durationFromMinutes getenv key fallback <> m * Minute).
Proof.
  intros getenv key fallback m E Hm.
  assert (Hd : durationFromMinutes getenv key fallback = wrap64 (m * Minute)).
  { unfold durationFromMinutes. rewrite E, itoa_nonempty. cbn [negb].
    destruct (Atoi_itoa m ltac:(lia)) as [-> _].
    destruct (Z.ltb_spec m two63); [|lia].
    destruct (Z.ltb_spec 0 m); [reflexivity|lia]. }
  split; [exact Hd|]. split.
  - intros Hle. rewrite Hd. unfold Minute.
    rewrite wrap64_small by (unfold two63; lia). split; [reflexivity| lia].
  - intros Hgt. rewrite Hd. pose proof (wrap64_range (m * Minute)).
    unfold Minute, two63 in *. lia.
Qed.

(** [config.Load] always yields a positive [MaxItems] and [DBPort],
    non-empty defaulted strings, the raw [OPENAI_API_KEY], reads
    [MAX_ITEMS] in decimal, and defaults the poll interval to 15 minutes. *)
Theorem Load_config_valid : forall getenv,
  let cfg := Load getenv in
  0 < MaxItems cfg /\ 0 < DBPort cfg /\
  FeedURL cfg <> ""%string /\ BindAddr cfg <> ""%string /\
  OpenAIModel cfg <> ""%string /\ OpenAIBase cfg <> ""%string /\
  DBHost cfg <> ""%string /\ DBUser cfg <> ""%string /\
  DBPass cfg <> ""%string /\ DBName cfg <> ""%string /\
  OpenAIKey cfg = getenv "OPENAI_API_KEY"%string /\
  (forall n, 0 < n < two63 -> getenv "MAX_ITEMS"%string = itoa n -> MaxItems cfg = n) /\
  (getenv "POLL_INTERVAL_MINUTES"%string = ""%string -> PollInterval cfg = 15 * Minute).
Proof.
  intros getenv cfg. unfold cfg, Load. cbn [MaxItems DBPort FeedURL BindAddr
    OpenAIModel OpenAIBase DBHost DBUser DBPass DBName OpenAIKey PollInterval].
  split; [apply intWithDefault_pos; reflexivity|].
  split; [apply intWithDefault_pos; reflexivity|].
  do 8 (split; [apply stringWithDefault_nonempty; discriminate|]).
  split; [reflexivity|].
  split; [intros n Hn E; apply intWithDefault_itoa; assumption|].
  intros E. unfold durationFromMinutes. rewrite E. reflexivity.
Qed.

End ConfigProofs.

(* ================================================================== *)
(** * Proofs: the analysis client *)

Module AnalysisClientProofs.

Import Rss Analysis Storage Service AnalysisText AnalysisClient.

Lemma process_item_no_eval : forall webhook env st item,
  (forall ctx, evaluate env ctx = None) ->
  fst (process_item webhook env st item) = st /\
  forall g r ok, ~ In (EvSave g r ok) (snd (process_item webhook env st item)).
Proof.
  intros webhook env st item H. unfold process_item.
  destruct (Exists _ st _) as [[|]|]; [| |].
  - split; [reflexivity|]. intros g r ok [E|[]]; discriminate.
  - rewrite H. split; [reflexivity|].
    intros g r ok [E|[E|[]]]; discriminate.
  - split; [reflexivity|]. intros g r ok [E|[]]; discriminate.
Qed.

Lemma process_items_no_eval : forall webhook env items st,
  (forall ctx, evaluate env ctx = None) ->
  fst (process_items webhook env st items) = st /\
  forall g r ok, ~ In (EvSave g r ok) (snd (process_items webhook env st items)).
Proof.
  intros webhook env items. induction items as [|item rest IH]; intros st H.
  - split; [reflexivity|]. intros g r ok [].
  - cbn [process_items].
    destruct (process_item webhook env st item) as [st1 ev1] eqn:E1.
    destruct (process_item_no_eval webhook env st item H) as [Hs1 Hn1].
    rewrite E1 in Hs1, Hn1. cbn [fst snd] in Hs1, Hn1. subst st1.
    destruct (process_items webhook env st rest) as [st2 ev2] eqn:E2.
    destruct (IH st H) as [Hs2 Hn2]. rewrite E2 in Hs2, Hn2. cbn [fst snd] in *.
    split; [exact Hs2|]. intros g r ok Hin. apply in_app_or in Hin.
    destruct Hin; [eapply Hn1| eapply Hn2]; eauto.
Qed.

(** With [OPENAI_API_KEY] empty, a polling cycle whose analyzer is the
    [Client] built by [NewClient] never calls [SaveAnalysis] and leaves
    the table unchanged. *)
Theorem pollOnce_without_key_no_write : forall webhook env st model baseURL sys fmt unm chat,
  evaluate env = evaluator sys fmt unm chat (NewClient "" model baseURL) ->
  fst (pollOnce webhook env st) = st /\
  forall g r ok, ~ In (EvSave g r ok) (snd (pollOnce webhook env st)).
Proof.
  intros webhook env st model baseURL sys fmt unm chat He.
  assert (H : forall ctx, evaluate env ctx = None) by (intros ctx; rewrite He; reflexivity).
  unfold pollOnce. destruct (Fetch (now env) (feed env)) as [items|].
  - apply process_items_no_eval, H.
  - split; [reflexivity|]. intros g r ok [].
Qed.

End AnalysisClientProofs.


(* ------------------------------------------------------------------ *)
(** ** The table across saves and cycles *)

Module StorageExtraProofs.

Import Rss Analysis Storage Service Observe StorageProofs.

(** The row an upsert writes keeps the GUID of the row it replaces. *)
Lemma guid_update_row : forall now item result r,
  guid (update_row now item result r) = guid r.
Proof. reflexivity. Qed.

Lemma has_guid_eq : forall key g r, has_guid key g r = true <-> key (guid r) = key g.
Proof. intros key g r; unfold has_guid; apply String.eqb_eq. Qed.

(** The sort keys of the stored GUIDs, as the UNIQUE index holds them. *)
Definition guid_keys (st : Store) : list string :=
  map (fun r => guid_key st (guid r)) (rows st).

Lemma upsert_key : forall now item result st,
  guid_key (upsert now item result st) = guid_key st.
Proof. intros now item result st; unfold upsert; destruct (row_exists _ _); reflexivity. Qed.

Lemma map_update_keys : forall (key : string -> string) now item result l,
  map (fun r => key (guid r))
      (map (fun r => if has_guid key (GUID item) r
                     then update_row now item result r else r) l)
  = map (fun r => key (guid r)) l.
Proof.
  intros key now item result l; induction l as [|x l IH]; simpl; [reflexivity|].
  rewrite IH; destruct (has_guid key (GUID item) x); reflexivity.
Qed.

Lemma row_exists_in : forall st g,
  row_exists st g = true <-> In (guid_key st g) (guid_keys st).
Proof.
  intros st g; unfold row_exists, guid_keys. rewrite existsb_exists, in_map_iff.
  split; intros [r [H1 H2]]; exists r; split; try assumption.
  - apply has_guid_eq; assumption.
  - apply has_guid_eq; assumption.
Qed.

Lemma upsert_guids : forall now item result st,
  guid_keys (upsert now item result st) =
  if row_exists st (GUID item) then guid_keys st
  else guid_keys st ++ [guid_key st (GUID item)].
Proof.
  intros now item result st; unfold guid_keys. rewrite upsert_key. unfold upsert.
  destruct (row_exists st (GUID item)); simpl.
  - apply map_update_keys.
  - rewrite map_app; reflexivity.
Qed.

Lemma NoDup_app_single : forall (A : Type) (l : list A) x,
  NoDup l -> ~ In x l -> NoDup (l ++ [x]).
Proof.
  intros A l x Hl Hx. apply NoDup_app; [exact Hl| repeat constructor; intros []|].
  intros y Hy [Heq|[]]; subst; contradiction.
Qed.

Lemma upsert_guid_nodup : forall now item result st,
  NoDup (guid_keys st) -> NoDup (guid_keys (upsert now item result st)).
Proof.
  intros now item result st H. rewrite upsert_guids.
  destruct (row_exists st (GUID item)) eqn:E; [exact H|].
  apply NoDup_app_single; [exact H|].
  intro Hin; apply row_exists_in in Hin; congruence.
Qed.

(** On a table the program built, no two GUIDs are equal under the
    collation; in particular no two are equal. *)
Lemma reachable_key_nodup : forall st, reachable st -> NoDup (guid_keys st).
Proof.
  induction 1; [constructor|]. apply upsert_guid_nodup; assumption.
Qed.

Lemma reachable_guid_nodup : forall st, reachable st -> NoDup (map guid (rows st)).
Proof.
  intros st H. pose proof (reachable_key_nodup st H) as Hk. unfold guid_keys in Hk.
  rewrite <- (map_map guid (guid_key st)) in Hk.
  exact (NoDup_map_inv _ _ Hk).
Qed.

(** A stored GUID stays stored, and the upserted one is stored. *)
Lemma upsert_keeps : forall now item result st g,
  row_exists st g = true -> row_exists (upsert now item result st) g = true.
Proof.
  intros now item result st g H. apply row_exists_in in H. apply row_exists_in.
  rewrite upsert_guids, upsert_key. destruct (row_exists st (GUID item));
    [exact H| apply in_or_app; left; exact H].
Qed.

Lemma upsert_stores : forall now item result st,
  row_exists (upsert now item result st) (GUID item) = true.
Proof.
  intros now item result st. apply row_exists_in. rewrite upsert_guids, upsert_key.
  destruct (row_exists st (GUID item)) eqn:E.
  - apply row_exists_in; exact E.
  - apply in_or_app; right; left; reflexivity.
Qed.

Lemma upsert_length : forall now item result st,
  List.length (rows (upsert now item result st)) =
  (List.length (rows st) + if row_exists st (GUID item) then 0 else 1)%nat.
Proof.
  intros now item result st; unfold upsert.
  destruct (row_exists st (GUID item)); simpl.
  - rewrite length_map; lia.
  - rewrite length_app; reflexivity.
Qed.

(** What one step of the pipeline does to the table: nothing is removed,
    the row count never drops, and a successful save leaves its GUID
    stored. *)
Definition keeps (st st' : Store) : Prop :=
  (forall g, row_exists st g = true -> row_exists st' g = true) /\
  (List.length (rows st) <= List.length (rows st'))%nat.

Definition saves_stored (st' : Store) (evs : list Event) : Prop :=
  forall g r, In (EvSave g r true) evs -> row_exists st' g = true.

Lemma keeps_refl : forall st, keeps st st.
Proof. intros st; split; [tauto| lia]. Qed.

Lemma keeps_trans : forall s1 s2 s3, keeps s1 s2 -> keeps s2 s3 -> keeps s1 s3.
Proof. intros s1 s2 s3 [H1 L1] [H2 L2]; split; [auto| lia]. Qed.

Lemma saves_stored_app : forall s1 s2 e1 e2,
  saves_stored s1 e1 -> keeps s1 s2 -> saves_stored s2 e2 ->
  saves_stored s2 (e1 ++ e2).
Proof.
  intros s1 s2 e1 e2 H1 [K _] H2 g r Hin. apply in_app_or in Hin as [Hin|Hin].
  - apply K; eapply H1; exact Hin.
  - eapply H2; exact Hin.
Qed.

Lemma process_item_keeps : forall webhook env st item,
  let (st', evs) := process_item webhook env st item in
  keeps st st' /\ saves_stored st' evs.
Proof.
  intros webhook env st item.
  unfold process_item, Exists, SaveAnalysis.
  destruct (exists_err env (GUID item)).
  { split; [apply keeps_refl|]. intros g r [H|[]]; discriminate. }
  destruct (row_exists st (GUID item)).
  { split; [apply keeps_refl|]. intros g r [H|[]]; discriminate. }
  destruct (evaluate env (item_context item)) as [res|].
  2: { split; [apply keeps_refl|]. intros g r [H|[H|[]]]; discriminate. }
  destruct (save_err env item res).
  { split; [apply keeps_refl|]. intros g r [H|[H|[H|[]]]]; discriminate. }
  split.
  - split; [intros g; apply upsert_keeps|].
    rewrite upsert_length; lia.
  - intros g r Hin. apply in_app_or in Hin as [Hin|Hin].
    + destruct Hin as [H|[H|[H|[]]]]; try discriminate.
      inversion H; subst. apply upsert_stores.
    + destruct (webhook && Relevant res); [destruct Hin as [H|[]]|destruct Hin];
        discriminate.
Qed.

Lemma process_items_keeps : forall webhook env items st,
  let (st', evs) := process_items webhook env st items in
  keeps st st' /\ saves_stored st' evs.
Proof.
  intros webhook env items; induction items as [|item items IH]; intros st; simpl.
  - split; [apply keeps_refl| intros g r []].
  - pose proof (process_item_keeps webhook env st item) as H1.
    destruct (process_item webhook env st item) as [s1 e1].
    specialize (IH s1).
    destruct (process_items webhook env s1 items) as [s2 e2].
    destruct H1 as [K1 S1], IH as [K2 S2].
    split; [eapply keeps_trans; eassumption|].
    eapply saves_stored_app; eassumption.
Qed.

Lemma pollOnce_keeps : forall webhook env st,
  let (st', evs) := pollOnce webhook env st in
  keeps st st' /\ saves_stored st' evs.
Proof.
  intros webhook env st; unfold pollOnce.
  destruct (Fetch (now env) (feed env)) as [items|].
  - apply process_items_keeps.
  - split; [apply keeps_refl| intros g r []].
Qed.

Lemma run_keeps : forall webhook ticks st,
  let (st', evs) := run webhook st ticks in
  keeps st st' /\ saves_stored st' evs.
Proof.
  intros webhook ticks; induction ticks as [|env ticks IH]; intros st; simpl.
  - split; [apply keeps_refl| intros g r []].
  - pose proof (pollOnce_keeps webhook env st) as H1.
    destruct (pollOnce webhook env st) as [s1 e1].
    specialize (IH s1).
    destruct (run webhook s1 ticks) as [s2 e2].
    destruct H1 as [K1 S1], IH as [K2 S2].
    split; [eapply keeps_trans; eassumption|].
    eapply saves_stored_app; eassumption.
Qed.

(** [find] over the rows of an upsert. *)
Lemma find_map_update : forall key now item result g l,
  find (has_guid key g) (map (fun r => if has_guid key (GUID item) r
                                      then update_row now item result r else r) l) =
  option_map (fun r => if has_guid key (GUID item) r
                       then update_row now item result r else r)
             (find (has_guid key g) l).
Proof.
  intros key now item result g l; induction l as [|x l IH]; simpl; [reflexivity|].
  assert (Hx : has_guid key g (if has_guid key (GUID item) x
                               then update_row now item result x else x)
               = has_guid key g x)
    by (destruct (has_guid key (GUID item) x); reflexivity).
  rewrite Hx. destruct (has_guid key g x); [reflexivity| exact IH].
Qed.

Lemma find_none_exists : forall key g l,
  find (has_guid key g) l = None -> existsb (has_guid key g) l = false.
Proof.
  intros key g l; induction l as [|x l IH]; simpl; [reflexivity|].
  destruct (has_guid key g x); [discriminate| exact IH].
Qed.

Lemma exists_find : forall key g l,
  existsb (has_guid key g) l = false -> find (has_guid key g) l = None.
Proof.
  intros key g l; induction l as [|x l IH]; simpl; [reflexivity|].
  destruct (has_guid key g x); [discriminate| exact IH].
Qed.

Lemma find_app_none : forall (A : Type) (p : A -> bool) l1 l2,
  find p l1 = None -> find p (l1 ++ l2) = find p l2.
Proof.
  intros A p l1 l2; induction l1 as [|x l1 IH]; simpl; [reflexivity|].
  destruct (p x); [discriminate| exact IH].
Qed.

Lemma find_app_some : forall (A : Type) (p : A -> bool) l1 l2 x,
  find p l1 = Some x -> find p (l1 ++ l2) = Some x.
Proof.
  intros A p l1 l2 y; induction l1 as [|x l1 IH]; simpl; [discriminate|].
  destruct (p x); [exact (fun H => H)| exact IH].
Qed.

(** Transitivity of the [ORDER BY] comparison. *)
Lemma row_before_trans : forall a b c,
  row_before a b = true -> row_before b c = true -> row_before a c = true.
Proof.
  intros a b c. unfold row_before.
  destruct (Z.ltb_spec (published_at b) (published_at a));
  destruct (Z.ltb_spec (published_at c) (published_at b));
  destruct (Z.ltb_spec (published_at c) (published_at a));
  destruct (Z.eqb_spec (published_at a) (published_at b));
  destruct (Z.eqb_spec (published_at b) (published_at c));
  destruct (Z.eqb_spec (published_at a) (published_at c));
  destruct (Z.ltb_spec (id b) (id a));
  destruct (Z.ltb_spec (id c) (id b));
  destruct (Z.ltb_spec (id c) (id a)); simpl; intros; try reflexivity;
  try discriminate; lia.
Qed.

Lemma StronglySorted_app_rel : forall (A : Type) (R : A -> A -> Prop) l1 l2 x y,
  StronglySorted R (l1 ++ l2) -> In x l1 -> In y l2 -> R x y.
Proof.
  intros A R l1 l2 x y; induction l1 as [|z l1 IH]; intros Hs Hx Hy; [destruct Hx|].
  simpl in Hs; inversion Hs as [|? ? Hs' Hf]; subst.
  destruct Hx as [Hx|Hx].
  - subst. rewrite Forall_forall in Hf. apply Hf, in_or_app; right; exact Hy.
  - apply IH; assumption.
Qed.

(** The query lists the sorted relevant rows, so its rows come from
    the permutation before the cut. *)
Lemma in_sort_rows : forall l r, In r l <-> In r (sort_rows l).
Proof.
  intros l r; split; intros H.
  - apply (Permutation_in _ (Permutation_sym (sort_rows_perm l))); exact H.
  - apply (Permutation_in _ (sort_rows_perm l)); exact H.
Qed.

(** Across any sequence of polling cycles started on a table the
    program built, the GUID column stays a unique key (no two GUIDs are
    equal under its collation, so none are equal), the ids stay pairwise
    distinct and every id stays below the next AUTO_INCREMENT value. *)
Theorem run_table_keys_unique : forall webhook st ticks,
  reachable st ->
  let st' := fst (run webhook st ticks) in
  NoDup (map (fun r => guid_key st' (guid r)) (rows st')) /\
  NoDup (map guid (rows st')) /\ NoDup (map id (rows st')) /\
  Forall (fun r => id r < next_id st') (rows st').
Proof.
  intros webhook st ticks H st'.
  pose proof (run_reachable webhook st ticks H) as Hr. fold st' in Hr.
  destruct (reachable_ids_ok st' Hr) as [Hs Hf].
  split; [exact (reachable_key_nodup st' Hr)|].
  split; [apply reachable_guid_nodup; exact Hr|].
  split; [apply StronglySorted_NoDup; exact Hs| exact Hf].
Qed.

(** Polling never deletes: every GUID stored before a sequence of
    cycles is still stored after it, the row count never drops, and
    every save reported as successful in the trace left its GUID in the
    final table, where [Exists] finds it. *)
Theorem run_never_forgets : forall webhook st ticks,
  let (st', evs) := run webhook st ticks in
  (forall g, row_exists st g = true -> row_exists st' g = true) /\
  (List.length (rows st) <= List.length (rows st'))%nat /\
  (forall g r, In (EvSave g r true) evs -> Exists false st' g = Some true).
Proof.
  intros webhook st ticks.
  pose proof (run_keeps webhook ticks st) as H.
  destruct (run webhook st ticks) as [st' evs].
  destruct H as [[K L] S]. split; [exact K|]. split; [exact L|].
  intros g r Hin. unfold Exists. rewrite (S g r Hin). reflexivity.
Qed.

(** Looking a GUID up after [INSERT ... ON DUPLICATE KEY UPDATE], by
    [guid = ?] under the column's collation: a GUID equal to the item's
    under the collation finds a row carrying the item's and result's
    fields with [updated_at = now]; if such a row was stored, it keeps its
    [id], its [created_at] and its own spelling of the GUID, otherwise the
    new row gets the next AUTO_INCREMENT id and [created_at = now], and
    the table grows by exactly one row. Every other GUID finds what it
    found before, and the AUTO_INCREMENT counter advances by one on both
    paths. *)
Theorem upsert_lookup : forall now item result st g,
  let st' := upsert now item result st in
  let key := guid_key st in
  guid_key st' = key /\ next_id st' = next_id st + 1 /\
  find (has_guid key g) (rows st') =
    (if String.eqb (key g) (key (GUID item))
     then Some (match find (has_guid key g) (rows st) with
                | Some r => update_row now item result r
                | None => new_row now (next_id st) item result
                end)
     else find (has_guid key g) (rows st)) /\
  List.length (rows st') =
    (List.length (rows st) + if row_exists st (GUID item) then 0 else 1)%nat.
Proof.
  intros now item result st g st' key.
  split; [apply upsert_key|].
  split; [unfold st', upsert; destruct (row_exists st (GUID item)); reflexivity|].
  split; [|apply upsert_length].
  unfold st', upsert, row_exists. fold key.
  destruct (String.eqb_spec (key g) (key (GUID item))) as [Hg|Hg].
  - destruct (existsb (has_guid key (GUID item)) (rows st)) eqn:E; simpl.
    + rewrite find_map_update.
      destruct (find (has_guid key g) (rows st)) as [r|] eqn:F.
      * apply find_some in F as [_ F]. simpl.
        replace (has_guid key (GUID item) r) with true; [reflexivity|].
        symmetry; apply has_guid_eq. apply has_guid_eq in F. congruence.
      * apply find_none_exists in F. unfold has_guid in F, E. rewrite Hg in F.
        congruence.
    + assert (Hn : find (has_guid key g) (rows st) = None).
      { apply exists_find. unfold has_guid. rewrite Hg. exact E. }
      rewrite Hn, find_app_none by exact Hn.
      simpl. unfold has_guid at 1. simpl. rewrite Hg, String.eqb_refl. reflexivity.
  - destruct (existsb (has_guid key (GUID item)) (rows st)) eqn:E; simpl.
    + rewrite find_map_update.
      destruct (find (has_guid key g) (rows st)) as [r|] eqn:F; [|reflexivity].
      apply find_some in F as [_ F]. simpl.
      destruct (has_guid key (GUID item) r) eqn:G; [|reflexivity].
      apply has_guid_eq in F; apply has_guid_eq in G. congruence.
    + destruct (find (has_guid key g) (rows st)) as [r|] eqn:F.
      * apply find_app_some; exact F.
      * rewrite find_app_none by exact F. simpl.
        unfold has_guid at 1. simpl.
        destruct (String.eqb_spec (key (GUID item)) (key g)); [congruence| reflexivity].
Qed.

(** [LIMIT] keeps the top of the order: on a table the program built,
    [ListRelevant] returns [min limit n] rows, [n] being the number of
    relevant rows, and every listed row comes before, in
    [ORDER BY published_at DESC, id DESC], every relevant row left out;
    [/items] reports that number as [count]. *)
Theorem list_relevant_top : forall st limit,
  reachable st ->
  let l := list_relevant_rows limit st in
  List.length l = Nat.min limit (List.length (filter relevant (rows st))) /\
  (forall x r, In x l -> In r (rows st) -> relevant r = true -> ~ In r l ->
               row_before x r = true) /\
  itemsHandler false limit st =
    Some (Nat.min limit (List.length (filter relevant (rows st))),
          map stored_of_row l).
Proof.
  intros st limit Hr l.
  destruct (reachable_ids_ok st Hr) as [Hs _].
  assert (Hlen : List.length l = Nat.min limit (List.length (filter relevant (rows st)))).
  { unfold l, list_relevant_rows. rewrite length_firstn.
    rewrite (Permutation_length (sort_rows_perm _)). reflexivity. }
  split; [exact Hlen|]. split.
  - intros x r Hx Hin Hrel Hnot.
    set (S := sort_rows (filter relevant (rows st))).
    assert (HS : StronglySorted before S).
    { apply Sorted_StronglySorted.
      - intros a b c; unfold before; apply row_before_trans.
      - apply sort_rows_sorted.
        apply StronglySorted_NoDup, StronglySorted_map_filter; exact Hs. }
    rewrite <- (firstn_skipn limit S) in HS.
    apply (StronglySorted_app_rel _ _ _ _ x r HS); [exact Hx|].
    assert (HrS : In r S) by (apply (in_sort_rows (filter relevant (rows st)) r), filter_In; split; assumption).
    rewrite <- (firstn_skipn limit S) in HrS.
    apply in_app_or in HrS as [HrS|HrS]; [contradiction| exact HrS].
  - unfold itemsHandler, ListRelevant. rewrite length_map.
    fold (list_relevant_rows limit st). fold l. rewrite Hlen. reflexivity.
Qed.

End StorageExtraProofs.

(* ------------------------------------------------------------------ *)
(** ** cleanupResponse on a response that needs no cleaning *)

Module CleanupExtraProofs.

Import GoStrings Utf8 Utf8Proofs AnalysisText CleanupProofs.
Local Open Scope string_scope.

(** [strings.ReplaceAll] changes nothing when the pattern does not occur. *)
Lemma ReplaceAll_absent : forall s old new,
  old <> "" -> Contains s old = false -> ReplaceAll s old new = s.
Proof.
  intros s old new Hne; induction s as [|c r IH]; intros Hc.
  - destruct old; reflexivity.
  - rewrite Contains_cons in Hc. apply orb_false_iff in Hc as [Hp Hr].
    rewrite ReplaceAll_cons by exact Hne. rewrite Hp, IH by exact Hr. reflexivity.
Qed.

Lemma TrimSpace_object : forall mid,
  TrimSpace (String "{" (mid ++ "}")) = String "{" (mid ++ "}").
Proof.
  intros mid. apply TrimSpace_id; [apply fm_brace|].
  cbn [rev_str]. rewrite rev_str_app. apply fm_rev_brace.
Qed.

(** A response that already is a bare JSON object, or such an object in
    a fence (three backquotes, optionally followed by [json], a newline,
    the object, a newline and three backquotes), and in which the text
    ["category": null] does not occur, comes out of [cleanupResponse] as
    the object itself, unchanged. *)
Theorem cleanupResponse_clean_object : forall mid,
  Contains (String "{" (mid ++ "}")) category_null = false ->
  cleanupResponse (String "{" (mid ++ "}")) = String "{" (mid ++ "}") /\
  (forall opener, opener = fence \/ opener = fence_json ->
   cleanupResponse (opener ++ String nl (String "{" (mid ++ "}") ++ String nl fence))
   = String "{" (mid ++ "}")).
Proof.
  intros mid Hc. split.
  - unfold cleanupResponse. rewrite TrimSpace_object.
    replace (HasPrefix (String "{" (mid ++ "}")) fence) with false by reflexivity.
    apply ReplaceAll_absent; [apply category_null_nonempty| exact Hc].
  - intros opener Hop. rewrite cleanupResponse_fenced by exact Hop.
    apply ReplaceAll_absent; [apply category_null_nonempty| exact Hc].
Qed.

End CleanupExtraProofs.

(* ------------------------------------------------------------------ *)
(** ** The tags column round trip *)

Module JsonProofs.

Import GoStrings Utf8 Utf8Proofs Json CleanupProofs.
Local Open Scope string_scope.

(** What [appendString] writes for one scalar value [r] of the source. *)
Definition piece (r : Z) : string :=
  if (r <? 128)%Z then
    (if htmlSafe r then String (byte_of r) "" else escape_ascii r (byte_of r))
  else if (r =? 8232)%Z || (r =? 8233)%Z then
    String bslash ("u202" ++ String (hex_digit (Z.land r 15)) "")
  else string_of_bytes (encode_rune r).

(** Whether that piece is the rune's own bytes. *)
Definition raw (r : Z) : bool :=
  ((r <? 128)%Z && htmlSafe r) ||
  ((128 <=? r)%Z && negb ((r =? 8232)%Z || (r =? 8233)%Z)).

Definition body_of (rs : list Z) : string :=
  fold_right (fun r acc => piece r ++ acc) "" rs.

(** Split a goal on an ASCII value into its 128 instances, each closed
    by [t]. *)
Tactic Notation "ascii_cases" constr(r) tactic(t) :=
  assert (Hn : exists k, r = Z.of_nat k /\ (k < 128)%nat)
    by (exists (Z.to_nat r); lia);
  destruct Hn as [k [-> Hk]];
  do 128 (destruct k as [|k]; [t|]); lia.

Lemma ascii_scan : forall r Y, (0 <= r < 128)%Z ->
  scan_string (piece r ++ Y) =
  option_map (fun '(b, t) => (piece r ++ b, t)) (scan_string Y).
Proof. intros r Y Hr. ascii_cases r (reflexivity). Qed.

Lemma ascii_step : forall r Y, (0 <= r < 128)%Z ->
  unquote_step (piece r ++ Y) = Some (String (byte_of r) "", Y).
Proof.
  intros r Y Hr.
  ascii_cases r (cbv -[drop]; rewrite ?drop_cons, ?drop_zero; reflexivity).
Qed.

Lemma ascii_fast : forall r f Y, (0 <= r < 128)%Z ->
  fast_len (S f) (piece r ++ Y) = if htmlSafe r then S (fast_len f Y) else O.
Proof. intros r f Y Hr. ascii_cases r (reflexivity). Qed.

Lemma ascii_escaped : forall r, (0 <= r < 128)%Z -> htmlSafe r = false ->
  exists t, piece r = String bslash t.
Proof.
  intros r Hr. ascii_cases r (intros H; try discriminate H; eexists; reflexivity).
Qed.

(** The bytes of a rune above ASCII are all above ASCII, and there are
    at least two of them. *)
Lemma enc_high : forall r, valid_rune r -> (128 <= r)%Z ->
  Forall (fun b => 128 <= b < 256)%Z (encode_rune r) /\
  (2 <= List.length (encode_rune r))%nat.
Proof.
  intros r Hv Hr. destruct Hv as [Hr1 Hr2].
  destruct (Z.le_gt_cases r 2047).
  { rewrite encode_two by lia. split; [repeat constructor; zdiv| simpl; lia]. }
  destruct (Z.le_gt_cases r 65535).
  { rewrite encode_three
    by (lia || (unfold valid_rune, MaxRune; split; [lia| assumption])).
    split; [repeat constructor; zdiv| simpl; lia]. }
  rewrite encode_four by (unfold MaxRune in *; lia).
  unfold MaxRune in *. split; [repeat constructor; zdiv| simpl; lia].
Qed.

Lemma byte_high : forall b, (128 <= b < 256)%Z ->
  Ascii.eqb (byte_of b) bslash = false /\ Ascii.eqb (byte_of b) dqc = false /\
  byte_val (byte_of b) = b.
Proof.
  intros b Hb. assert (Hv : byte_val (byte_of b) = b) by (apply byte_val_of; lia).
  split; [|split; [|exact Hv]].
  - destruct (Ascii.eqb_spec (byte_of b) bslash) as [E|_]; [|reflexivity].
    rewrite E in Hv. change (byte_val bslash) with 92%Z in Hv. lia.
  - destruct (Ascii.eqb_spec (byte_of b) dqc) as [E|_]; [|reflexivity].
    rewrite E in Hv. change (byte_val dqc) with 34%Z in Hv. lia.
Qed.

Lemma scan_string_plain : forall c rest,
  Ascii.eqb c dqc = false -> Ascii.eqb c bslash = false -> (32 <= byte_val c)%Z ->
  scan_string (String c rest) =
  option_map (fun '(b, t) => (String c b, t)) (scan_string rest).
Proof.
  intros c rest H1 H2 H3. cbn [scan_string]. rewrite H1, H2.
  replace (byte_val c <? 32)%Z with false by (symmetry; apply Z.ltb_ge; lia).
  reflexivity.
Qed.

Lemma option_map_id_pair : forall (x : option (string * string)),
  option_map (fun '(b, t) => (b, t)) x = x.
Proof. intros [[b t]|]; reflexivity. Qed.

Lemma scan_high : forall l Y, Forall (fun b => 128 <= b < 256)%Z l ->
  scan_string (string_of_bytes l ++ Y) =
  option_map (fun '(b, t) => (string_of_bytes l ++ b, t)) (scan_string Y).
Proof.
  induction l as [|a l IH]; intros Y Hl.
  - simpl. symmetry; apply option_map_id_pair.
  - inversion Hl as [|? ? Ha Hl']; subst.
    destruct (byte_high a Ha) as [E1 [E2 E3]].
    change (string_of_bytes (a :: l) ++ Y) with (String (byte_of a) (string_of_bytes l ++ Y)).
    rewrite scan_string_plain by (assumption || lia).
    rewrite (IH Y Hl'). destruct (scan_string Y) as [[b t]|]; reflexivity.
Qed.

Lemma step_high : forall c rest, (128 <= byte_val c)%Z ->
  unquote_step (String c rest) =
  let (rr, size) := decode_rune (String c rest) in
  Some (string_of_bytes (encode_rune rr), drop size (String c rest)).
Proof.
  intros c rest H. unfold unquote_step.
  destruct (Ascii.eqb_spec c bslash) as [->|_];
    [change (byte_val bslash) with 92%Z in H; lia|].
  destruct (Ascii.eqb_spec c dqc) as [->|_];
    [change (byte_val dqc) with 34%Z in H; lia|].
  replace (byte_val c <? 32)%Z with false by (symmetry; apply Z.ltb_ge; lia).
  replace (byte_val c <? 128)%Z with false by (symmetry; apply Z.ltb_ge; lia).
  reflexivity.
Qed.

Lemma fast_high : forall f c rest, (128 <= byte_val c)%Z ->
  fast_len (S f) (String c rest) =
  let (rr, size) := decode_rune (String c rest) in
  if (rr =? RuneError)%Z && (size =? 1)%nat then O
  else (size + fast_len f (drop size (String c rest)))%nat.
Proof.
  intros f c rest H. cbn [fast_len].
  destruct (Ascii.eqb_spec c bslash) as [->|_];
    [change (byte_val bslash) with 92%Z in H; lia|].
  destruct (Ascii.eqb_spec c dqc) as [->|_];
    [change (byte_val dqc) with 34%Z in H; lia|].
  replace (byte_val c <? 32)%Z with false by (symmetry; apply Z.ltb_ge; lia).
  replace (byte_val c <? 128)%Z with false by (symmetry; apply Z.ltb_ge; lia).
  reflexivity.
Qed.

(** The pieces of runes above ASCII copied as they are. *)
Lemma high_cases : forall r Y, valid_rune r -> (128 <= r)%Z ->
  exists b0 bs, encode_rune r = b0 :: bs /\ (128 <= b0 < 256)%Z /\
  string_of_bytes (encode_rune r) ++ Y = String (byte_of b0) (string_of_bytes bs ++ Y) /\
  decode_rune (string_of_bytes (encode_rune r) ++ Y) = (r, List.length (encode_rune r)) /\
  drop (List.length (encode_rune r)) (string_of_bytes (encode_rune r) ++ Y) = Y /\
  (2 <= List.length (encode_rune r))%nat.
Proof.
  intros r Y Hv Hr. destruct (enc_high r Hv Hr) as [Hf Hl].
  pose proof (decode_encode r Y Hv) as Hd.
  pose proof (drop_app (string_of_bytes (encode_rune r)) Y) as Hdr.
  rewrite length_string_of_bytes in Hdr.
  destruct (encode_rune r) as [|b0 bs]; [simpl in Hl; lia|].
  inversion Hf; subst. exists b0, bs. repeat split; try assumption; lia.
Qed.

Lemma high_step : forall r Y, valid_rune r -> (128 <= r)%Z ->
  unquote_step (string_of_bytes (encode_rune r) ++ Y) =
  Some (string_of_bytes (encode_rune r), Y).
Proof.
  intros r Y Hv Hr.
  destruct (high_cases r Y Hv Hr) as [b0 [bs [E [Hb [Hs [Hd [Hdr _]]]]]]].
  rewrite Hs. destruct (byte_high b0 Hb) as [_ [_ Hv0]].
  rewrite step_high by lia. rewrite <- Hs, Hd, Hdr. reflexivity.
Qed.

Lemma high_fast : forall r f Y, valid_rune r -> (128 <= r)%Z ->
  fast_len (S f) (string_of_bytes (encode_rune r) ++ Y) =
  (List.length (encode_rune r) + fast_len f Y)%nat.
Proof.
  intros r f Y Hv Hr.
  destruct (high_cases r Y Hv Hr) as [b0 [bs [E [Hb [Hs [Hd [Hdr Hl]]]]]]].
  rewrite Hs. destruct (byte_high b0 Hb) as [_ [_ Hv0]].
  rewrite fast_high by lia. rewrite <- Hs, Hd, Hdr.
  replace (List.length (encode_rune r) =? 1)%nat with false
    by (symmetry; apply Nat.eqb_neq; lia).
  rewrite andb_false_r. reflexivity.
Qed.

(** What one piece does to the scanner, to [unquoteBytes]'s rewriting
    loop and to its first loop. *)
Lemma piece_scan : forall r Y, valid_rune r ->
  scan_string (piece r ++ Y) =
  option_map (fun '(b, t) => (piece r ++ b, t)) (scan_string Y).
Proof.
  intros r Y Hv.
  destruct (Z.ltb_spec r 128) as [Hlt|Hge].
  { apply ascii_scan. destruct Hv; lia. }
  destruct (Z.eqb_spec r 8232) as [->|N1]; [reflexivity|].
  destruct (Z.eqb_spec r 8233) as [->|N2]; [reflexivity|].
  assert (Hp : piece r = string_of_bytes (encode_rune r)).
  { unfold piece. replace (r <? 128)%Z with false by (symmetry; apply Z.ltb_ge; lia).
    replace (r =? 8232)%Z with false by (symmetry; apply Z.eqb_neq; lia).
    replace (r =? 8233)%Z with false by (symmetry; apply Z.eqb_neq; lia).
    reflexivity. }
  rewrite Hp. apply scan_high. apply enc_high; assumption.
Qed.

Lemma piece_step : forall r Y, valid_rune r ->
  unquote_step (piece r ++ Y) = Some (string_of_bytes (encode_rune r), Y).
Proof.
  intros r Y Hv.
  destruct (Z.ltb_spec r 128) as [Hlt|Hge].
  { rewrite ascii_step by (destruct Hv; lia).
    rewrite encode_one by (destruct Hv; lia). reflexivity. }
  destruct (Z.eqb_spec r 8232) as [->|N1].
  { cbv -[drop]. rewrite !drop_cons, drop_zero. reflexivity. }
  destruct (Z.eqb_spec r 8233) as [->|N2].
  { cbv -[drop]. rewrite !drop_cons, drop_zero. reflexivity. }
  assert (Hp : piece r = string_of_bytes (encode_rune r)).
  { unfold piece. replace (r <? 128)%Z with false by (symmetry; apply Z.ltb_ge; lia).
    replace (r =? 8232)%Z with false by (symmetry; apply Z.eqb_neq; lia).
    replace (r =? 8233)%Z with false by (symmetry; apply Z.eqb_neq; lia).
    reflexivity. }
  rewrite Hp. apply high_step; assumption.
Qed.

Lemma raw_piece : forall r, valid_rune r -> raw r = true ->
  piece r = string_of_bytes (encode_rune r).
Proof.
  intros r Hv H. unfold raw in H. unfold piece.
  destruct (Z.ltb_spec r 128) as [Hlt|Hge].
  - replace (128 <=? r)%Z with false in H by (symmetry; apply Z.leb_gt; lia).
    rewrite andb_false_l, orb_false_r in H. simpl andb in H. rewrite H.
    rewrite encode_one by (destruct Hv; lia). reflexivity.
  - replace (128 <=? r)%Z with true in H by (symmetry; apply Z.leb_le; lia).
    rewrite andb_false_l in H. simpl in H. apply negb_true_iff in H.
    rewrite H. reflexivity.
Qed.

Lemma piece_fast : forall r f Y, valid_rune r ->
  fast_len (S f) (piece r ++ Y) =
  if raw r then (String.length (piece r) + fast_len f Y)%nat else O.
Proof.
  intros r f Y Hv.
  destruct (Z.ltb_spec r 128) as [Hlt|Hge].
  { rewrite ascii_fast by (destruct Hv; lia). unfold raw.
    replace (r <? 128)%Z with true by (symmetry; apply Z.ltb_lt; lia).
    replace (128 <=? r)%Z with false by (symmetry; apply Z.leb_gt; lia).
    rewrite orb_false_r. simpl andb.
    destruct (htmlSafe r) eqn:Hs; [|reflexivity].
    unfold piece. replace (r <? 128)%Z with true by (symmetry; apply Z.ltb_lt; lia).
    rewrite Hs. reflexivity. }
  destruct (Z.eqb_spec r 8232) as [->|N1]; [reflexivity|].
  destruct (Z.eqb_spec r 8233) as [->|N2]; [reflexivity|].
  assert (Hr : raw r = true).
  { unfold raw. replace (128 <=? r)%Z with true by (symmetry; apply Z.leb_le; lia).
    replace (r =? 8232)%Z with false by (symmetry; apply Z.eqb_neq; lia).
    replace (r =? 8233)%Z with false by (symmetry; apply Z.eqb_neq; lia).
    apply orb_true_r. }
  rewrite Hr, (raw_piece r Hv Hr), length_string_of_bytes.
  apply high_fast; assumption.
Qed.

Lemma piece_nonempty : forall r, valid_rune r -> exists c t, piece r = String c t.
Proof.
  intros r Hv. destruct (raw r) eqn:Hr.
  - rewrite (raw_piece r Hv Hr). pose proof (encode_rune_length r).
    destruct (encode_rune r) as [|b bs]; [simpl in H; lia|].
    exists (byte_of b), (string_of_bytes bs). reflexivity.
  - destruct (Z.ltb_spec r 128) as [Hlt|Hge].
    + assert (Hs : htmlSafe r = false).
      { unfold raw in Hr. apply orb_false_iff in Hr as [H1 _].
        replace (r <? 128)%Z with true in H1 by (symmetry; apply Z.ltb_lt; lia).
        exact H1. }
      destruct (ascii_escaped r ltac:(destruct Hv; lia) Hs) as [t Ht].
      exists bslash, t; exact Ht.
    + unfold piece. replace (r <? 128)%Z with false by (symmetry; apply Z.ltb_ge; lia).
      destruct ((r =? 8232)%Z || (r =? 8233)%Z); [eexists; eexists; reflexivity|].
      pose proof (encode_rune_length r).
      destruct (encode_rune r) as [|b bs]; [simpl in H; lia|].
      exists (byte_of b), (string_of_bytes bs). reflexivity.
Qed.

Lemma piece_length : forall r, valid_rune r -> (1 <= String.length (piece r))%nat.
Proof. intros r Hv. destruct (piece_nonempty r Hv) as [c [t ->]]. simpl; lia. Qed.

Lemma first_class_size : forall b sz lo hi,
  first_class b = LMulti sz lo hi -> (sz <= 4)%nat.
Proof.
  intros b sz lo hi. unfold first_class.
  repeat match goal with |- context [if ?c then _ else _] => destruct c end;
    intros H; inversion H; lia.
Qed.

(** [DecodeRuneInString] reads at most [utf8.UTFMax] bytes. *)
Lemma decode_take4 : forall s, decode_rune (take 4 s) = decode_rune s.
Proof.
  intros s. destruct s as [|c0 [|c1 [|c2 [|c3 rest]]]]; try reflexivity.
  assert (Ht : take 4 (String c0 (String c1 (String c2 (String c3 rest))))
               = String c0 (String c1 (String c2 (String c3 ""))))
    by (destruct rest; reflexivity).
  rewrite Ht.
  unfold decode_rune.
  destruct (first_class (byte_val c0)) as [| |sz lo hi] eqn:E; try reflexivity.
  apply first_class_size in E.
  replace (String.length (String c0 (String c1 (String c2 (String c3 "")))) <? sz)%nat
    with false by (symmetry; apply Nat.ltb_ge; simpl; lia).
  replace (String.length (String c0 (String c1 (String c2 (String c3 rest)))) <? sz)%nat
    with false by (symmetry; apply Nat.ltb_ge; simpl; lia).
  reflexivity.
Qed.

Lemma take_zero : forall s, take 0 s = "".
Proof. intros [|c s]; reflexivity. Qed.

Lemma take_app_add : forall p k Y,
  take (String.length p + k) (p ++ Y) = (p ++ take k Y)%string.
Proof.
  unfold take. induction p as [|c p IH]; intros k Y; [reflexivity|].
  simpl. rewrite IH. reflexivity.
Qed.

Lemma drop_app_add : forall p k Y, drop (String.length p + k) (p ++ Y) = drop k Y.
Proof.
  induction p as [|c p IH]; intros k Y; [reflexivity|].
  simpl String.length. simpl append. rewrite Nat.add_succ_l, drop_cons. apply IH.
Qed.

Lemma body_of_cons : forall r rs, body_of (r :: rs) = (piece r ++ body_of rs)%string.
Proof. reflexivity. Qed.

(** [appendString] on the UTF-8 encoding of scalar values writes their
    pieces. *)
Lemma quote_runes : forall rs f, Forall valid_rune rs ->
  (String.length (string_of_runes rs) <= f)%nat ->
  quote_fuel f (string_of_runes rs) = body_of rs.
Proof.
  induction rs as [|r rs IH]; intros f Hv Hf; [destruct f; reflexivity|].
  inversion Hv as [|? ? Hr Hrs]; subst.
  rewrite string_of_runes_cons in *. rewrite length_str_app, length_string_of_bytes in Hf.
  pose proof (encode_rune_length r) as Hl.
  destruct f as [|f]; [lia|].
  destruct (Z.ltb_spec r 128) as [Hlt|Hge].
  - rewrite encode_one in * by (destruct Hr; lia).
    change (string_of_bytes [r] ++ string_of_runes rs)
      with (String (byte_of r) (string_of_runes rs)).
    cbn [quote_fuel]. rewrite byte_val_of by (destruct Hr; lia).
    replace (r <? 128)%Z with true by (symmetry; apply Z.ltb_lt; lia).
    rewrite body_of_cons. unfold piece.
    replace (r <? 128)%Z with true by (symmetry; apply Z.ltb_lt; lia).
    rewrite IH by (assumption || (simpl in Hf; lia)). reflexivity.
  - destruct (high_cases r (string_of_runes rs) Hr ltac:(lia))
      as [b0 [bs [E [Hb [Hs [Hd [Hdr Hl2]]]]]]].
    destruct (byte_high b0 Hb) as [_ [_ Hv0]].
    rewrite Hs. cbn [quote_fuel]. rewrite Hv0.
    replace (b0 <? 128)%Z with false by (symmetry; apply Z.ltb_ge; lia).
    rewrite <- Hs. rewrite decode_take4, Hd.
    replace (List.length (encode_rune r) =? 1)%nat with false
      by (symmetry; apply Nat.eqb_neq; lia).
    rewrite andb_false_r. rewrite body_of_cons.
    assert (Hq : quote_fuel f (drop (List.length (encode_rune r))
                   (string_of_bytes (encode_rune r) ++ string_of_runes rs)) = body_of rs)
      by (rewrite Hdr; apply IH; [assumption| lia]).
    rewrite Hq. unfold piece.
    replace (r <? 128)%Z with false by (symmetry; apply Z.ltb_ge; lia).
    destruct ((r =? 8232)%Z || (r =? 8233)%Z); [reflexivity|].
    f_equal. rewrite <- (length_string_of_bytes (encode_rune r)). apply take_app.
Qed.

(** The scanner runs over the written pieces to the closing quote. *)
Lemma scan_body : forall rs Y, Forall valid_rune rs ->
  scan_string (body_of rs ++ Y) =
  option_map (fun '(b, t) => (body_of rs ++ b, t)) (scan_string Y).
Proof.
  induction rs as [|r rs IH]; intros Y Hv.
  - simpl. symmetry; apply option_map_id_pair.
  - inversion Hv as [|? ? Hr Hrs]; subst.
    rewrite body_of_cons, str_app_assoc, piece_scan by exact Hr.
    rewrite (IH Y Hrs). destruct (scan_string Y) as [[b t]|]; [|reflexivity].
    simpl. rewrite str_app_assoc. reflexivity.
Qed.

(** The rewriting loop of [unquoteBytes] gives back the encoded runes. *)
Lemma slow_body : forall rs F, Forall valid_rune rs ->
  (String.length (body_of rs) < F)%nat ->
  unquote_slow F (body_of rs) = Some (string_of_runes rs).
Proof.
  induction rs as [|r rs IH]; intros F Hv HF.
  - destruct F; [lia| reflexivity].
  - inversion Hv as [|? ? Hr Hrs]; subst.
    destruct F as [|F]; [lia|].
    rewrite body_of_cons in *. rewrite length_str_app in HF.
    pose proof (piece_length r Hr) as Hl.
    pose proof (piece_step r (body_of rs) Hr) as Hs.
    destruct (piece_nonempty r Hr) as [c [t Hp]].
    rewrite Hp in Hs |- *. change (String c t ++ body_of rs) with (String c (t ++ body_of rs)) in *.
    cbn [unquote_slow]. rewrite Hs. rewrite (IH F Hrs) by lia.
    rewrite string_of_runes_cons. reflexivity.
Qed.

(** Both loops of [unquoteBytes] together, for any fuel that suffices. *)
Lemma unquote_gen : forall rs f F, Forall valid_rune rs ->
  (String.length (body_of rs) <= f)%nat -> (String.length (body_of rs) < F)%nat ->
  (if (fast_len f (body_of rs) =? String.length (body_of rs))%nat
   then Some (body_of rs)
   else option_map (fun t => take (fast_len f (body_of rs)) (body_of rs) ++ t)
                   (unquote_slow F (drop (fast_len f (body_of rs)) (body_of rs))))
  = Some (string_of_runes rs).
Proof.
  induction rs as [|r rs IH]; intros f F Hv Hf HF.
  - assert (H0 : fast_len f "" = O) by (destruct f; reflexivity).
    simpl body_of. rewrite H0. reflexivity.
  - inversion Hv as [|? ? Hr Hrs]; subst.
    pose proof (piece_length r Hr) as Hl.
    rewrite body_of_cons in *. rewrite length_str_app in Hf, HF.
    destruct f as [|f]; [lia|].
    rewrite piece_fast by exact Hr.
    destruct (raw r) eqn:Er.
    + specialize (IH f F Hrs ltac:(lia) ltac:(lia)).
      rewrite (raw_piece r Hr Er) in *.
      set (P := string_of_bytes (encode_rune r)) in *.
      set (B := body_of rs) in *.
      set (k := fast_len f B) in *.
      rewrite length_str_app, take_app_add, drop_app_add.
      rewrite string_of_runes_cons. fold P.
      destruct (Nat.eqb_spec k (String.length B)) as [E|E].
      * rewrite E, Nat.eqb_refl. injection IH as IH. rewrite IH. reflexivity.
      * replace (String.length P + k =? String.length P + String.length B)%nat with false
          by (symmetry; apply Nat.eqb_neq; lia).
        destruct (unquote_slow F (drop k B)) as [t|]; [|discriminate].
        simpl in IH |- *. injection IH as IH. rewrite <- IH, str_app_assoc. reflexivity.
    + replace (0 =? String.length (piece r ++ body_of rs))%nat with false
        by (symmetry; apply Nat.eqb_neq; rewrite length_str_app; lia).
      rewrite take_zero, drop_zero.
      rewrite <- body_of_cons. rewrite slow_body by (assumption || (simpl; rewrite length_str_app; lia)).
      reflexivity.
Qed.

Lemma unquote_body_runes : forall rs, Forall valid_rune rs ->
  unquote_body (body_of rs) = Some (string_of_runes rs).
Proof.
  intros rs Hv. unfold unquote_body.
  apply unquote_gen; [exact Hv| lia| lia].
Qed.

(** A string literal written by [appendString] is read back by the
    decoder of a [string] element. *)
Lemma decode_elem_quote : forall s Y, utf8_valid s ->
  decode_elem (quote_string s ++ Y) = Some (s, Y).
Proof.
  intros s Y Hs. unfold utf8_valid in Hs.
  pose proof (runes_valid s) as Hv.
  unfold quote_string. rewrite <- Hs at 1 2.
  rewrite quote_runes by (assumption || lia).
  change (String dqc (body_of (runes s) ++ String dqc "") ++ Y)
    with (String dqc ((body_of (runes s) ++ String dqc "") ++ Y)).
  unfold decode_elem. cbv beta iota. rewrite Ascii.eqb_refl.
  rewrite str_app_assoc. change (String dqc "" ++ Y) with (String dqc Y).
  rewrite scan_body by exact Hv.
  replace (scan_string (String dqc Y)) with (Some (""%string, Y))
    by (cbn [scan_string]; rewrite Ascii.eqb_refl; reflexivity).
  cbn [option_map]. rewrite str_app_nil_r, unquote_body_runes by exact Hv.
  rewrite Hs. reflexivity.
Qed.

Lemma skip_ws_quote : forall s Y, skip_ws (quote_string s ++ Y) = (quote_string s ++ Y)%string.
Proof. reflexivity. Qed.

Lemma concat_cons2 : forall x y l,
  String.concat "," (x :: y :: l) = (x ++ "," ++ String.concat "," (y :: l))%string.
Proof. reflexivity. Qed.

(** The elements of a marshalled non-empty list, up to the closing bracket. *)
Lemma decode_elems_quote : forall xs x f Y, Forall utf8_valid (x :: xs) ->
  (List.length xs < f)%nat ->
  decode_elems f (String.concat "," (map quote_string (x :: xs)) ++ "]" ++ Y) =
  Some (x :: xs, Y).
Proof.
  induction xs as [|x' xs IH]; intros x f Y Hv Hf; destruct f as [|f]; try lia;
    inversion Hv as [|? ? Hx Hxs]; subst.
  - simpl map. change (String.concat "," [quote_string x]) with (quote_string x).
    cbn [decode_elems]. rewrite skip_ws_quote, decode_elem_quote by exact Hx.
    reflexivity.
  - simpl map. rewrite concat_cons2, !str_app_assoc.
    cbn [decode_elems]. rewrite skip_ws_quote, decode_elem_quote by exact Hx.
    change (skip_ws ("," ++ String.concat "," (quote_string x' :: map quote_string xs) ++ "]" ++ Y))
      with (String "," (String.concat "," (quote_string x' :: map quote_string xs) ++ "]" ++ Y)).
    cbv beta iota. rewrite Ascii.eqb_refl.
    change (quote_string x' :: map quote_string xs) with (map quote_string (x' :: xs)).
    rewrite IH by (assumption || (simpl in Hf; lia)). reflexivity.
Qed.

Lemma concat_length : forall xs x,
  (List.length xs < String.length (String.concat "," (map quote_string (x :: xs))))%nat.
Proof.
  induction xs as [|x' xs IH]; intros x.
  - simpl. unfold quote_string. simpl. lia.
  - specialize (IH x').
    change (map quote_string (x' :: xs)) with (quote_string x' :: map quote_string xs) in IH.
    change (map quote_string (x :: x' :: xs))
      with (quote_string x :: quote_string x' :: map quote_string xs).
    rewrite concat_cons2, !length_str_app. change (String.length ",") with 1%nat.
    simpl List.length. lia.
Qed.

Lemma unmarshal_marshal : forall tags,
  match tags with Some l => Forall utf8_valid l | None => True end ->
  unmarshal_strings (marshal_strings tags) = Some tags.
Proof.
  intros [l|] Hv; [|reflexivity].
  destruct l as [|x xs]; [reflexivity|].
  unfold marshal_strings.
  change ("[" ++ String.concat "," (map quote_string (x :: xs)) ++ "]")
    with (String "[" (String.concat "," (map quote_string (x :: xs)) ++ "]")).
  unfold unmarshal_strings.
  change (skip_ws (String "[" (String.concat "," (map quote_string (x :: xs)) ++ "]")))
    with (String "[" (String.concat "," (map quote_string (x :: xs)) ++ "]")).
  cbv beta iota. rewrite Ascii.eqb_refl.
  set (C := String.concat "," (map quote_string (x :: xs))).
  assert (Hq : exists t, C = String dqc t) by (unfold C; destruct xs; eexists; reflexivity).
  destruct Hq as [t Ht].
  assert (Hda : decode_array (C ++ "]") = Some (x :: xs, ""%string)).
  { unfold decode_array.
    assert (Hskip : skip_ws (C ++ "]") = (C ++ "]")%string) by (rewrite Ht; reflexivity).
    rewrite Hskip. rewrite Ht.
    change (String dqc t ++ "]") with (String dqc (t ++ "]")). cbv beta iota.
    replace (Ascii.eqb dqc "]") with false by reflexivity.
    change (String dqc (t ++ "]")) with (String dqc t ++ "]"). rewrite <- Ht.
    pose proof (concat_length xs x) as Hl. fold C in Hl.
    pose proof (decode_elems_quote xs x (String.length (C ++ "]")) "" Hv) as HD.
    change ("]" ++ "") with "]" in HD. apply HD. rewrite length_str_app. lia. }
  rewrite Hda. reflexivity.
Qed.

(** The [tags] column round trip. [SaveAnalysis] stores
    [json.Marshal(result.Tags)] and the scan loop of [ListRelevant] reads
    the column back into [item.Tags] with [json.Unmarshal]: when every tag
    is valid UTF-8, the tags read are exactly the tags saved, a nil list
    staying nil and an empty list staying empty. *)
Theorem tags_column_round_trip : forall tags,
  match tags with Some l => Forall utf8_valid l | None => True end ->
  read_tags (Some (marshal_strings tags)) = tags.
Proof.
  intros tags Hv. unfold read_tags.
  replace (String.eqb (marshal_strings tags) "") with false
    by (destruct tags as [[|x xs]|]; reflexivity).
  rewrite unmarshal_marshal by exact Hv. reflexivity.
Qed.

End JsonProofs.

(* ================================================================== *)
(** * Proofs: composing [trimText] *)

Module TrimTextExtraProofs.

Import Utf8 Utf8Proofs AnalysisText TrimTextProofs.

(** [trimText] is idempotent: its output already fits the bound, so a
    second call with the same bound returns it unchanged. *)
Theorem trimText_idempotent : forall s max,
  trimText (trimText s max) max = trimText s max.
Proof.
  intros s max. destruct (trimText_spec s max) as [Hb _].
  set (out := trimText s max) in *.
  destruct (trimText_spec out max) as [_ [He _]]. exact (He Hb).
Qed.

End TrimTextExtraProofs.


(* ================================================================== *)
(** * Proofs: a fenced verdict through [Evaluate] *)

Module EvaluateProofs.

Import GoStrings Utf8 Utf8Proofs AnalysisText Analysis AnalysisClient Json
       CleanupProofs CleanupExtraProofs JsonProofs.
Local Open Scope string_scope.


Definition noy (c : ascii) : bool := negb (Ascii.eqb c "y").

(** The three bytes y, double quote, colon: the end of the category key
    followed by its colon. *)
Definition pat : string := String "y" (String dqc ":").

Lemma str_forallb_app : forall p a b,
  Examples.str_forallb p (a ++ b) = Examples.str_forallb p a && Examples.str_forallb p b.
Proof.
  intros p a b. induction a as [|c a IH]; [reflexivity|].
  simpl. rewrite IH, andb_assoc. reflexivity.
Qed.

Lemma skip_ws_app : forall w Y, Examples.str_forallb is_ws w = true ->
  skip_ws (w ++ Y) = skip_ws Y.
Proof.
  induction w as [|c w IH]; intros Y H; [reflexivity|].
  simpl in H. apply andb_true_iff in H as [H1 H2].
  simpl. rewrite H1. apply IH, H2.
Qed.

Lemma ws_noy : forall w, Examples.str_forallb is_ws w = true -> Examples.str_forallb noy w = true.
Proof.
  induction w as [|c w IH]; intros H; [reflexivity|].
  simpl in H |- *. apply andb_true_iff in H as [H1 H2].
  rewrite IH by exact H2. rewrite andb_true_r.
  unfold is_ws in H1. unfold noy.
  repeat (apply orb_true_iff in H1 as [H1|H1]);
    apply Ascii.eqb_eq in H1; subst c; reflexivity.
Qed.

Lemma prefix_forallb : forall q p t,
  String.prefix p t = true -> Examples.str_forallb q t = true -> Examples.str_forallb q p = true.
Proof.
  intros q. induction p as [|c p IH]; intros t Hp Ht; [reflexivity|].
  destruct t as [|d t]; [discriminate|].
  simpl in Hp. destruct (ascii_dec c d) as [<-|]; [|discriminate].
  simpl in Ht |- *. apply andb_true_iff in Ht as [H1 H2].
  rewrite H1. apply (IH t Hp H2).
Qed.

(** A pattern with a [y] does not occur in a text without one. *)
Lemma Contains_noy : forall s p,
  Examples.str_forallb noy s = true -> Examples.str_forallb noy p = false -> Contains s p = false.
Proof.
  induction s as [|c s IH]; intros p Hs Hp.
  - destruct p; [discriminate Hp| reflexivity].
  - rewrite Contains_cons. apply orb_false_iff. split.
    + destruct (String.prefix p (String c s)) eqn:E; [|reflexivity].
      rewrite (prefix_forallb noy p _ E Hs) in Hp. discriminate.
    + simpl in Hs. apply andb_true_iff in Hs as [_ Hs]. apply IH; assumption.
Qed.

(** A pattern that starts with [y] cannot start inside a text without one. *)
Lemma Contains_skip_noy : forall a Z p,
  Examples.str_forallb noy a = true -> Contains (a ++ Z) (String "y" p) = Contains Z (String "y" p).
Proof.
  induction a as [|c a IH]; intros Z p Ha; [reflexivity|].
  simpl in Ha. apply andb_true_iff in Ha as [H1 H2].
  change (String c a ++ Z) with (String c (a ++ Z)). rewrite Contains_cons.
  rewrite IH by exact H2.
  replace (String.prefix (String "y" p) (String c (a ++ Z))) with false; [reflexivity|].
  cbn [String.prefix]. destruct (ascii_dec "y" c) as [<-|]; [discriminate H1|reflexivity].
Qed.

Lemma prefix_app_l : forall b c s, String.prefix (b ++ c) s = true -> String.prefix b s = true.
Proof.
  induction b as [|x b IH]; intros c s H; [destruct s; reflexivity|].
  destruct s as [|y s]; [discriminate|].
  simpl in H |- *. destruct (ascii_dec x y); [apply (IH c s H)| discriminate].
Qed.

Lemma prefix_Contains : forall b s, String.prefix b s = true -> Contains s b = true.
Proof. intros b [|c s] H; unfold Contains; rewrite H; reflexivity. Qed.

Lemma prefix_sub : forall a s b c, String.prefix (a ++ b ++ c) s = true -> Contains s b = true.
Proof.
  induction a as [|x a IH]; intros s b c H.
  - apply prefix_Contains, (prefix_app_l b c), H.
  - destruct s as [|y s]; [discriminate|].
    simpl in H. destruct (ascii_dec x y); [|discriminate].
    rewrite Contains_cons, (IH s b c H). apply orb_true_r.
Qed.

Lemma Contains_sub : forall s a b c, Contains s (a ++ b ++ c) = true -> Contains s b = true.
Proof.
  induction s as [|x s IH]; intros a b c H.
  - simpl in H. rewrite orb_false_r in H. exact (prefix_sub a "" b c H).
  - rewrite Contains_cons in H. apply orb_true_iff in H as [H|H].
    + exact (prefix_sub a _ b c H).
    + rewrite Contains_cons, (IH a b c H). apply orb_true_r.
Qed.

Lemma category_null_pat : forall s, Contains s pat = false -> Contains s category_null = false.
Proof.
  intros s H. destruct (Contains s category_null) eqn:E; [|reflexivity].
  change category_null with ((dq ++ "categor") ++ pat ++ " null") in E.
  rewrite (Contains_sub s _ _ _ E) in H. discriminate.
Qed.

Lemma high_noy : forall l, Forall (fun b => 128 <= b < 256)%Z l ->
  Examples.str_forallb noy (string_of_bytes l) = true.
Proof.
  induction l as [|b l IH]; intros H; [reflexivity|].
  inversion H as [|? ? Hb Hl]; subst.
  change (string_of_bytes (b :: l)) with (String (byte_of b) (string_of_bytes l)).
  cbn [Examples.str_forallb]. rewrite IH by exact Hl. rewrite andb_true_r.
  unfold noy. destruct (Ascii.eqb_spec (byte_of b) "y") as [E|]; [|reflexivity].
  destruct (byte_high b Hb) as [_ [_ Hv]]. rewrite E in Hv.
  change (byte_val "y") with 121%Z in Hv. lia.
Qed.

(** What one piece written by [appendString] contributes to an
    occurrence of [pat]: only the piece of [y] can start one. *)
Lemma piece_pat : forall r U, valid_rune r ->
  Contains (piece r ++ U) pat =
  ((if (r =? 121)%Z then String.prefix (String dqc ":") U else false) || Contains U pat)%bool.
Proof.
  intros r U Hv.
  destruct (Z.ltb_spec r 128) as [Hlt|Hge].
  { assert (H0 : (0 <= r)%Z) by (destruct Hv; lia). ascii_cases r (reflexivity). }
  replace (r =? 121)%Z with false by (symmetry; apply Z.eqb_neq; lia).
  destruct (Z.eqb_spec r 8232) as [->|N1]; [reflexivity|].
  destruct (Z.eqb_spec r 8233) as [->|N2]; [reflexivity|].
  assert (Hp : piece r = string_of_bytes (encode_rune r)).
  { unfold piece. replace (r <? 128)%Z with false by (symmetry; apply Z.ltb_ge; lia).
    replace (r =? 8232)%Z with false by (symmetry; apply Z.eqb_neq; lia).
    replace (r =? 8233)%Z with false by (symmetry; apply Z.eqb_neq; lia).
    reflexivity. }
  rewrite Hp. unfold pat. rewrite Contains_skip_noy; [reflexivity|].
  apply high_noy, enc_high; [exact Hv| lia].
Qed.

(** No piece starts with a double quote. *)
Lemma piece_not_dq : forall r U V, valid_rune r ->
  String.prefix (String dqc V) (piece r ++ U) = false.
Proof.
  intros r U V Hv.
  destruct (Z.ltb_spec r 128) as [Hlt|Hge].
  { assert (H0 : (0 <= r)%Z) by (destruct Hv; lia). ascii_cases r (reflexivity). }
  destruct (Z.eqb_spec r 8232) as [->|N1]; [reflexivity|].
  destruct (Z.eqb_spec r 8233) as [->|N2]; [reflexivity|].
  assert (Hp : piece r = string_of_bytes (encode_rune r)).
  { unfold piece. replace (r <? 128)%Z with false by (symmetry; apply Z.ltb_ge; lia).
    replace (r =? 8232)%Z with false by (symmetry; apply Z.eqb_neq; lia).
    replace (r =? 8233)%Z with false by (symmetry; apply Z.eqb_neq; lia).
    reflexivity. }
  rewrite Hp.
  destruct (high_cases r U Hv ltac:(lia)) as [b0 [bs [_ [Hb [Hs _]]]]].
  rewrite Hs. destruct (byte_high b0 Hb) as [_ [Hq _]].
  cbn [String.prefix]. destruct (ascii_dec dqc (byte_of b0)) as [E|]; [|reflexivity].
  rewrite <- E, Ascii.eqb_refl in Hq. discriminate.
Qed.

Lemma body_pat : forall rs T, Forall valid_rune rs ->
  String.prefix (String dqc ":") T = false ->
  Contains (body_of rs ++ T) pat = Contains T pat.
Proof.
  induction rs as [|r rs IH]; intros T Hv HT; [reflexivity|].
  inversion Hv as [|? ? Hr Hrs]; subst.
  rewrite body_of_cons, str_app_assoc, piece_pat by exact Hr.
  rewrite IH by assumption.
  replace (String.prefix (String dqc ":") (body_of rs ++ T)) with false.
  { destruct (r =? 121)%Z; reflexivity. }
  destruct rs as [|r' rs']; [symmetry; exact HT|].
  inversion Hrs as [|? ? Hr' _]; subst.
  rewrite body_of_cons, str_app_assoc. symmetry. apply piece_not_dq, Hr'.
Qed.

Lemma quote_body : forall s, utf8_valid s ->
  quote_string s = String dqc (body_of (runes s) ++ String dqc "").
Proof.
  intros s Hs. unfold utf8_valid in Hs.
  pose proof (runes_valid s) as Hv.
  unfold quote_string. rewrite <- Hs at 1 2.
  rewrite quote_runes by (assumption || lia). reflexivity.
Qed.

(** A string literal written by [appendString] and not followed by a
    colon holds no occurrence of [pat]. *)
Lemma quote_pat : forall s Z, utf8_valid s -> String.prefix ":" Z = false ->
  Contains (quote_string s ++ Z) pat = Contains Z pat.
Proof.
  intros s Z Hs HZ. rewrite quote_body by exact Hs.
  change (String dqc (body_of (runes s) ++ String dqc "") ++ Z)
    with (String dqc ((body_of (runes s) ++ String dqc "") ++ Z)).
  rewrite Contains_cons, str_app_assoc.
  rewrite body_pat by (apply runes_valid || exact HZ).
  reflexivity.
Qed.

Lemma tags_pat_cons : forall xs x Z, Forall utf8_valid (x :: xs) ->
  Contains (String.concat "," (map quote_string (x :: xs)) ++ "]" ++ Z) pat = Contains Z pat.
Proof.
  induction xs as [|x' xs IH]; intros x Z Hv; inversion Hv as [|? ? Hx Hxs]; subst.
  - change (String.concat "," (map quote_string [x])) with (quote_string x).
    rewrite quote_pat by (exact Hx || reflexivity). reflexivity.
  - change (map quote_string (x :: x' :: xs))
      with (quote_string x :: map quote_string (x' :: xs)).
    destruct (map quote_string (x' :: xs)) as [|y l] eqn:E; [discriminate|].
    rewrite concat_cons2, !str_app_assoc.
    rewrite quote_pat by (exact Hx || reflexivity).
    change ("," ++ String.concat "," (y :: l) ++ "]" ++ Z)
      with (String "," (String.concat "," (y :: l) ++ "]" ++ Z)).
    rewrite Contains_cons, <- E, IH by exact Hxs. reflexivity.
Qed.

Lemma tags_pat : forall tags Z, Forall utf8_valid tags ->
  Contains (marshal_strings (Some tags) ++ Z) pat = Contains Z pat.
Proof.
  intros [|x xs] Z Hv; [reflexivity|].
  unfold marshal_strings. rewrite !str_app_assoc.
  change ("[" ++ String.concat "," (map quote_string (x :: xs)) ++ "]" ++ Z)
    with (String "[" (String.concat "," (map quote_string (x :: xs)) ++ "]" ++ Z)).
  rewrite Contains_cons, tags_pat_cons by exact Hv. reflexivity.
Qed.

(** The verdict up to its category member, and after it. *)
Definition vpre (w sp : string) (b : bool) : string :=
  "{" ++ w ++ dq ++ "relevant" ++ dq ++ ":" ++ sp ++ (if b then "true" else "false") ++ "," ++ w.

Definition vpost (w sp w' reason : string) (tags : list string) : string :=
  "," ++ w ++ dq ++ "reason" ++ dq ++ ":" ++ sp ++ quote_string reason ++ "," ++
  w ++ dq ++ "tags" ++ dq ++ ":" ++ sp ++ marshal_strings (Some tags) ++ w' ++ "}".

Lemma verdict_split : forall w sp w' cat b reason tags,
  Examples.verdict_json w sp w' cat b reason tags = vpre w sp b ++ cat ++ vpost w sp w' reason tags.
Proof.
  intros. unfold Examples.verdict_json, vpre, vpost. rewrite !str_app_assoc. reflexivity.
Qed.

Lemma skip_pat : forall a Z,
  Examples.str_forallb noy a = true -> Contains (a ++ Z) pat = Contains Z pat.
Proof. intros a Z H. apply Contains_skip_noy, H. Qed.

(** The verdict between its braces. *)
Definition vmid (w sp w' cat : string) (b : bool) (reason : string) (tags : list string) : string :=
  w ++ dq ++ "relevant" ++ dq ++ ":" ++ sp ++ (if b then "true" else "false") ++ "," ++
  w ++ cat ++ "," ++
  w ++ dq ++ "reason" ++ dq ++ ":" ++ sp ++ quote_string reason ++ "," ++
  w ++ dq ++ "tags" ++ dq ++ ":" ++ sp ++ marshal_strings (Some tags) ++ w'.

Ltac skip_noy := rewrite skip_pat by (reflexivity || (apply ws_noy; assumption)).

Lemma vpost_pat : forall w sp w' reason tags,
  Examples.str_forallb is_ws w = true -> Examples.str_forallb is_ws sp = true ->
  Examples.str_forallb is_ws w' = true ->
  utf8_valid reason -> Forall utf8_valid tags ->
  Contains (vpost w sp w' reason tags) pat = false.
Proof.
  intros w sp w' reason tags Hw Hsp Hw' Hr Ht. unfold vpost.
  repeat skip_noy.
  rewrite quote_pat by (exact Hr || reflexivity).
  repeat skip_noy.
  rewrite tags_pat by exact Ht.
  repeat skip_noy. reflexivity.
Qed.

Lemma vpre_noy : forall w sp b,
  Examples.str_forallb is_ws w = true -> Examples.str_forallb is_ws sp = true ->
  Examples.str_forallb noy (vpre w sp b) = true.
Proof.
  intros w sp b Hw Hsp. unfold vpre.
  rewrite !str_forallb_app, (ws_noy w Hw), (ws_noy sp Hsp). destruct b; reflexivity.
Qed.

(** [strings.ReplaceAll] turns the category member of the verdict into
    ["category": ""] and changes nothing else. *)
Lemma ReplaceAll_verdict : forall w sp w' b reason tags,
  Examples.str_forallb is_ws w = true -> Examples.str_forallb is_ws sp = true ->
  Examples.str_forallb is_ws w' = true ->
  utf8_valid reason -> Forall utf8_valid tags ->
  ReplaceAll (Examples.verdict_json w sp w' category_null b reason tags) category_null category_empty
  = Examples.verdict_json w sp w' category_empty b reason tags.
Proof.
  intros w sp w' b reason tags Hw Hsp Hw' Hr Ht.
  rewrite !verdict_split, ReplaceAll_skip.
  - rewrite ReplaceAll_absent; [reflexivity| apply category_null_nonempty|].
    apply category_null_pat, vpost_pat; assumption.
  - apply Contains_noy; [apply vpre_noy; assumption| reflexivity].
Qed.

Lemma IndexByte_first : forall a Z, IndexByte a nl = None ->
  IndexByte (a ++ String nl Z) nl = Some (String.length a).
Proof.
  induction a as [|d a IH]; intros Z H.
  - reflexivity.
  - change (String d a ++ String nl Z) with (String d (a ++ String nl Z)).
    cbn [IndexByte] in H |- *. destruct (Ascii.eqb nl d); [discriminate|].
    assert (E : IndexByte a nl = None) by (destruct (IndexByte a nl); [discriminate| reflexivity]).
    rewrite (IH Z E). reflexivity.
Qed.

(** A fenced JSON object whose opening line is three backquotes followed
    by anything without a newline: [cleanupResponse] drops that line and
    the closing fence, then applies the [category] replacement. *)
Lemma cleanupResponse_fenced_any : forall x mid,
  IndexByte x nl = None ->
  cleanupResponse ((fence ++ x) ++ String nl (String "{" (mid ++ "}") ++ String nl fence))
  = ReplaceAll (String "{" (mid ++ "}")) category_null category_empty.
Proof.
  intros x mid Hx.
  set (body := String "{" (mid ++ "}")).
  set (s := (fence ++ x) ++ String nl (body ++ String nl fence)).
  assert (HT : TrimSpace s = s).
  { apply TrimSpace_id.
    - apply fm_tick.
    - assert (Heq : s = (((fence ++ x) ++ String nl body) ++ String nl "``") ++ "`").
      { unfold s. rewrite !str_app_assoc. reflexivity. }
      rewrite Heq, rev_str_app. apply fm_rev_tick. }
  assert (HP : HasPrefix s fence = true).
  { unfold HasPrefix, s. rewrite str_app_assoc. apply prefix_app_self. }
  assert (HI : IndexByte s nl = Some (String.length (fence ++ x))).
  { apply IndexByte_first. cbn. rewrite Hx. reflexivity. }
  assert (HD : drop (S (String.length (fence ++ x))) s = body ++ String nl fence).
  { assert (E : s = ((fence ++ x) ++ String nl "") ++ (body ++ String nl fence))
      by (unfold s; rewrite (str_app_assoc (fence ++ x) (String nl "")); reflexivity).
    rewrite E. replace (S (String.length (fence ++ x)))
      with (String.length ((fence ++ x) ++ String nl "")) by (rewrite length_str_app; simpl; lia).
    apply drop_app. }
  assert (HS : TrimSuffix (body ++ String nl fence) fence = body ++ String nl "").
  { rewrite <- TrimSuffix_app with (suf := fence). f_equal.
    rewrite str_app_assoc. reflexivity. }
  unfold cleanupResponse. cbv zeta. rewrite HT, HP, HI, HD.
  replace (TrimPrefix (body ++ String nl fence) fence_json) with (body ++ String nl fence)
    by reflexivity.
  replace (TrimPrefix (body ++ String nl fence) fence) with (body ++ String nl fence)
    by reflexivity.
  rewrite HS. unfold body. rewrite TrimSpace_body_nl. reflexivity.
Qed.

Lemma decode_elem_dq : forall R, decode_elem (String dqc R) = scan_literal R.
Proof.
  intros R. unfold decode_elem. rewrite Ascii.eqb_refl. unfold scan_literal.
  destruct (scan_string R) as [[b a]|]; [destruct (unquote_body b)|]; reflexivity.
Qed.

Lemma scan_literal_quote : forall s Y, utf8_valid s ->
  exists R, quote_string s ++ Y = String dqc R /\ scan_literal R = Some (s, Y).
Proof.
  intros s Y Hs. exists ((quote_fuel (String.length s) s ++ String dqc "") ++ Y).
  split; [reflexivity|].
  rewrite <- decode_elem_dq. apply decode_elem_quote, Hs.
Qed.

Lemma pv_string : forall f d V s Y,
  Examples.str_forallb is_ws V = true -> utf8_valid s ->
  parse_value (S f) d (V ++ quote_string s ++ Y) = Some (JString s, Y).
Proof.
  intros f d V s Y HV Hs.
  destruct (scan_literal_quote s Y Hs) as [R [E1 E2]]. rewrite E1.
  cbn [parse_value]. rewrite skip_ws_app by exact HV.
  change (skip_ws (String dqc R)) with (String dqc R).
  cbn iota beta. rewrite E2. reflexivity.
Qed.

Lemma parse_elems_S : forall f d s,
  parse_elems (S f) d s =
  match parse_value f d s with
  | None => None
  | Some (v, after) =>
      match skip_ws after with
      | String c rest =>
          if Ascii.eqb c "," then
            match parse_elems f d rest with
            | Some (vs, t) => Some (v :: vs, t)
            | None => None
            end
          else if Ascii.eqb c "]" then Some ([v], rest)
          else None
      | EmptyString => None
      end
  end.
Proof. reflexivity. Qed.

Lemma parse_array_S : forall f d s,
  parse_array (S f) d s =
  match skip_ws s with
  | String c rest =>
      if Ascii.eqb c "]" then Some (JArray [], rest)
      else match parse_elems f d s with
           | Some (vs, after) => Some (JArray vs, after)
           | None => None
           end
  | EmptyString => None
  end.
Proof. reflexivity. Qed.

Lemma parse_object_S : forall f d s,
  parse_object (S f) d s =
  match skip_ws s with
  | String c rest =>
      if Ascii.eqb c "}" then Some (JObject [], rest)
      else match parse_members f d s with
           | Some (ms, after) => Some (JObject ms, after)
           | None => None
           end
  | EmptyString => None
  end.
Proof. reflexivity. Qed.

Lemma pv_string0 : forall f d s Y, utf8_valid s ->
  parse_value (S f) d (quote_string s ++ Y) = Some (JString s, Y).
Proof. intros f d s Y Hs. exact (pv_string f d "" s Y eq_refl Hs). Qed.

Lemma pv_bool : forall f d V (b : bool) Y,
  Examples.str_forallb is_ws V = true ->
  parse_value (S f) d (V ++ (if b then "true" else "false") ++ Y) = Some (JBool b, Y).
Proof.
  intros f d V b Y HV. cbn [parse_value]. rewrite skip_ws_app by exact HV.
  destruct b.
  - change (skip_ws ("true" ++ Y)) with (String "t" ("rue" ++ Y)).
    assert (D : GoStrings.drop 4 (String "t" ("rue" ++ Y)) = Y) by exact (drop_app "true" Y).
    assert (P : String.prefix "true" (String "t" ("rue" ++ Y)) = true)
      by exact (prefix_app_self "true" Y).
    cbv iota beta. rewrite D, P. reflexivity.
  - change (skip_ws ("false" ++ Y)) with (String "f" ("alse" ++ Y)).
    assert (D : GoStrings.drop 5 (String "f" ("alse" ++ Y)) = Y) by exact (drop_app "false" Y).
    assert (P : String.prefix "false" (String "f" ("alse" ++ Y)) = true)
      by exact (prefix_app_self "false" Y).
    cbv iota beta. rewrite D, P. reflexivity.
Qed.

(** The elements of a marshalled non-empty list of strings. *)
Lemma pe_quote : forall xs x f d Y, Forall utf8_valid (x :: xs) ->
  (List.length xs <= f)%nat ->
  parse_elems (S (S f)) d (String.concat "," (map quote_string (x :: xs)) ++ "]" ++ Y) =
  Some (map JString (x :: xs), Y).
Proof.
  induction xs as [|x' xs IH]; intros x f d Y Hv Hf;
    inversion Hv as [|? ? Hx Hxs]; subst.
  - change (String.concat "," (map quote_string [x])) with (quote_string x).
    cbn [parse_elems].
    rewrite (pv_string0 f d x ("]" ++ Y) Hx).
    reflexivity.
  - destruct f as [|f]; [simpl in Hf; lia|].
    change (map quote_string (x :: x' :: xs))
      with (quote_string x :: map quote_string (x' :: xs)).
    destruct (map quote_string (x' :: xs)) as [|y l] eqn:E; [discriminate|].
    rewrite concat_cons2, !str_app_assoc.
    rewrite parse_elems_S.
    rewrite (pv_string0 (S f) d x ("," ++ String.concat "," (y :: l) ++ "]" ++ Y) Hx).
    change (skip_ws ("," ++ String.concat "," (y :: l) ++ "]" ++ Y))
      with (String "," (String.concat "," (y :: l) ++ "]" ++ Y)).
    cbv iota beta. rewrite <- E.
    rewrite (IH x' f d Y Hxs) by (simpl in Hf; lia). reflexivity.
Qed.

Lemma concat_head : forall x xs Z,
  exists R, String.concat "," (map quote_string (x :: xs)) ++ Z = String dqc R.
Proof. intros x [|x' l] Z; eexists; reflexivity. Qed.

Lemma pv_tags : forall f d V tags Y,
  Examples.str_forallb is_ws V = true -> Forall utf8_valid tags ->
  (maxNestingDepth <? S d)%nat = false -> (List.length tags <= f)%nat ->
  parse_value (S (S (S f))) d (V ++ marshal_strings (Some tags) ++ Y) =
  Some (JArray (map JString tags), Y).
Proof.
  intros f d V tags Y HV Hv Hd Hf. cbn [parse_value]. rewrite skip_ws_app by exact HV.
  unfold marshal_strings. rewrite !str_app_assoc.
  change (skip_ws ("[" ++ String.concat "," (map quote_string tags) ++ "]" ++ Y))
    with (String "[" (String.concat "," (map quote_string tags) ++ "]" ++ Y)).
  cbv iota beta. change (Ascii.eqb "[" "{") with false. change (Ascii.eqb "[" "[") with true.
  cbv iota beta. rewrite Hd.
  destruct tags as [|x xs]; [reflexivity|].
  destruct f as [|f]; [simpl in Hf; lia|].
  destruct (concat_head x xs ("]" ++ Y)) as [R HR].
  rewrite parse_array_S, HR.
  change (skip_ws (String dqc R)) with (String dqc R).
  cbv iota beta. change (Ascii.eqb dqc "]") with false. cbv iota beta.
  rewrite <- HR, pe_quote by (exact Hv || (simpl in Hf; lia)).
  reflexivity.
Qed.

Lemma parse_members_S : forall f d s,
  parse_members (S f) d s =
  match skip_ws s with
  | String c rest =>
      if Ascii.eqb c dqc then
        match scan_literal rest with
        | None => None
        | Some (k, after) =>
            match skip_ws after with
            | String c1 rest1 =>
                if Ascii.eqb c1 ":" then
                  match parse_value f d rest1 with
                  | None => None
                  | Some (v, after1) =>
                      match skip_ws after1 with
                      | String c2 rest2 =>
                          if Ascii.eqb c2 "," then
                            match parse_members f d rest2 with
                            | Some (ms, t) => Some ((k, v) :: ms, t)
                            | None => None
                            end
                          else if Ascii.eqb c2 "}" then Some ([(k, v)], rest2)
                          else None
                      | EmptyString => None
                      end
                  end
                else None
            | EmptyString => None
            end
        end
      else None
  | EmptyString => None
  end.
Proof. reflexivity. Qed.

(** A key the scanner reads back as it is. *)
Definition key_ok (key : string) : Prop :=
  forall Z, scan_literal (key ++ String dqc Z) = Some (key, Z).

Lemma key_relevant : key_ok "relevant".
Proof. intros Z. reflexivity. Qed.
Lemma key_category : key_ok "category".
Proof. intros Z. reflexivity. Qed.
Lemma key_reason : key_ok "reason".
Proof. intros Z. reflexivity. Qed.
Lemma key_tags : key_ok "tags".
Proof. intros Z. reflexivity. Qed.

(** One member of an object: its key, its colon and its value, then the
    comma or the closing brace. *)
Lemma pm_step : forall f d V key R v Y,
  Examples.str_forallb is_ws V = true -> key_ok key -> parse_value f d R = Some (v, Y) ->
  parse_members (S f) d (V ++ dq ++ key ++ dq ++ ":" ++ R) =
  match skip_ws Y with
  | String c2 rest2 =>
      if Ascii.eqb c2 "," then
        match parse_members f d rest2 with
        | Some (ms, t) => Some ((key, v) :: ms, t)
        | None => None
        end
      else if Ascii.eqb c2 "}" then Some ([(key, v)], rest2)
      else None
  | EmptyString => None
  end.
Proof.
  intros f d V key R v Y HV Hk Hv.
  rewrite parse_members_S, skip_ws_app by exact HV.
  change (skip_ws (dq ++ key ++ dq ++ ":" ++ R)) with (String dqc (key ++ String dqc (":" ++ R))).
  cbv iota beta. change (Ascii.eqb dqc dqc) with true. cbv iota beta.
  rewrite Hk. cbv iota beta.
  change (skip_ws (":" ++ R)) with (String ":" R). cbv iota beta.
  change (Ascii.eqb ":" ":") with true. cbv iota beta.
  rewrite Hv. reflexivity.
Qed.

Lemma pv_object : forall f d V R,
  Examples.str_forallb is_ws V = true -> (maxNestingDepth <? S d)%nat = false ->
  parse_value (S f) d (V ++ "{" ++ R) = parse_object f (S d) R.
Proof.
  intros f d V R HV Hd. cbn [parse_value]. rewrite skip_ws_app by exact HV.
  change (skip_ws ("{" ++ R)) with (String "{" R). cbv iota beta.
  change (Ascii.eqb "{" "{") with true. cbv iota beta. rewrite Hd. reflexivity.
Qed.

Lemma pv_object0 : forall f d R, (maxNestingDepth <? S d)%nat = false ->
  parse_value (S f) d ("{" ++ R) = parse_object f (S d) R.
Proof. intros f d R Hd. exact (pv_object f d "" R eq_refl Hd). Qed.

Lemma pm_comma : forall f d V key R v Y,
  Examples.str_forallb is_ws V = true -> key_ok key -> parse_value f d R = Some (v, "," ++ Y) ->
  parse_members (S f) d (V ++ dq ++ key ++ dq ++ ":" ++ R) =
  match parse_members f d Y with
  | Some (ms, t) => Some ((key, v) :: ms, t)
  | None => None
  end.
Proof.
  intros f d V key R v Y HV Hk Hv. rewrite (pm_step f d V key R v _ HV Hk Hv). reflexivity.
Qed.

Lemma pm_last : forall f d V key R v Y,
  Examples.str_forallb is_ws V = true -> key_ok key -> parse_value f d R = Some (v, Y) ->
  skip_ws Y = "}" ->
  parse_members (S f) d (V ++ dq ++ key ++ dq ++ ":" ++ R) = Some ([(key, v)], "").
Proof.
  intros f d V key R v Y HV Hk Hv HY. rewrite (pm_step f d V key R v _ HV Hk Hv), HY.
  reflexivity.
Qed.

Lemma pm_category : forall f d V Y,
  Examples.str_forallb is_ws V = true ->
  parse_members (S (S f)) d (V ++ category_empty ++ "," ++ Y) =
  match parse_members (S f) d Y with
  | Some (ms, t) => Some (("category", JString "") :: ms, t)
  | None => None
  end.
Proof.
  intros f d V Y HV.
  change (category_empty ++ "," ++ Y)
    with (dq ++ "category" ++ dq ++ ":" ++ " " ++ quote_string "" ++ "," ++ Y).
  apply pm_comma; [exact HV| exact key_category|].
  apply pv_string; [reflexivity| reflexivity].
Qed.

(** The members of the verdict as the decoder sees them. *)
Definition verdict_members (b : bool) (cat reason : string) (tags : list string)
  : list (string * JValue) :=
  [("relevant", JBool b); ("category", JString cat); ("reason", JString reason);
   ("tags", JArray (map JString tags))].

Lemma parse_verdict : forall f w sp w' b reason tags,
  Examples.str_forallb is_ws w = true -> Examples.str_forallb is_ws sp = true ->
  Examples.str_forallb is_ws w' = true ->
  utf8_valid reason -> Forall utf8_valid tags ->
  (List.length tags + 9 <= f)%nat ->
  parse_value f 0 (Examples.verdict_json w sp w' category_empty b reason tags) =
  Some (JObject (verdict_members b "" reason tags), "").
Proof.
  intros f w sp w' b reason tags Hw Hsp Hw' Hr Ht Hf.
  destruct (Nat.le_exists_sub 9 f ltac:(lia)) as [g [-> _]].
  assert (Hg : (List.length tags <= g)%nat) by lia. clear Hf.
  replace (g + 9)%nat with (S (S (S (S (S (S (S (S (S g))))))))) by lia.
  unfold Examples.verdict_json.
  change (S (S (S (S (S (S (S (S (S g)))))))))
    with (S (S (S (S (S (S (S (S (S g))))))))).
  rewrite (pv_object0 (S (S (S (S (S (S (S (S g)))))))) 0 _ eq_refl).
  rewrite parse_object_S, skip_ws_app by exact Hw.
  cbv iota beta.
  rewrite (pm_comma _ 1 w "relevant" _ (JBool b) _ Hw key_relevant (pv_bool _ 1 sp b _ Hsp)).
  rewrite (pm_category _ 1 w _ Hw).
  rewrite (pm_comma _ 1 w "reason" _ (JString reason) _ Hw key_reason (pv_string _ 1 sp reason _ Hsp Hr)).
  rewrite (pm_last _ 1 w "tags" _ _ _ Hw key_tags (pv_tags _ 1 sp tags _ Hsp Ht eq_refl Hg)).
  - reflexivity.
  - rewrite skip_ws_app by exact Hw'. reflexivity.
Qed.

Lemma set_cell_end : forall t back, set_cell (List.length back) t back = (back ++ [t])%list.
Proof.
  intros t back. unfold set_cell.
  rewrite firstn_app, firstn_all, Nat.sub_diag, firstn_O, app_nil_r.
  rewrite skipn_all2 by lia. reflexivity.
Qed.

Lemma tag_elems_strings : forall l back,
  decode_tag_elems (List.length back) (map JString l) back = Some (back ++ l)%list.
Proof.
  induction l as [|t l IH]; intros back; [rewrite app_nil_r; reflexivity|].
  cbn [map decode_tag_elems]. rewrite set_cell_end.
  replace (S (List.length back)) with (List.length (back ++ [t])%list)
    by (rewrite length_app; simpl; lia).
  rewrite IH, <- app_assoc. reflexivity.
Qed.

Lemma decode_verdict : forall b cat reason tags,
  decode_result (JObject (verdict_members b cat reason tags)) = Some (mkResult b cat reason tags).
Proof.
  intros b cat reason tags. unfold decode_result, verdict_members.
  cbn [decode_members].
  change (field_of "relevant") with (Some FRelevant).
  change (field_of "category") with (Some FCategory).
  change (field_of "reason") with (Some FReason).
  change (field_of "tags") with (Some FTags).
  cbn [decode_field d_relevant d_category d_reason d_tags_len d_tags_back zero_state].
  destruct tags as [|x xs]; [reflexivity|].
  unfold decode_tags.
  change (map JString (x :: xs)) with (JString x :: map JString xs).
  cbv iota beta. change (JString x :: map JString xs) with (map JString (x :: xs)).
  rewrite (tag_elems_strings (x :: xs) [] : decode_tag_elems 0 _ [] = _).
  unfold result_of. cbn [d_relevant d_category d_reason d_tags_len d_tags_back].
  rewrite app_nil_l, length_map, firstn_app, firstn_all, Nat.sub_diag, firstn_O, app_nil_r.
  reflexivity.
Qed.

Lemma length_marshal : forall tags,
  (List.length tags <= String.length (marshal_strings (Some tags)))%nat.
Proof.
  intros [|x xs]; [simpl; lia|].
  unfold marshal_strings. rewrite !length_str_app.
  pose proof (concat_length xs x).
  change (String.length "[") with 1%nat. change (String.length "]") with 1%nat.
  change (List.length (x :: xs)) with (S (List.length xs)). lia.
Qed.

(** [json.Unmarshal] of the verdict with an empty category. *)
Lemma unmarshal_verdict : forall w sp w' b reason tags,
  Examples.str_forallb is_ws w = true -> Examples.str_forallb is_ws sp = true ->
  Examples.str_forallb is_ws w' = true ->
  utf8_valid reason -> Forall utf8_valid tags ->
  unmarshal_result (Examples.verdict_json w sp w' category_empty b reason tags) =
  Some (mkResult b "" reason tags).
Proof.
  intros w sp w' b reason tags Hw Hsp Hw' Hr Ht. unfold unmarshal_result.
  rewrite parse_verdict by (try assumption;
    pose proof (length_marshal tags);
    unfold Examples.verdict_json; rewrite !length_str_app; cbn [String.length]; lia).
  apply decode_verdict.
Qed.

(** C6. A model response wrapped in a fence (a first line that starts with
    three backquotes, whatever follows them on that line, and a closing
    line of three backquotes) around a verdict object whose category member
    is the text ["category": null], with any whitespace around its other
    members, any [relevant], and any valid UTF-8 reason and tags: the
    normalization [cleanupResponse] strips both fences and rewrites the
    member to ["category": ""], and [Evaluate], with [json.Unmarshal] into
    its [Result] as the decoder, returns that verdict with category [""]
    and no error. *)
Theorem Evaluate_fenced_category_null :
  forall sys fmt c item x w sp w' b reason tags more,
  Ready c = true ->
  IndexByte x nl = None ->
  Examples.str_forallb is_ws w = true -> Examples.str_forallb is_ws sp = true ->
  Examples.str_forallb is_ws w' = true ->
  utf8_valid reason -> Forall utf8_valid tags ->
  let resp := ((fence ++ x) ++ String nl
                 (Examples.verdict_json w sp w' category_null b reason tags ++ String nl fence))%string in
  cleanupResponse resp = Examples.verdict_json w sp w' category_empty b reason tags /\
  snd (Evaluate sys fmt unmarshal_result (fun _ => Some (resp :: more)) c item)
  = inl (mkResult b "" reason tags).
Proof.
  intros sys fmt c item x w sp w' b reason tags more Hc Hx Hw Hsp Hw' Hr Ht resp.
  assert (Hcl : cleanupResponse resp = Examples.verdict_json w sp w' category_empty b reason tags).
  { unfold resp.
    replace (Examples.verdict_json w sp w' category_null b reason tags)
      with (String "{" (vmid w sp w' category_null b reason tags ++ "}"))
      by (unfold vmid, Examples.verdict_json; rewrite !str_app_assoc; reflexivity).
    rewrite cleanupResponse_fenced_any by exact Hx.
    replace (String "{" (vmid w sp w' category_null b reason tags ++ "}"))
      with (Examples.verdict_json w sp w' category_null b reason tags)
      by (unfold vmid, Examples.verdict_json; rewrite !str_app_assoc; reflexivity).
    apply ReplaceAll_verdict; assumption. }
  split; [exact Hcl|].
  unfold Evaluate. rewrite Hc. cbn [negb].
  destruct (client c) as [cli|] eqn:Ec; [|unfold Ready in Hc; rewrite Ec, andb_false_r in Hc; discriminate].
  cbv zeta. cbv beta iota.
  rewrite Hcl, unmarshal_verdict by assumption. reflexivity.
Qed.

End EvaluateProofs.


(* ================================================================== *)
(** * The theorems at concrete inputs *)

Module Witnesses.

Import Rss Analysis Storage Service Observe Examples.
Import GoStrings AnalysisText.
Import PipelineProofs FetchProofs StorageProofs CleanupProofs.

(** C1 at a feed of two newsletters whose first one is already stored. *)
Lemma pollOnce_skips_existing_witness :
  Fetch (now env_ok) (feed env_ok) = Some ([] ++ item_a :: [item_b]) /\
  process_items true env_ok store_a [] = (store_a, []) /\
  row_exists store_a (GUID item_a) = true /\
  process_items true env_ok store_a [item_b]
    = (fst (process_items true env_ok store_a [item_b]),
       snd (process_items true env_ok store_a [item_b])) /\
  exists out,
    process_item true env_ok store_a item_a = (store_a, [EvExists (GUID item_a) out]) /\
    pollOnce true env_ok store_a
    = (fst (process_items true env_ok store_a [item_b]),
       [] ++ EvExists (GUID item_a) out :: snd (process_items true env_ok store_a [item_b])).
Proof.
  assert (H1 : Fetch (now env_ok) (feed env_ok) = Some ([] ++ item_a :: [item_b]))
    by reflexivity.
  assert (H2 : process_items true env_ok store_a [] = (store_a, [])) by reflexivity.
  assert (H3 : row_exists store_a (GUID item_a) = true) by reflexivity.
  assert (H4 : process_items true env_ok store_a [item_b]
    = (fst (process_items true env_ok store_a [item_b]),
       snd (process_items true env_ok store_a [item_b]))) by reflexivity.
  split; [exact H1|]. split; [exact H2|]. split; [exact H3|]. split; [exact H4|].
  exact (pollOnce_skips_existing true env_ok store_a [] item_a [item_b] store_a []
           _ _ H1 H2 H3 H4).
Defined.

(** C3 at a relevant item whose save fails. *)
Lemma save_failure_blocks_notify_witness :
  In (EvSave (GUID item_a) verdict false)
     (snd (process_item true env_save_fails table0 item_a)) /\
  forall g r', ~ In (EvNotify g r') (snd (process_item true env_save_fails table0 item_a)).
Proof.
  assert (H : In (EvSave (GUID item_a) verdict false)
                 (snd (process_item true env_save_fails table0 item_a))).
  { simpl. right; right; left; reflexivity. }
  split; [exact H|].
  exact (save_failure_blocks_notify true env_save_fails table0 item_a verdict H).
Defined.

(** C4 at three items whose middle one fails at [Evaluate]. *)
Lemma failure_isolated_witness :
  let st1 := fst (process_items true env_flaky table0 [item_a]) in
  let e1 := snd (process_items true env_flaky table0 [item_a]) in
  let ek := snd (process_item true env_flaky st1 item_b) in
  let st2 := fst (process_items true env_flaky st1 [item_d]) in
  let e2 := snd (process_items true env_flaky st1 [item_d]) in
  process_items true env_flaky table0 [item_a] = (st1, e1) /\
  process_item true env_flaky st1 item_b = (st1, ek) /\
  failed ek = true /\
  process_items true env_flaky st1 [item_d] = (st2, e2) /\
  (ek = [EvExists (GUID item_b) None] \/
   ek = [EvExists (GUID item_b) (Some false);
         EvEvaluate (GUID item_b) (item_context item_b) None] \/
   (exists r, ek = [EvExists (GUID item_b) (Some false);
                    EvEvaluate (GUID item_b) (item_context item_b) (Some r);
                    EvSave (GUID item_b) r false])) /\
  process_items true env_flaky table0 ([item_a] ++ item_b :: [item_d])
    = (st2, e1 ++ ek ++ e2) /\
  process_items true env_flaky table0 ([item_a] ++ [item_d]) = (st2, e1 ++ e2).
Proof.
  intros st1 e1 ek st2 e2.
  assert (H1 : process_items true env_flaky table0 [item_a] = (st1, e1))
    by reflexivity.
  assert (Hk : process_item true env_flaky st1 item_b = (st1, ek)) by reflexivity.
  assert (Hf : failed ek = true) by reflexivity.
  assert (H2 : process_items true env_flaky st1 [item_d] = (st2, e2)) by reflexivity.
  destruct (failure_isolated true env_flaky table0 [item_a] item_b [item_d]
              st1 e1 st1 ek st2 e2 H1 Hk Hf H2) as [_ [H5 [H3 H4]]].
  split; [exact H1|]. split; [exact Hk|]. split; [exact Hf|].
  split; [exact H2|]. split; [exact H5|]. split; [exact H3| exact H4].
Defined.

(** C5 at a feed that is down, followed by a successful tick. *)
Lemma fetch_failure_no_effect_witness :
  feed env_down = None /\
  pollOnce true env_down store_a = (store_a, []) /\
  run true store_a [env_down; env_ok] = run true store_a [env_ok].
Proof.
  assert (H : feed env_down = None) by reflexivity.
  split; [exact H|].
  exact (fetch_failure_no_effect true env_down store_a [env_ok] H).
Defined.

Section C6Witness.

Local Open Scope string_scope.

(** C6 at a ready client, a response fenced by a first line with [json]
    after the backquotes, a verdict laid out on indented lines, the reason
    [ok] and the single tag [eth]. *)
Lemma Evaluate_fenced_category_null_witness :
  let c := AnalysisClient.NewClient "k" "gpt-4o" "" in
  let w := String nl "  " in
  let w' := String nl "" in
  let item := mkItemContext "t" "l" 0 "s" in
  let resp := ((fence ++ "json") ++ String nl
                 (verdict_json w " " w' category_null true "ok" ["eth"] ++ String nl fence))%string in
  AnalysisClient.Ready c = true /\ IndexByte "json" nl = None /\
  str_forallb Json.is_ws w = true /\ str_forallb Json.is_ws " " = true /\
  str_forallb Json.is_ws w' = true /\
  Json.utf8_valid "ok" /\ Forall Json.utf8_valid ["eth"] /\
  cleanupResponse resp = verdict_json w " " w' category_empty true "ok" ["eth"] /\
  snd (AnalysisClient.Evaluate "sys" (fun _ => "2024-01-01T00:00:00Z") Json.unmarshal_result
         (fun _ => Some [resp]) c item)
  = inl (mkResult true "" "ok" ["eth"]).
Proof.
  intros c w w' item resp.
  assert (H1 : AnalysisClient.Ready c = true) by reflexivity.
  assert (H2 : IndexByte "json" nl = None) by reflexivity.
  assert (H3 : str_forallb Json.is_ws w = true) by reflexivity.
  assert (H4 : str_forallb Json.is_ws " " = true) by reflexivity.
  assert (H5 : str_forallb Json.is_ws w' = true) by reflexivity.
  assert (H6 : Json.utf8_valid "ok") by (vm_compute; reflexivity).
  assert (H7 : Forall Json.utf8_valid ["eth"])
    by (constructor; [vm_compute; reflexivity | constructor]).
  do 7 (split; [assumption|]).
  exact (EvaluateProofs.Evaluate_fenced_category_null "sys" (fun _ => "2024-01-01T00:00:00Z")
           c item "json" w " " w' true "ok" ["eth"] [] H1 H2 H3 H4 H5 H6 H7).
Defined.

End C6Witness.

(** C8 at the table holding two relevant rows, with a limit of one. *)
Lemma list_relevant_ordered_witness :
  reachable store_ab /\
  let l := list_relevant_rows 1 store_ab in
  (forall r, In r l -> relevant r = true /\ In r (rows store_ab)) /\
  Sorted (listed_before store_ab) l /\
  (List.length l <= 1)%nat /\
  itemsHandler false 1 store_ab = Some (List.length l, map stored_of_row l).
Proof.
  assert (H : reachable store_ab).
  { unfold store_ab, store_a. apply reach_upsert, reach_upsert, reach_empty. }
  split; [exact H|].
  exact (list_relevant_ordered store_ab 1 H).
Defined.

(** C10 at a feed with two newsletters and one blog post. *)
Lemma fetch_only_newsletter_witness :
  let entries := [entry_a; entry_b; entry_c] in
  feed env_ok = Some entries /\
  Fetch (now env_ok) (feed env_ok) = Some (flat_map (fetch_entry (now env_ok)) entries) /\
  (forall it, In it (flat_map (fetch_entry (now env_ok)) entries) ->
     Contains (GUID it) newsletter_marker = true \/
     Contains (Link it) newsletter_marker = true) /\
  (forall e, Contains (pickGUID e) newsletter_marker = false ->
     Contains (e_Link e) newsletter_marker = false ->
     fetch_entry (now env_ok) e = []) /\
  (forall webhook st ev, In ev (snd (pollOnce webhook env_ok st)) ->
     exists it, In it (flat_map (fetch_entry (now env_ok)) entries) /\
                event_guid ev = GUID it).
Proof.
  intros entries.
  assert (H : feed env_ok = Some entries) by reflexivity.
  split; [exact H|].
  exact (fetch_only_newsletter env_ok entries H).
Defined.

End Witnesses.

(* ================================================================== *)
(** * The further properties at concrete inputs *)

Module ExtraWitnesses.

Import Rss Analysis Storage Service Observe Examples.
Import GoStrings Utf8 AnalysisText AnalysisClient Config Json CleanupProofs.
Import ConfigProofs AnalysisClientProofs StorageExtraProofs CleanupExtraProofs JsonProofs.

Local Open Scope string_scope.

(** [Atoi] of [itoa 42] and of its negation. *)
Lemma Atoi_itoa_witness :
  (0 <= 42)%Z /\
  Atoi (itoa 42) = (if (42 <? two63)%Z then Some 42%Z else None) /\
  Atoi (String "-" (itoa 42)) = (if (42 <=? two63)%Z then Some (- 42)%Z else None).
Proof.
  assert (H : (0 <= 42)%Z) by lia.
  split; [exact H| exact (Atoi_itoa 42 H)].
Defined.

(** An interval of 153722868 minutes: the first count past the wrap. *)
Lemma durationFromMinutes_wraps_witness :
  let getenv := fun _ : string => itoa 153722868 in
  getenv "POLL_INTERVAL_MINUTES" = itoa 153722868 /\
  (0 < 153722868 < two63)%Z /\
  durationFromMinutes getenv "POLL_INTERVAL_MINUTES" 30 = wrap64 (153722868 * Minute) /\
  ((153722868 <= 153722867)%Z ->
   durationFromMinutes getenv "POLL_INTERVAL_MINUTES" 30 = (153722868 * Minute)%Z /\
   (0 < 153722868 * Minute)%Z) /\
  ((153722867 < 153722868)%Z ->
   durationFromMinutes getenv "POLL_INTERVAL_MINUTES" 30 <> (153722868 * Minute)%Z).
Proof.
  intros getenv.
  assert (H1 : getenv "POLL_INTERVAL_MINUTES" = itoa 153722868) by reflexivity.
  assert (H2 : (0 < 153722868 < two63)%Z) by (unfold two63; lia).
  split; [exact H1|]. split; [exact H2|].
  exact (durationFromMinutes_wraps getenv "POLL_INTERVAL_MINUTES" 30 153722868 H1 H2).
Defined.

Definition reply (req : ChatRequest) : option (list string) :=
  Some ["{" ++ dq ++ "relevant" ++ dq ++ ": true}"].

Definition env_no_key : Env :=
  env_with (evaluator "sys" (fun _ => "t") (fun _ => Some verdict) reply
                      (NewClient "" "gpt-4o" ""))
           (fun _ _ => false).

(** A cycle over two newsletters with the analyzer built without a key. *)
Lemma pollOnce_without_key_no_write_witness :
  evaluate env_no_key
  = evaluator "sys" (fun _ => "t") (fun _ => Some verdict) reply (NewClient "" "gpt-4o" "") /\
  fst (pollOnce true env_no_key store_a) = store_a /\
  forall g r ok, ~ In (EvSave g r ok) (snd (pollOnce true env_no_key store_a)).
Proof.
  assert (H : evaluate env_no_key
    = evaluator "sys" (fun _ => "t") (fun _ => Some verdict) reply (NewClient "" "gpt-4o" ""))
    by reflexivity.
  split; [exact H|].
  exact (pollOnce_without_key_no_write true env_no_key store_a "gpt-4o" "" "sys"
           (fun _ => "t") (fun _ => Some verdict) reply H).
Defined.

(** Two ticks from the table holding one row. *)
Lemma run_table_keys_unique_witness :
  reachable store_a /\
  let st' := fst (run true store_a [env_ok; env_flaky]) in
  NoDup (map (fun r => guid_key st' (guid r)) (rows st')) /\
  NoDup (map guid (rows st')) /\ NoDup (map id (rows st')) /\
  Forall (fun r => (id r < next_id st')%Z) (rows st').
Proof.
  assert (H : reachable store_a) by (apply reach_upsert, reach_empty).
  split; [exact H|].
  exact (run_table_keys_unique true store_a [env_ok; env_flaky] H).
Defined.

(** The top row of the table holding two relevant rows. *)
Lemma list_relevant_top_witness :
  reachable store_ab /\
  let l := list_relevant_rows 1 store_ab in
  List.length l = Nat.min 1 (List.length (filter relevant (rows store_ab))) /\
  (forall x r, In x l -> In r (rows store_ab) -> relevant r = true -> ~ In r l ->
               row_before x r = true) /\
  itemsHandler false 1 store_ab =
    Some (Nat.min 1 (List.length (filter relevant (rows store_ab))),
          map stored_of_row l).
Proof.
  assert (H : reachable store_ab).
  { unfold store_ab, store_a. apply reach_upsert, reach_upsert, reach_empty. }
  split; [exact H|].
  exact (list_relevant_top store_ab 1 H).
Defined.

(** A clean object with a non-null category. *)
Lemma cleanupResponse_clean_object_witness :
  let mid := dq ++ "category" ++ dq ++ ": " ++ dq ++ "defi" ++ dq in
  Contains (String "{" (mid ++ "}")) category_null = false /\
  cleanupResponse (String "{" (mid ++ "}")) = String "{" (mid ++ "}") /\
  (forall opener, opener = fence \/ opener = fence_json ->
   cleanupResponse (opener ++ String nl (String "{" (mid ++ "}") ++ String nl fence))
   = String "{" (mid ++ "}")).
Proof.
  intros mid.
  assert (H : Contains (String "{" (mid ++ "}")) category_null = false) by reflexivity.
  split; [exact H|].
  exact (cleanupResponse_clean_object mid H).
Defined.

(** Tags with HTML-sensitive characters and a two-byte rune. *)
Lemma tags_column_round_trip_witness :
  let tags := Some ["eth"; "<defi & rwa>"; String "195" (String "169" "")] in
  Forall utf8_valid ["eth"; "<defi & rwa>"; String "195" (String "169" "")] /\
  read_tags (Some (marshal_strings tags)) = tags.
Proof.
  intros tags.
  assert (H : Forall utf8_valid ["eth"; "<defi & rwa>"; String "195" (String "169" "")]).
  { repeat constructor; vm_compute; reflexivity. }
  split; [exact H|].
  exact (tags_column_round_trip tags H).
Defined.

End ExtraWitnesses.
